(** * k8s_gateway: the DNS resolution engine, embedded and verified

    A shallow embedding of the query dispatcher ([ServeDNS]), the index
    lookup pipeline, the CNAME chain resolver, the apex handler with its SOA
    serial cell and the zone-transfer producer of the k8s_gateway CoreDNS
    plugin (gateway.go, apex.go and the zone-transfer source), with the
    properties its specification states about them.

    Conventions.
    - A Go [string] is a Rocq [string] (a sequence of bytes); [len] is
      [String.length]; a slice expression [s[lo:hi]] is [go_slice], which
      is [None] where Go panics with "slice bounds out of range".
    - A Go [int], [uint16] or [uint32] is a [Z]; the wrap-around of
      [uint32] arithmetic is written out with [uint32].
    - A computation that may panic returns an [option]; [None] is the
      panic.
    - Functions of the Go standard library that work on bytes
      ([strings.HasSuffix], [strings.Split], ...) are defined here;
      functions whose behaviour is given by Unicode tables or by the DNS
      libraries ([strings.ToLower], [dns.IsSubDomain], ...) are the fields
      of the class [GoLib], so that every theorem holds whatever they
      compute. *)

From Stdlib Require Import ZArith Ascii String Lia.
From stdpp Require Import gmap strings list sorting.

Local Open Scope Z_scope.

(** ** Go strings *)

Module GoStr.

Definition len (s : string) : Z := Z.of_nat (String.length s).

Fixpoint str_take (n : nat) (s : string) : string :=
  match n, s with
  | S n', String c s' => String c (str_take n' s')
  | _, _ => EmptyString
  end.

Fixpoint str_drop (n : nat) (s : string) : string :=
  match n, s with
  | S n', String _ s' => str_drop n' s'
  | _, _ => s
  end.

(** [s[lo:hi]]; out-of-range indices panic. *)
Definition go_slice (s : string) (lo hi : Z) : option string :=
  if (0 <=? lo) && (lo <=? hi) && (hi <=? len s)
  then Some (str_take (Z.to_nat (hi - lo)) (str_drop (Z.to_nat lo) s))
  else None.

(** [s[lo:]] *)
Definition go_slice_from (s : string) (lo : Z) : option string :=
  go_slice s lo (len s).

(** [s[:hi]] *)
Definition go_slice_to (s : string) (hi : Z) : option string :=
  go_slice s 0 hi.

(** [strings.HasSuffix(s, suffix)]:
    [len(s) >= len(suffix) && s[len(s)-len(suffix):] == suffix]. *)
Definition HasSuffix (s suffix : string) : bool :=
  (len suffix <=? len s) &&
  bool_decide (str_drop (Z.to_nat (len s - len suffix)) s = suffix).

(** [strings.TrimSuffix(s, suffix)] *)
Definition TrimSuffix (s suffix : string) : string :=
  if HasSuffix s suffix
  then str_take (Z.to_nat (len s - len suffix)) s
  else s.

(** [strings.HasPrefix(s, prefix)] *)
Definition HasPrefix (s prefix : string) : bool := String.prefix prefix s.

(** [strings.Contains(s, substr)] *)
Fixpoint Contains (s substr : string) : bool :=
  HasPrefix s substr ||
  match s with
  | EmptyString => false
  | String _ s' => Contains s' substr
  end.

(** [strings.Split(s, sep)] for a one-byte separator: the pieces between
    the occurrences of [sep], at least one piece. *)
Fixpoint Split (s : string) (sep : ascii) : list string :=
  match s with
  | EmptyString => [EmptyString]
  | String c s' =>
      if bool_decide (c = sep) then EmptyString :: Split s' sep
      else match Split s' sep with
           | p :: ps => String c p :: ps
           | [] => [String c EmptyString]
           end
  end.

(** [strings.Join(elems, sep)] *)
Definition Join (elems : list string) (sep : string) : string :=
  String.concat sep elems.

End GoStr.

Import GoStr.

(** [len(l) > 0] on a slice. *)
Definition nonempty {T} (l : list T) : bool :=
  match l with [] => false | _ :: _ => true end.

(** [uint32(x)]: the conversion to an unsigned 32-bit integer wraps. *)
Definition uint32 (x : Z) : Z := x mod 2 ^ 32.

(** ** TXT segmentation (gateway.go, [split255]) *)

(** The [for] loop of [split255]: [p] and [i] are its two cursors, [sx] the
    segments appended so far.  [fuel] bounds the number of iterations; the
    loop runs at most [len(s)/255 + 1] times ([split255_loop_fuel]). *)
Fixpoint split255_loop (fuel : nat) (s : string) (p i : Z) (sx : list string)
  : option (list string) :=
  match fuel with
  | O => None
  | S fuel' =>
      if len s <? i then
        seg ← go_slice_from s p;
        Some (sx ++ [seg])
      else
        seg ← go_slice s p i;
        split255_loop fuel' s (p + 255) (i + 255) (sx ++ [seg])
  end.

Definition split255 (s : string) : option (list string) :=
  if len s <? 255 then Some [s]
  else split255_loop (S (String.length s)) s 0 255 [].

(** ** Data model *)

(** [netip.Addr]: an address is represented by its family and its
    [String()] form, which determines it.  The zero [Addr] is neither
    IPv4 nor IPv6. *)
Inductive AddrFamily := FamilyNone | Family4 | Family6.

Record Addr := { addr_family : AddrFamily; addr_text : string }.

Definition Is4 (a : Addr) : bool :=
  match addr_family a with Family4 => true | _ => false end.

Definition Is6 (a : Addr) : bool :=
  match addr_family a with Family6 => true | _ => false end.

(** [netip.Addr.String] *)
Definition Addr_String (a : Addr) : string := addr_text a.

(** The functions of the Go standard library and of the DNS libraries
    (miekg/dns, coredns/plugin) that the engine calls and whose result is
    not a plain byte manipulation. *)
Class GoLib := {
  (** [strings.ToLower] *)
  ToLower : string → string;
  (** [strings.TrimSpace] *)
  TrimSpace : string → string;
  (** [netip.ParseAddr]; [None] is a parse error *)
  ParseAddr : string → option Addr;
  (** [dns.Fqdn] *)
  Fqdn : string → string;
  (** [dns.IsSubDomain(parent, child)] *)
  IsSubDomain : string → string → bool;
  (** [dns.CountLabel] *)
  CountLabel : string → Z;
  (** [dnsutil.TrimZone(q, z)], first component (the callers drop the error) *)
  TrimZone : string → string → string;
  (** [dnsutil.Join(labels...)] *)
  dnsutil_Join : list string → string;
  (** [plugin.Zones(zones).Matches(qname)]: the longest matching zone or [""] *)
  ZonesMatches : list string → string → string
}.

(** DNS constants (miekg/dns). *)
Definition TypeA : Z := 1.
Definition TypeNS : Z := 2.
Definition TypeCNAME : Z := 5.
Definition TypeSOA : Z := 6.
Definition TypeTXT : Z := 16.
Definition TypeAAAA : Z := 28.
Definition ClassINET : Z := 1.
Definition RcodeSuccess : Z := 0.
Definition RcodeServerFailure : Z := 2.
Definition RcodeNameError : Z := 3.

(** [dns.RR_Header] *)
Record RR_Header := {
  Name : string;
  Rrtype : Z;
  Class_ : Z;
  Ttl : Z
}.

(** The record data of the concrete [dns.RR] types the engine builds.
    For [dns.A] and [dns.AAAA] the address field is
    [net.ParseIP(result.String())]; the embedding keeps the [netip.Addr] it
    is parsed from. *)
Inductive RData :=
| Data_A (a : Addr)
| Data_AAAA (a : Addr)
| Data_TXT (Txt : list string)
| Data_CNAME (Target : string)
| Data_NS (ns : string)
| Data_SOA (ns mbox : string) (Serial Refresh Retry Expire Minttl : Z)
| Data_other.

Record RR := { Hdr : RR_Header; Data : RData }.

Definition set_Ttl (ttl : Z) (rr : RR) : RR :=
  {| Hdr := {| Name := Name (Hdr rr); Rrtype := Rrtype (Hdr rr);
               Class_ := Class_ (Hdr rr); Ttl := ttl |};
     Data := Data rr |}.

Definition set_Name (n : string) (rr : RR) : RR :=
  {| Hdr := {| Name := n; Rrtype := Rrtype (Hdr rr);
               Class_ := Class_ (Hdr rr); Ttl := Ttl (Hdr rr) |};
     Data := Data rr |}.

(** The serial of an SOA record ([soa.Serial]); 0 for other records. *)
Definition RR_Serial (rr : RR) : Z :=
  match Data rr with
  | Data_SOA _ _ serial _ _ _ _ => serial
  | _ => 0
  end.

(** [dns.Msg], the fields the engine writes. *)
Record Msg := {
  Rcode : Z;
  Authoritative : bool;
  Answer : list RR;
  Ns : list RR;
  Extra : list RR
}.

(** [m := new(dns.Msg); m.SetReply(state.Req)] *)
Definition new_reply : Msg :=
  {| Rcode := RcodeSuccess; Authoritative := false;
     Answer := []; Ns := []; Extra := [] |}.

Definition set_Rcode (c : Z) (m : Msg) : Msg :=
  {| Rcode := c; Authoritative := Authoritative m;
     Answer := Answer m; Ns := Ns m; Extra := Extra m |}.

Definition set_Authoritative (b : bool) (m : Msg) : Msg :=
  {| Rcode := Rcode m; Authoritative := b;
     Answer := Answer m; Ns := Ns m; Extra := Extra m |}.

Definition set_Answer (l : list RR) (m : Msg) : Msg :=
  {| Rcode := Rcode m; Authoritative := Authoritative m;
     Answer := l; Ns := Ns m; Extra := Extra m |}.

Definition set_Ns (l : list RR) (m : Msg) : Msg :=
  {| Rcode := Rcode m; Authoritative := Authoritative m;
     Answer := Answer m; Ns := l; Extra := Extra m |}.

Definition set_Extra (l : list RR) (m : Msg) : Msg :=
  {| Rcode := Rcode m; Authoritative := Authoritative m;
     Answer := Answer m; Ns := Ns m; Extra := l |}.

(** The question of a request: [q_name] is what [state.QName()] returns
    ([dns.Name(Question[0].Name).String()]), [q_type] the query type. *)
Record Question := { q_name : string; q_type : Z }.

(** [request.Request]: the request message (absent in the state that
    [Transfer] builds) and the zone. *)
Record Request := { Req : option Question; Zone : string }.

(** [state.QName()] *)
Definition QName (state : Request) : string :=
  match Req state with Some q => q_name q | None => "." end.

(** [state.Name()]: the lowercased query name. *)
Definition Request_Name `{GoLib} (state : Request) : string :=
  match Req state with Some q => ToLower (q_name q) | None => "." end.

(** [state.QType()] *)
Definition QType (state : Request) : Z :=
  match Req state with Some q => q_type q | None => 0 end.

(** The unified lookup function of a resource table:
    index keys to (addresses, raw texts, CNAME targets). *)
Definition lookupFunc : Type :=
  list string → list Addr * list string * list string.

Record resourceWithIndex := {
  res_name : string;
  res_lookup : lookupFunc
}.

Definition noop : lookupFunc := λ _, ([], [], []).

Definition staticResources : list resourceWithIndex :=
  [ {| res_name := "HTTPRoute"; res_lookup := noop |};
    {| res_name := "TLSRoute"; res_lookup := noop |};
    {| res_name := "GRPCRoute"; res_lookup := noop |};
    {| res_name := "Ingress"; res_lookup := noop |};
    {| res_name := "Service"; res_lookup := noop |};
    {| res_name := "DNSEndpoint"; res_lookup := noop |} ].

(** *** The objects of the informer stores (read by the zone transfer) *)

(** The types of the Kubernetes API that the engine only passes on. *)
Class KubeTypes := {
  (** [networking.IngressLoadBalancerIngress] *)
  IngressLB : Type;
  (** [core.LoadBalancerIngress] *)
  ServiceLB : Type;
  (** [gatewayapi_v1.ParentReference] *)
  ParentReference : Type;
  (** [gatewayapi_v1.Gateway] *)
  GatewayObject : Type
}.

Record Ingress `{KubeTypes} := {
  ing_Labels : gmap string string;
  ing_IngressClassName : option string;
  ing_LoadBalancer : list IngressLB;
  (** [rule.Host] of each of [Spec.Rules] *)
  ing_Rules : list string
}.

Record Service `{KubeTypes} := {
  svc_Labels : gmap string string;
  svc_Annotations : gmap string string;
  svc_Name : string;
  svc_Namespace : string;
  svc_Type : string;
  svc_ExternalIPs : list string;
  svc_LoadBalancer : list ServiceLB
}.

(** [routeInfo] *)
Record routeInfo `{KubeTypes} := {
  labels : gmap string string;
  namespace : string;
  parentRefs : list ParentReference;
  hostnames : list string
}.

Record Endpoint := {
  DNSName : string;
  RecordType : string;
  Targets : list string
}.

Record DNSEndpoint := {
  ep_Labels : gmap string string;
  ep_Endpoints : list Endpoint
}.

(** An item of an informer store, by its dynamic type. *)
Inductive StoreItem `{KubeTypes} :=
| ItemIngress (i : Ingress)
| ItemService (s : Service)
| ItemHTTPRoute (r : routeInfo)
| ItemTLSRoute (r : routeInfo)
| ItemGRPCRoute (r : routeInfo)
| ItemDNSEndpoint (e : DNSEndpoint)
| ItemGateway (g : GatewayObject)
| ItemOther.

(** A [cache.SharedIndexInformer], as the items [GetStore().List()]
    returns. *)
Definition Informer `{KubeTypes} : Type := list StoreItem.

Record KubeController `{KubeTypes} := {
  hasSynced : bool;
  controllers : list Informer
}.

(** The helpers of the indexer layer (kubernetes.go) that the zone
    transfer calls. *)
Class KubeLib `{KubeTypes} := {
  checkIgnoreLabel : gmap string string → bool;
  fetchIngressLoadBalancerIPs : list IngressLB → list Addr;
  fetchServiceLoadBalancerIPs : list ServiceLB → list Addr;
  lookupGateways :
    Informer → list ParentReference → string → list string → list Addr;
  hostnameAnnotationKey : string;
  externalDnsHostnameAnnotationKey : string
}.

Record ResourceFilters := {
  ingressClasses : list string;
  gatewayClasses : list string
}.

(** [ExternalAddrFunc]: [gw.SelfAddress] (installed by [setup]) or an
    injected function. *)
Inductive ExternalAddr :=
| ExternalSelfAddress
| ExternalFunc (f : Request → list RR).

(** [Gateway]: the runtime configuration of the plugin and the SOA serial
    cell ([lastSerial], [dirty]). *)
Record Gateway `{KubeTypes} := {
  Zones : list string;
  Resources : list resourceWithIndex;
  ttlLow : Z;
  ttlSOA : Z;
  Controller : KubeController;
  apex : string;
  hostmaster : string;
  secondNS : string;
  ExternalAddrFunc : ExternalAddr;
  resourceFilters : ResourceFilters;
  CNAMEMaxDepth : Z;
  (** the zones of [Fall] *)
  Fall : list string;
  soaRefresh : Z;
  soaRetry : Z;
  soaExpire : Z;
  lastSerial : Z;
  dirty : bool
}.

(** [gw.lastSerial = s; gw.dirty = d] *)
Definition set_serial `{KubeTypes} (s : Z) (d : bool) (gw : Gateway) : Gateway :=
  {| Zones := Zones gw; Resources := Resources gw; ttlLow := ttlLow gw;
     ttlSOA := ttlSOA gw; Controller := Controller gw; apex := apex gw;
     hostmaster := hostmaster gw; secondNS := secondNS gw;
     ExternalAddrFunc := ExternalAddrFunc gw;
     resourceFilters := resourceFilters gw;
     CNAMEMaxDepth := CNAMEMaxDepth gw; Fall := Fall gw;
     soaRefresh := soaRefresh gw; soaRetry := soaRetry gw;
     soaExpire := soaExpire gw; lastSerial := s; dirty := d |}.

(** ** The engine *)

Section Engine.
Context `{!GoLib} `{!KubeTypes} `{!KubeLib}.

(** *** SOA serial accounting (apex.go) *)

(** [calculateSerial]: [now] is the value of [time.Now().Unix()] read by
    this call.  Returns the serial and the updated cell. *)
Definition calculateSerial (now : Z) (gw : Gateway) : Z * Gateway :=
  let gw' :=
    if dirty gw then
      let newSerial := uint32 now in
      let newSerial :=
        if newSerial <=? lastSerial gw then uint32 (lastSerial gw + 1)
        else newSerial in
      set_serial newSerial false gw
    else gw in
  (lastSerial gw', gw').

(** Modelled from the spec: [markDirty] (kubernetes.go is not part of the
    sources at hand) is "a dirtiness signal set whenever the snapshot
    changes": it sets the [dirty] flag and leaves [lastSerial]. *)
Definition markDirty (gw : Gateway) : Gateway :=
  set_serial (lastSerial gw) true gw.

Definition soa (now : Z) (gw : Gateway) (state : Request) : RR * Gateway :=
  let '(serial, gw') := calculateSerial now gw in
  ({| Hdr := {| Name := Zone state; Rrtype := TypeSOA;
                Class_ := ClassINET; Ttl := ttlSOA gw |};
      Data := Data_SOA (dnsutil_Join [apex gw; Zone state])
                       (dnsutil_Join [hostmaster gw; apex gw; Zone state])
                       serial (soaRefresh gw) (soaRetry gw) (soaExpire gw)
                       (ttlSOA gw) |},
   gw').

Definition ns1 (gw : Gateway) (state : Request) : RR :=
  {| Hdr := {| Name := Zone state; Rrtype := TypeNS;
               Class_ := ClassINET; Ttl := ttlSOA gw |};
     Data := Data_NS (dnsutil_Join [apex gw; Zone state]) |}.

(** [ns2]: [None] is the nil record. *)
Definition ns2 (gw : Gateway) (state : Request) : option RR :=
  if String.eqb (secondNS gw) "" then None
  else Some {| Hdr := {| Name := Zone state; Rrtype := TypeNS;
                         Class_ := ClassINET; Ttl := ttlSOA gw |};
               Data := Data_NS (dnsutil_Join [secondNS gw; Zone state]) |}.

Definition nameservers (gw : Gateway) (state : Request) : list RR :=
  let result := [ns1 gw state] in
  match ns2 gw state with
  | Some secondaryNS => result ++ [secondaryNS]
  | None => result
  end.

(** *** Record constructors (gateway.go) *)

(** The loop of [A]: [dup] is the set of the string forms seen so far. *)
Fixpoint A_loop (gw : Gateway) (name : string) (results : list Addr)
    (dup : gset string) (records : list RR) : list RR :=
  match results with
  | [] => records
  | result :: rest =>
      if decide (Addr_String result ∈ dup) then A_loop gw name rest dup records
      else A_loop gw name rest ({[Addr_String result]} ∪ dup)
             (records ++ [ {| Hdr := {| Name := name; Rrtype := TypeA;
                                        Class_ := ClassINET; Ttl := ttlLow gw |};
                              Data := Data_A result |} ])
  end.

Definition A (gw : Gateway) (name : string) (results : list Addr) : list RR :=
  A_loop gw name results ∅ [].

Fixpoint AAAA_loop (gw : Gateway) (name : string) (results : list Addr)
    (dup : gset string) (records : list RR) : list RR :=
  match results with
  | [] => records
  | result :: rest =>
      if decide (Addr_String result ∈ dup) then AAAA_loop gw name rest dup records
      else AAAA_loop gw name rest ({[Addr_String result]} ∪ dup)
             (records ++ [ {| Hdr := {| Name := name; Rrtype := TypeAAAA;
                                        Class_ := ClassINET; Ttl := ttlLow gw |};
                              Data := Data_AAAA result |} ])
  end.

Definition AAAA (gw : Gateway) (name : string) (results : list Addr) : list RR :=
  AAAA_loop gw name results ∅ [].

Fixpoint TXT_loop (gw : Gateway) (name : string) (results : list string)
    (dup : gset string) (records : list RR) : option (list RR) :=
  match results with
  | [] => Some records
  | result :: rest =>
      if decide (result ∈ dup) then TXT_loop gw name rest dup records
      else
        txt ← split255 result;
        TXT_loop gw name rest ({[result]} ∪ dup)
          (records ++ [ {| Hdr := {| Name := name; Rrtype := TypeTXT;
                                     Class_ := ClassINET; Ttl := ttlLow gw |};
                           Data := Data_TXT txt |} ])
  end.

Definition TXT (gw : Gateway) (name : string) (results : list string)
  : option (list RR) :=
  TXT_loop gw name results ∅ [].

Definition CNAME (gw : Gateway) (name target : string) : RR :=
  {| Hdr := {| Name := name; Rrtype := TypeCNAME;
               Class_ := ClassINET; Ttl := ttlLow gw |};
     Data := Data_CNAME (Fqdn target) |}.

(** *** Index keys and the lookup pipeline (gateway.go) *)

(** Strips the closing dot unless it's ["."]. *)
Definition stripClosingDot (s : string) : string :=
  if 1 <? len s then TrimSuffix s "." else s.

(** Strips the zone from FQDN and returns a hostname; the slice panics
    when [zone] is longer than [qname]. *)
Definition stripDomain (qname zone : string) : option string :=
  hostname ← go_slice_to qname (len qname - len zone);
  Some (stripClosingDot hostname).

Definition canonicalizeDNSName (name : string) : string :=
  let name := ToLower name in
  if negb (HasSuffix name ".") then name +:+ "." else name.

Definition getQueryIndexKeys (qName zone : string) : option (list string) :=
  zonelessQuery ← stripDomain qName zone;
  let strippedQName := stripClosingDot qName in
  if negb (len zonelessQuery =? 0) && negb (String.eqb zonelessQuery strippedQName)
  then Some [strippedQName; zonelessQuery]
  else Some [strippedQName].

Definition toWildcardQName (qName zone : string) : option string :=
  zonelessQuery ← stripDomain qName zone;
  let parts := Split zonelessQuery "." in
  match parts with
  | [] => Some ""
  | _ :: parts' =>
      let parts := "*" :: parts' in
      let parts := parts ++ [zone] in
      Some (Join parts ".")
  end.

Definition getQueryIndexKeySets (qName zone : string)
  : option (list (list string)) :=
  specificIndexKeys ← getQueryIndexKeys qName zone;
  wildcardQName ← toWildcardQName qName zone;
  if String.eqb wildcardQName "" then Some [specificIndexKeys]
  else
    wildcardIndexKeys ← getQueryIndexKeys wildcardQName zone;
    Some [specificIndexKeys; wildcardIndexKeys].

(** Whether a lookup result has a match:
    [len(addrs) > 0 || len(raws) > 0 || len(cnames) > 0]. *)
Definition has_match (t : list Addr * list string * list string) : bool :=
  let '(addrs, raws, cnames) := t in
  nonempty addrs || nonempty raws || nonempty cnames.

(** The inner loop of [getMatchingAddressesWithCNAME], over the resources;
    [None] when the loop ends without a match. *)
Fixpoint lookup_resources (resources : list resourceWithIndex)
    (indexKeys : list string) : option (list Addr * list string * list string) :=
  match resources with
  | [] => None
  | resource :: rest =>
      let t := res_lookup resource indexKeys in
      if has_match t then Some t else lookup_resources rest indexKeys
  end.

(** The outer loop, over the key sets. *)
Fixpoint lookup_keysets (resources : list resourceWithIndex)
    (indexKeySets : list (list string)) : list Addr * list string * list string :=
  match indexKeySets with
  | [] => ([], [], [])
  | indexKeys :: rest =>
      match lookup_resources resources indexKeys with
      | Some t => t
      | None => lookup_keysets resources rest
      end
  end.

Definition getMatchingAddressesWithCNAME (gw : Gateway)
    (indexKeySets : list (list string)) : list Addr * list string * list string :=
  lookup_keysets (Resources gw) indexKeySets.

(** *** CNAME chain resolution (gateway.go) *)

Inductive CNAMEError :=
| ErrDepthLimit (cname : string)
| ErrLoop (canonicalCname : string)
| ErrNotFound (canonicalCname : string).

(** The pair [([]netip.Addr, error)] that the resolver returns. *)
Inductive Resolution :=
| Resolved (addrs : list Addr)
| Failed (err : CNAMEError).

(** The body of [resolveCNAMEChainWithVisited] below its depth check;
    [self] is the recursive call, already given [maxDepth-1].  The result
    carries the [visited] map as the call leaves it: the map is shared
    with the caller, and the deferred [delete] runs on return. *)
Definition resolve_body (gw : Gateway)
    (self : string → string → gset string → option (Resolution * gset string))
    (cname zone : string) (visited : gset string)
  : option (Resolution * gset string) :=
  let canonicalCname := canonicalizeDNSName cname in
  let canonicalZone := canonicalizeDNSName zone in
  if decide (canonicalCname ∈ visited)
  then Some (Failed (ErrLoop canonicalCname), visited)
  else
    let visited := {[canonicalCname]} ∪ visited in
    indexKeySets ← getQueryIndexKeySets canonicalCname canonicalZone;
    let '(addrs, raws, nextCnames) :=
      getMatchingAddressesWithCNAME gw indexKeySets in
    if nonempty addrs
    then Some (Resolved addrs, visited ∖ {[canonicalCname]})
    else
      match nextCnames with
      | next :: _ =>
          '(r, visited) ← self next canonicalZone visited;
          Some (r, visited ∖ {[canonicalCname]})
      | [] =>
          if negb (HasSuffix canonicalCname canonicalZone)
          then Some (Resolved [], visited ∖ {[canonicalCname]})
          else Some (Failed (ErrNotFound canonicalCname),
                     visited ∖ {[canonicalCname]})
      end.

(** [resolveCNAMEChainWithVisited], by recursion on the remaining depth:
    [depth] is [maxDepth] when positive and [0] when [maxDepth <= 0]. *)
Fixpoint resolve_depth (gw : Gateway) (depth : nat) (cname zone : string)
    (visited : gset string) : option (Resolution * gset string) :=
  match depth with
  | O => Some (Failed (ErrDepthLimit cname), visited)
  | S depth' => resolve_body gw (resolve_depth gw depth') cname zone visited
  end.

Definition resolveCNAMEChainWithVisited (gw : Gateway) (cname zone : string)
    (maxDepth : Z) (visited : gset string) : option (Resolution * gset string) :=
  resolve_depth gw (Z.to_nat maxDepth) cname zone visited.

Definition resolveCNAMEChain (gw : Gateway) (cname zone : string)
    (maxDepth : Z) : option Resolution :=
  fst <$> resolveCNAMEChainWithVisited gw cname zone maxDepth ∅.

(** [resolve_depth] with a ghost trace: the canonical names that the
    successive calls of one resolution mark as visited, in call order.
    [resolve_traced_erase] shows that it computes what [resolve_depth]
    does. *)
Fixpoint resolve_traced (gw : Gateway) (depth : nat) (cname zone : string)
    (visited : gset string) : list string * option (Resolution * gset string) :=
  match depth with
  | O => ([], Some (Failed (ErrDepthLimit cname), visited))
  | S depth' =>
      let canonicalCname := canonicalizeDNSName cname in
      let canonicalZone := canonicalizeDNSName zone in
      if decide (canonicalCname ∈ visited)
      then ([], Some (Failed (ErrLoop canonicalCname), visited))
      else
        let visited := {[canonicalCname]} ∪ visited in
        match getQueryIndexKeySets canonicalCname canonicalZone with
        | None => ([canonicalCname], None)
        | Some indexKeySets =>
            let '(addrs, raws, nextCnames) :=
              getMatchingAddressesWithCNAME gw indexKeySets in
            if nonempty addrs
            then ([canonicalCname],
                  Some (Resolved addrs, visited ∖ {[canonicalCname]}))
            else
              match nextCnames with
              | next :: _ =>
                  let '(trace, out) :=
                    resolve_traced gw depth' next canonicalZone visited in
                  (canonicalCname :: trace,
                   '(r, visited) ← out; Some (r, visited ∖ {[canonicalCname]}))
              | [] =>
                  if negb (HasSuffix canonicalCname canonicalZone)
                  then ([canonicalCname],
                        Some (Resolved [], visited ∖ {[canonicalCname]}))
                  else ([canonicalCname],
                        Some (Failed (ErrNotFound canonicalCname),
                              visited ∖ {[canonicalCname]}))
              end
        end
  end.

(** *** Apex handling (apex.go, gateway.go) *)

(** [SelfAddress]: the address of the local k8s_gateway service. *)
Definition SelfAddress (gw : Gateway) (state : Request) : list RR :=
  let '(addrs1, addrs2) :=
    fold_left
      (λ '(addrs1, addrs2) resource,
         let '(results, _, _) := res_lookup resource [apex gw] in
         let addrs1 := if nonempty results then addrs1 ++ results else addrs1 in
         let '(results, _, _) := res_lookup resource [secondNS gw] in
         let addrs2 := if nonempty results then addrs2 ++ results else addrs2 in
         (addrs1, addrs2))
      (Resources gw) ([], []) in
  let records := A gw (apex gw +:+ "." +:+ Zone state) addrs1 in
  if QType state =? TypeNS
  then records ++ A gw (secondNS gw +:+ "." +:+ Zone state) addrs2
  else records.

(** The call [gw.ExternalAddrFunc(state)]. *)
Definition callExternalAddrFunc (gw : Gateway) (state : Request) : list RR :=
  match ExternalAddrFunc gw with
  | ExternalSelfAddress => SelfAddress gw state
  | ExternalFunc f => f state
  end.

(** The body of the loop of [serveSubApex] over the external addresses. *)
Definition serveSubApex_step (gw : Gateway) (state : Request) (m : Msg) (rr : RR)
  : Msg :=
  let rr := set_Ttl (ttlSOA gw) rr in
  let rr := set_Name (QName state) rr in
  if QType state =? TypeA then
    if Rrtype (Hdr rr) =? TypeA then set_Answer (Answer m ++ [rr]) m else m
  else if QType state =? TypeAAAA then
    if Rrtype (Hdr rr) =? TypeAAAA then set_Answer (Answer m ++ [rr]) m else m
  else m.

(** The name-error answer of [serveSubApex]:
    [m.SetRcode(m, dns.RcodeNameError); m.Ns = []dns.RR{gw.soa(state)}]. *)
Definition subApex_nxdomain (now : Z) (gw : Gateway) (state : Request) (m : Msg)
  : Msg * Gateway :=
  let m := set_Rcode RcodeNameError m in
  let '(rr, gw) := soa now gw state in
  (set_Ns [rr] m, gw).

(** [serveSubApex] serves requests that hit the zone's fake 'dns'
    subdomain where the nameservers live.  Returns the code (always 0), the
    message written and the gateway. *)
Definition serveSubApex (now : Z) (gw : Gateway) (state : Request)
  : Z * Msg * Gateway :=
  let base := TrimZone (Request_Name state) (Zone state) in
  let m := new_reply in
  let m := set_Authoritative true m in
  let labels := CountLabel base in
  if labels =? 2 then
    if negb (String.eqb base (apex gw)) then
      let '(m, gw) := subApex_nxdomain now gw state m in
      (0, m, gw)
    else
      let addr := callExternalAddrFunc gw state in
      let m := fold_left (serveSubApex_step gw state) addr m in
      let '(m, gw) :=
        if negb (nonempty (Answer m))
        then let '(rr, gw) := soa now gw state in (set_Ns [rr] m, gw)
        else (m, gw) in
      (0, m, gw)
  else
    let '(m, gw) := subApex_nxdomain now gw state m in
    (0, m, gw).

(** What [checkApexQuery] returns: [isRootZone], [handled], [code], and,
    when the query was handled, the message that [serveSubApex] wrote. *)
Record ApexCheck := {
  isRootZone : bool;
  handled : bool;
  code : Z;
  written : option Msg
}.

(** The loop of [checkApexQuery] over the zones. *)
Fixpoint checkApexQuery_loop (now : Z) (gw : Gateway) (state : Request)
    (zones : list string) : ApexCheck * Gateway :=
  match zones with
  | [] => ({| isRootZone := false; handled := false; code := 0;
              written := None |}, gw)
  | z :: rest =>
      if String.eqb (Request_Name state) z then
        ({| isRootZone := true; handled := false; code := 0;
            written := None |}, gw)
      else if IsSubDomain (apex gw +:+ "." +:+ z) (Request_Name state) then
        let '(ret, m, gw) := serveSubApex now gw state in
        ({| isRootZone := false; handled := true; code := ret;
            written := Some m |}, gw)
      else checkApexQuery_loop now gw state rest
  end.

Definition checkApexQuery (now : Z) (gw : Gateway) (state : Request)
  : ApexCheck * Gateway :=
  checkApexQuery_loop now gw state (Zones gw).

(** *** Response assembly (gateway.go) *)

(** [setNegativeResponse] sets up the SOA record for negative responses. *)
Definition setNegativeResponse (now : Z) (gw : Gateway) (m : Msg)
    (state : Request) : Msg * Gateway :=
  let '(rr, gw) := soa now gw state in
  (set_Ns [rr] m, gw).

(** [addExtraRecords] adds the additional records of an NS response. *)
Definition addExtraRecords (gw : Gateway) (m : Msg) (state : Request) : Msg :=
  let addr := callExternalAddrFunc gw state in
  fold_left (λ m rr, set_Extra (Extra m ++ [set_Ttl (ttlSOA gw) rr]) m) addr m.

(** [addResolvedAddresses] adds the resolved addresses to the response. *)
Definition addResolvedAddresses (gw : Gateway) (m : Msg) (cname : string)
    (addrs : list Addr) (needIPv4 needIPv6 : bool) : Msg :=
  let m :=
    if needIPv4 then
      let ipv4Addrs := List.filter Is4 addrs in
      if nonempty ipv4Addrs
      then set_Answer (Answer m ++ A gw (Fqdn cname) ipv4Addrs) m
      else m
    else m in
  if needIPv6 then
    let ipv6Addrs := List.filter Is6 addrs in
    if nonempty ipv6Addrs
    then set_Answer (Answer m ++ AAAA gw (Fqdn cname) ipv6Addrs) m
    else m
  else m.

(** [processCNAMEWithResolution] handles CNAME records and attempts chain
    resolution. *)
Definition processCNAMEWithResolution (gw : Gateway) (m : Msg) (state : Request)
    (cname : string) (needIPv4 needIPv6 : bool) : option Msg :=
  let m := set_Answer (Answer m ++ [CNAME gw (Request_Name state) cname]) m in
  res ← resolveCNAMEChain gw cname (Zone state) (CNAMEMaxDepth gw);
  match res with
  | Failed _ => Some m
  | Resolved resolvedAddrs =>
      if negb (nonempty resolvedAddrs) then Some m
      else Some (addResolvedAddresses gw m cname resolvedAddrs needIPv4 needIPv6)
  end.

(** [handleAddressQuery] processes A and AAAA queries with CNAME
    resolution. *)
Definition handleAddressQuery (now : Z) (gw : Gateway) (m : Msg)
    (state : Request) (addrs : list Addr) (cnames : list string)
    (isRootZoneQuery isIPv4 : bool) : option (Msg * Gateway) :=
  if negb (nonempty addrs) && negb (nonempty cnames) then
    let '(m, gw) := setNegativeResponse now gw m state in
    let m := if negb isRootZoneQuery then set_Rcode RcodeNameError m else m in
    Some (m, gw)
  else
    match cnames with
    | cname0 :: _ =>
        m ← processCNAMEWithResolution gw m state cname0 isIPv4 (negb isIPv4);
        Some (m, gw)
    | [] =>
        if isIPv4
        then Some (set_Answer (A gw (Request_Name state) addrs) m, gw)
        else Some (set_Answer (AAAA gw (Request_Name state) addrs) m, gw)
    end.

(** [handleDataQuery] processes TXT and other data queries. *)
Definition handleDataQuery (now : Z) (gw : Gateway) (m : Msg) (state : Request)
    (data : list string) (isRootZoneQuery noDataFound : bool)
  : option (Msg * Gateway) :=
  if negb (nonempty data) then
    let '(m, gw) := setNegativeResponse now gw m state in
    let m := if negb isRootZoneQuery && noDataFound
             then set_Rcode RcodeNameError m else m in
    Some (m, gw)
  else
    records ← TXT gw (Request_Name state) data;
    Some (set_Answer records m, gw).

(** [handleCNAMEQuery] processes direct CNAME queries. *)
Definition handleCNAMEQuery (now : Z) (gw : Gateway) (m : Msg) (state : Request)
    (cnames : list string) (isRootZoneQuery noDataFound : bool) : Msg * Gateway :=
  match cnames with
  | [] =>
      let '(m, gw) := setNegativeResponse now gw m state in
      let m :=
        if noDataFound && negb isRootZoneQuery &&
           Contains (ToLower (Request_Name state)) "nonexistent"
        then set_Rcode RcodeNameError m else m in
      (m, gw)
  | cname0 :: _ =>
      (set_Answer [CNAME gw (Request_Name state) cname0] m, gw)
  end.

(** [handleNSQuery] processes NS record queries. *)
Definition handleNSQuery (now : Z) (gw : Gateway) (m : Msg) (state : Request)
    (isRootZoneQuery : bool) : Msg * Gateway :=
  if isRootZoneQuery then
    let m := set_Answer (nameservers gw state) m in
    (addExtraRecords gw m state, gw)
  else setNegativeResponse now gw m state.

(** [processQueryResponse] builds the response for the query type. *)
Definition processQueryResponse (now : Z) (gw : Gateway) (m : Msg)
    (state : Request) (ipv4Addrs ipv6Addrs : list Addr)
    (raws cnames : list string) (isRootZoneQuery noDataFound : bool)
  : option (Msg * Gateway) :=
  if QType state =? TypeA then
    handleAddressQuery now gw m state ipv4Addrs cnames isRootZoneQuery true
  else if QType state =? TypeAAAA then
    '(m, gw) ← handleAddressQuery now gw m state ipv6Addrs cnames
                 isRootZoneQuery false;
    (* Special case for AAAA: as per rfc4074 #3 *)
    if negb (nonempty ipv6Addrs) && negb (nonempty cnames) && nonempty ipv4Addrs
    then Some (set_Rcode RcodeSuccess m, gw)
    else Some (m, gw)
  else if QType state =? TypeTXT then
    handleDataQuery now gw m state raws isRootZoneQuery noDataFound
  else if QType state =? TypeCNAME then
    Some (handleCNAMEQuery now gw m state cnames isRootZoneQuery noDataFound)
  else if QType state =? TypeSOA then
    let '(rr, gw) := soa now gw state in
    Some (set_Answer [rr] m, gw)
  else if QType state =? TypeNS then
    Some (handleNSQuery now gw m state isRootZoneQuery)
  else
    Some (setNegativeResponse now gw m state).

(** *** The dispatcher (gateway.go, [ServeDNS]) *)

(** [validateQueryZone] checks if the query matches any of the configured
    zones; the zone keeps the case of the query. *)
Definition validateQueryZone (gw : Gateway) (qname : string)
  : option (string * bool) :=
  let zone := ZonesMatches (Zones gw) qname in
  if String.eqb zone "" then Some ("", false)
  else
    zone ← go_slice_from qname (len qname - len zone);
    Some (zone, true).

(** Modelled from the spec: [gw.Controller.HasSynced()] (kubernetes.go is
    not part of the sources at hand) is the readiness predicate of the
    indexer layer, true once it "has completed its initial
    synchronization"; the tests set it through the field [hasSynced]. *)
Definition HasSynced (gw : Gateway) : bool := hasSynced (Controller gw).

(** [gw.Fall.Through(qname)]: the fall-through zones match the name. *)
Definition Fall_Through (gw : Gateway) (qname : string) : bool :=
  negb (String.eqb (ZonesMatches (Fall gw) qname) "").

(** What [ServeDNS] does with a request: it hands it to the next handler
    ([plugin.NextOrFailure]), or returns a code, possibly an error, after
    writing at most one message. *)
Inductive Served :=
| NextOrFailure
| Returned (rcode : Z) (err : bool) (msg : option Msg).

Definition ServeDNS (now : Z) (gw : Gateway) (r : option Question)
  : option (Served * Gateway) :=
  let state := {| Req := r; Zone := "" |} in
  let qname := QName state in
  '(zone, validZone) ← validateQueryZone gw qname;
  if negb validZone then Some (NextOrFailure, gw)
  else
    let state := {| Req := r; Zone := zone |} in
    indexKeySets ← getQueryIndexKeySets qname zone;
    if negb (HasSynced gw)
    then Some (Returned RcodeServerFailure true None, gw)
    else
      let '(chk, gw) := checkApexQuery now gw state in
      if handled chk then Some (Returned (code chk) false (written chk), gw)
      else
        let '(addrs, raws, cnames) :=
          getMatchingAddressesWithCNAME gw indexKeySets in
        (* Fall through if no host matches *)
        let noDataFound :=
          negb (nonempty addrs) && negb (nonempty raws) &&
          negb (nonempty cnames) in
        if noDataFound && Fall_Through gw qname then Some (NextOrFailure, gw)
        else
          let m := new_reply in
          let ipv4Addrs := List.filter Is4 addrs in
          let ipv6Addrs := List.filter Is6 addrs in
          '(m, gw) ← processQueryResponse now gw m state ipv4Addrs ipv6Addrs
                       raws cnames (isRootZone chk) noDataFound;
          let m := set_Authoritative true m in
          if Rcode m =? RcodeNameError
          then Some (Returned (Rcode m) false (Some m), gw)
          else Some (Returned RcodeSuccess false (Some m), gw).

(** *** Zone transfer *)

(** [for ... { s, err = f(s, x); ... }] with a body that may panic. *)
Fixpoint foldlM {S T} (f : S → T → option S) (l : list T) (s : S) : option S :=
  match l with
  | [] => Some s
  | x :: l' => s' ← f s x; foldlM f l' s'
  end.

(** [addRecords]: [records[key] = append(records[key], rrs...)] when
    [rrs] is not empty. *)
Definition addRecords (records : gmap string (list RR)) (key : string)
    (rrs : list RR) : gmap string (list RR) :=
  if nonempty rrs then <[key := default [] (records !! key) ++ rrs]> records
  else records.

Definition ipv4Only (addrs : list Addr) : list Addr := List.filter Is4 addrs.

Definition ipv6Only (addrs : list Addr) : list Addr := List.filter Is6 addrs.

Fixpoint contains (slice : list string) (item : string) : bool :=
  match slice with
  | [] => false
  | s :: rest => if String.eqb s item then true else contains rest item
  end.

(** The A and AAAA records of one host name: the two [addRecords] calls
    that close each collector's loop body. *)
Definition addHostRecords (gw : Gateway) (records : gmap string (list RR))
    (fqdn : string) (addrs : list Addr) : gmap string (list RR) :=
  let records := addRecords records fqdn (A gw fqdn (ipv4Only addrs)) in
  addRecords records fqdn (AAAA gw fqdn (ipv6Only addrs)).

(** The body of the loops of [transferIngresses], for one store item. *)
Definition transferIngresses_item (gw : Gateway) (zone : string)
    (records : gmap string (list RR)) (item : StoreItem)
  : gmap string (list RR) :=
  match item with
  | ItemIngress ingress =>
      if checkIgnoreLabel (ing_Labels ingress) then records
      else if nonempty (ingressClasses (resourceFilters gw)) &&
              match ing_IngressClassName ingress with
              | None => true
              | Some ingressClass =>
                  negb (contains (ingressClasses (resourceFilters gw)) ingressClass)
              end
      then records
      else
        let addrs := fetchIngressLoadBalancerIPs (ing_LoadBalancer ingress) in
        if negb (nonempty addrs) then records
        else
          fold_left
            (λ records host,
               if String.eqb host "" then records
               else
                 let hostname := ToLower host in
                 if negb (HasSuffix hostname zone) then records
                 else addHostRecords gw records (Fqdn hostname) addrs)
            (ing_Rules ingress) records
  | _ => records
  end.

Definition transferIngresses (gw : Gateway) (records : gmap string (list RR))
    (zone : string) : gmap string (list RR) :=
  fold_left (λ records ctrl, fold_left (transferIngresses_item gw zone) ctrl records)
    (controllers (Controller gw)) records.

Definition getServiceHostnames (service : Service) (zone : string) : list string :=
  let hostnames := [] in
  let hostnames :=
    match svc_Annotations service !! hostnameAnnotationKey with
    | Some hostname => hostnames ++ Split hostname ","
    | None => hostnames
    end in
  let hostnames :=
    match svc_Annotations service !! externalDnsHostnameAnnotationKey with
    | Some hostname => hostnames ++ Split hostname ","
    | None => hostnames
    end in
  let hostnames :=
    if negb (nonempty hostnames)
    then hostnames ++ [svc_Name service +:+ "." +:+ svc_Namespace service
                         +:+ "." +:+ zone]
    else hostnames in
  fold_left
    (λ cleaned h, let h := TrimSpace h in
                  if negb (String.eqb h "") then cleaned ++ [h] else cleaned)
    hostnames [].

(** The body of the loops of [transferServices], for one store item. *)
Definition transferServices_item (gw : Gateway) (zone : string)
    (records : gmap string (list RR)) (item : StoreItem)
  : gmap string (list RR) :=
  match item with
  | ItemService service =>
      if checkIgnoreLabel (svc_Labels service) then records
      else if negb (String.eqb (svc_Type service) "LoadBalancer") then records
      else
        let addrs :=
          if nonempty (svc_ExternalIPs service) then
            fold_left
              (λ addrs ip, match ParseAddr ip with
                           | Some addr => addrs ++ [addr]
                           | None => addrs
                           end)
              (svc_ExternalIPs service) []
          else fetchServiceLoadBalancerIPs (svc_LoadBalancer service) in
        if negb (nonempty addrs) then records
        else
          fold_left
            (λ records hostname,
               if negb (HasSuffix hostname zone) then records
               else addHostRecords gw records (Fqdn hostname) addrs)
            (getServiceHostnames service zone) records
  | _ => records
  end.

Definition transferServices (gw : Gateway) (records : gmap string (list RR))
    (zone : string) : gmap string (list RR) :=
  fold_left (λ records ctrl, fold_left (transferServices_item gw zone) ctrl records)
    (controllers (Controller gw)) records.

(** [findGatewayController]: the first informer whose first item is a
    Gateway; [None] is nil. *)
Fixpoint find_gateway_controller (cs : list Informer) : option Informer :=
  match cs with
  | [] => None
  | c :: rest =>
      match c with
      | ItemGateway _ :: _ => Some c
      | _ => find_gateway_controller rest
      end
  end.

Definition findGatewayController (gw : Gateway) : option Informer :=
  find_gateway_controller (controllers (Controller gw)).

(** [transferRouteResources] processes one route. *)
Definition transferRouteResources (gw : Gateway)
    (records : gmap string (list RR)) (zone : string) (gwCtrl : Informer)
    (route : routeInfo) : gmap string (list RR) :=
  if checkIgnoreLabel (labels route) then records
  else
    let addrs := lookupGateways gwCtrl (parentRefs route) (namespace route)
                   (gatewayClasses (resourceFilters gw)) in
    if negb (nonempty addrs) then records
    else
      fold_left
        (λ records hostname,
           let hostnameStr := ToLower hostname in
           if negb (HasSuffix hostnameStr zone) then records
           else addHostRecords gw records (Fqdn hostnameStr) addrs)
        (hostnames route) records.

(** The three route collectors differ in the item type they select. *)
Definition transferRoutes (select : StoreItem → option routeInfo) (gw : Gateway)
    (records : gmap string (list RR)) (zone : string) : gmap string (list RR) :=
  match findGatewayController gw with
  | None => records
  | Some gwCtrl =>
      fold_left
        (λ records ctrl,
           fold_left
             (λ records item,
                match select item with
                | Some route => transferRouteResources gw records zone gwCtrl route
                | None => records
                end)
             ctrl records)
        (controllers (Controller gw)) records
  end.

Definition transferHTTPRoutes : Gateway → gmap string (list RR) → string →
                                gmap string (list RR) :=
  transferRoutes (λ item, match item with ItemHTTPRoute r => Some r | _ => None end).

Definition transferTLSRoutes : Gateway → gmap string (list RR) → string →
                               gmap string (list RR) :=
  transferRoutes (λ item, match item with ItemTLSRoute r => Some r | _ => None end).

Definition transferGRPCRoutes : Gateway → gmap string (list RR) → string →
                                gmap string (list RR) :=
  transferRoutes (λ item, match item with ItemGRPCRoute r => Some r | _ => None end).

(** The addresses that parse among the targets of an endpoint. *)
Definition parseTargets (targets : list string) : list Addr :=
  fold_left
    (λ addrs target, match ParseAddr target with
                     | Some addr => addrs ++ [addr]
                     | None => addrs
                     end)
    targets [].

(** The body of the inner loop of [transferDNSEndpoints], for one
    endpoint. *)
Definition transferDNSEndpoints_endpoint (gw : Gateway) (zone : string)
    (records : gmap string (list RR)) (endpoint : Endpoint)
  : option (gmap string (list RR)) :=
  let hostname := ToLower (DNSName endpoint) in
  if negb (HasSuffix hostname zone) then Some records
  else
    let fqdn := Fqdn hostname in
    if String.eqb (RecordType endpoint) "A" ||
       String.eqb (RecordType endpoint) "AAAA" then
      let addrs := parseTargets (Targets endpoint) in
      if String.eqb (RecordType endpoint) "A"
      then Some (addRecords records fqdn (A gw fqdn (ipv4Only addrs)))
      else Some (addRecords records fqdn (AAAA gw fqdn (ipv6Only addrs)))
    else if String.eqb (RecordType endpoint) "TXT" then
      rrs ← TXT gw fqdn (Targets endpoint);
      Some (addRecords records fqdn rrs)
    else Some records.

Definition transferDNSEndpoints_item (gw : Gateway) (zone : string)
    (records : gmap string (list RR)) (item : StoreItem)
  : option (gmap string (list RR)) :=
  match item with
  | ItemDNSEndpoint dnsEndpoint =>
      if checkIgnoreLabel (ep_Labels dnsEndpoint) then Some records
      else foldlM (transferDNSEndpoints_endpoint gw zone)
             (ep_Endpoints dnsEndpoint) records
  | _ => Some records
  end.

Definition transferDNSEndpoints (gw : Gateway) (records : gmap string (list RR))
    (zone : string) : option (gmap string (list RR)) :=
  foldlM (λ records ctrl, foldlM (transferDNSEndpoints_item gw zone) ctrl records)
    (controllers (Controller gw)) records.

(** The [switch resource.name] of [transferResources]. *)
Definition transferResource (gw : Gateway) (zone : string)
    (records : gmap string (list RR)) (resource : resourceWithIndex)
  : option (gmap string (list RR)) :=
  let n := res_name resource in
  if String.eqb n "Ingress" then Some (transferIngresses gw records zone)
  else if String.eqb n "Service" then Some (transferServices gw records zone)
  else if String.eqb n "HTTPRoute" then Some (transferHTTPRoutes gw records zone)
  else if String.eqb n "TLSRoute" then Some (transferTLSRoutes gw records zone)
  else if String.eqb n "GRPCRoute" then Some (transferGRPCRoutes gw records zone)
  else if String.eqb n "DNSEndpoint" then transferDNSEndpoints gw records zone
  else Some records.

(** [sort.Strings] over the keys of the map: the keys in increasing
    (byte-wise lexicographic) order.  Go ranges over the map in an
    unspecified order; the sorted result does not depend on it. *)
Definition sorted_keys (records : gmap string (list RR)) : list string :=
  merge_sort String.le (elements (dom records)).

(** [transferResources] iterates through all resources; the result is the
    sequence of record groups it sends on the channel ([None]: a panic
    before anything was sent). *)
Definition transferResources (gw : Gateway) (zone : string)
  : option (list (list RR)) :=
  if negb (HasSynced gw) then Some []
  else
    records ← foldlM (transferResource gw zone) (Resources gw) ∅;
    let keys := sorted_keys records in
    Some (map (λ key, default [] (records !! key)) keys).

(** What [Transfer] returns: the error, or the channel as the sequence of
    record groups sent on it before it is closed. *)
Inductive Transferred :=
| ErrNotAuthoritative
| Stream (groups : list (list RR)).

(** [Transfer] implements the transfer.Transfer interface for zone
    transfers (AXFR).  A panic of the producer is recovered and closes the
    channel. *)
Definition Transfer (now : Z) (gw : Gateway) (zone : string) (serial : Z)
  : Transferred * Gateway :=
  let match_ := ZonesMatches (Zones gw) zone in
  if String.eqb match_ "" then (ErrNotAuthoritative, gw)
  else
    let state := {| Req := None; Zone := zone |} in
    let '(soa_rr, gw) := soa now gw state in
    if negb (serial =? 0) && (RR_Serial soa_rr =? serial)
    then (Stream [[soa_rr]], gw)
    else
      let nsRecords := nameservers gw state in
      let nsAddrs := callExternalAddrFunc gw state in
      let sent :=
        [[soa_rr]] ++ map (λ ns, [ns]) nsRecords ++
        (if nonempty nsAddrs then [nsAddrs] else []) in
      match transferResources gw zone with
      | Some groups => (Stream (sent ++ groups ++ [[soa_rr]]), gw)
      | None => (Stream sent, gw)
      end.

End Engine.

(** ** A concrete library, for running the engine

    The library functions on the names that the examples below use: fully
    qualified ASCII names without escape sequences, and well-formed
    address text.  On these they compute what the Go functions do. *)

Module Concrete.

Definition lower_ascii (c : ascii) : ascii :=
  let n := N_of_ascii c in
  if ((65 <=? n) && (n <=? 90))%N then ascii_of_N (n + 32) else c.

Fixpoint lower (s : string) : string :=
  match s with
  | EmptyString => EmptyString
  | String c s' => String (lower_ascii c) (lower s')
  end.

Definition is_space (c : ascii) : bool :=
  let n := N_of_ascii c in
  ((n =? 32) || ((9 <=? n) && (n <=? 13)))%N.

Fixpoint trim_left (s : string) : string :=
  match s with
  | String c s' => if is_space c then trim_left s' else s
  | EmptyString => EmptyString
  end.

Fixpoint rev_string (s acc : string) : string :=
  match s with
  | EmptyString => acc
  | String c s' => rev_string s' (String c acc)
  end.

Definition trim (s : string) : string :=
  rev_string (trim_left (rev_string (trim_left s) "")) "".

Definition fqdn (s : string) : string :=
  if HasSuffix s "." then s else s +:+ ".".

(** The labels of a name, leftmost first; the root has none. *)
Definition name_labels (s : string) : list string :=
  if String.eqb s "." then []
  else Split (TrimSuffix s ".") ".".

(** [parent]'s labels are the last labels of [child], letter case apart. *)
Definition is_sub_domain (parent child : string) : bool :=
  let lp := rev (name_labels (lower parent)) in
  let lc := rev (name_labels (lower child)) in
  bool_decide (take (length lp) lc = lp).

Definition count_label (s : string) : Z :=
  Z.of_nat (length (name_labels s)).

(** The labels of [q] in front of the zone [z], joined; [""] when [q] has
    no label in front of the zone. *)
Definition trim_zone (q z : string) : string :=
  let lq := name_labels q in
  let n := (length lq - length (name_labels z))%nat in
  Join (take n lq) ".".

(** A last label ["."] is the root and is dropped. *)
Definition join_labels (labels : list string) : string :=
  match reverse labels with
  | "." :: front => Join (reverse front) "." +:+ "."
  | _ => fqdn (Join labels ".")
  end.

(** The longest zone that [qname] lies in, or [""]. *)
Definition zones_matches (zones : list string) (qname : string) : string :=
  fold_left
    (λ zone zname,
       if is_sub_domain zname qname && (len zone <? len zname)
       then zname else zone)
    zones "".

Definition is_digit_or_dot (c : ascii) : bool :=
  let n := N_of_ascii c in
  ((n =? 46) || ((48 <=? n) && (n <=? 57)))%N.

Fixpoint all_chars (p : ascii → bool) (s : string) : bool :=
  match s with
  | EmptyString => true
  | String c s' => p c && all_chars p s'
  end.

(** Dotted-decimal text is an IPv4 address, text with a colon an IPv6
    address; anything else does not parse. *)
Definition parse_addr (s : string) : option Addr :=
  if Contains s ":" then Some {| addr_family := Family6; addr_text := s |}
  else if negb (String.eqb s "") && all_chars is_digit_or_dot s
       then Some {| addr_family := Family4; addr_text := s |}
       else None.

#[export] Instance lib : GoLib := {|
  ToLower := lower;
  TrimSpace := trim;
  ParseAddr := parse_addr;
  Fqdn := fqdn;
  IsSubDomain := is_sub_domain;
  CountLabel := count_label;
  TrimZone := trim_zone;
  dnsutil_Join := join_labels;
  ZonesMatches := zones_matches
|}.

(** Load-balancer entries and parent references reduced to what the
    collectors read from them: the addresses. *)
#[export] Instance kube_types : KubeTypes := {|
  IngressLB := Addr;
  ServiceLB := Addr;
  ParentReference := Addr;
  GatewayObject := unit
|}.

#[export] Instance kube_lib : KubeLib := {|
  checkIgnoreLabel := λ labels,
    bool_decide (labels !! "k8s-gateway.dns/ignore" = Some "true");
  fetchIngressLoadBalancerIPs := λ l, l;
  fetchServiceLoadBalancerIPs := λ l, l;
  lookupGateways := λ _ refs _ _, refs;
  hostnameAnnotationKey := "coredns.io/hostname";
  externalDnsHostnameAnnotationKey := "external-dns.alpha.kubernetes.io/hostname"
|}.

Definition ip4 (s : string) : Addr := {| addr_family := Family4; addr_text := s |}.

Definition ip6 (s : string) : Addr := {| addr_family := Family6; addr_text := s |}.

(** The entries of an index under the given keys, in key order; the keys
    are lowercased as the lookup functions of the test suite do. *)
Definition find_all {T} (index : list (string * list T)) (keys : list string)
  : list T :=
  flat_map (λ key, flat_map (λ e, if String.eqb (fst e) (lower key)
                                  then snd e else []) index) keys.

(** A lookup function over three indexes, as the test suite builds them
    ([testDNSEndpointLookup]). *)
Definition index_lookup (addrs : list (string * list Addr))
    (texts cnames : list (string * list string)) : lookupFunc :=
  λ keys, (find_all addrs keys, find_all texts keys, find_all cnames keys).

(** A lookup function over an index of addresses ([testServiceLookup]). *)
Definition addr_lookup (index : list (string * list Addr)) : lookupFunc :=
  index_lookup index [] [].

(** A lookup function over an index of CNAME targets ([loopLookupFunc]). *)
Definition cname_lookup (index : list (string * list string)) : lookupFunc :=
  index_lookup [] [] index.

(** [newGateway()] with the zone [example.com.], a synced controller with
    the given stores, and the given resources, secondary label and serial
    cell. *)
Definition make_gateway (resources : list resourceWithIndex)
    (stores : list Informer) (second : string) (serial : Z) (isDirty : bool)
  : Gateway :=
  {| Zones := ["example.com."];
     Resources := resources;
     ttlLow := 60;
     ttlSOA := 60;
     Controller := {| hasSynced := true; controllers := stores |};
     apex := "dns1.kube-system";
     hostmaster := "hostmaster";
     secondNS := second;
     ExternalAddrFunc := ExternalSelfAddress;
     resourceFilters := {| ingressClasses := []; gatewayClasses := [] |};
     CNAMEMaxDepth := 10;
     Fall := [];
     soaRefresh := 7200;
     soaRetry := 1800;
     soaExpire := 86400;
     lastSerial := serial;
     dirty := isDirty |}.

(** The same with empty stores. *)
Definition gateway (resources : list resourceWithIndex) (second : string)
    (serial : Z) (isDirty : bool) : Gateway :=
  make_gateway resources [] second serial isDirty.

(** The [ttl] option: [gw.ttlLow = ttl]. *)
Definition with_ttlLow (ttl : Z) (gw : Gateway) : Gateway :=
  {| Zones := Zones gw; Resources := Resources gw; ttlLow := ttl;
     ttlSOA := ttlSOA gw; Controller := Controller gw; apex := apex gw;
     hostmaster := hostmaster gw; secondNS := secondNS gw;
     ExternalAddrFunc := ExternalAddrFunc gw;
     resourceFilters := resourceFilters gw;
     CNAMEMaxDepth := CNAMEMaxDepth gw; Fall := Fall gw;
     soaRefresh := soaRefresh gw; soaRetry := soaRetry gw;
     soaExpire := soaExpire gw; lastSerial := lastSerial gw;
     dirty := dirty gw |}.

(** A LoadBalancer service with the given load-balancer addresses. *)
Definition load_balancer (name ns : string) (addrs : list Addr) : Service :=
  {| svc_Labels := ∅; svc_Annotations := ∅; svc_Name := name;
     svc_Namespace := ns; svc_Type := "LoadBalancer";
     svc_ExternalIPs := []; svc_LoadBalancer := addrs |}.

(** *** The fixtures of the test suite *)

(** [setupLookupFuncs] (gateway_test.go): the static resources with the
    test indexes. *)
Definition testRouteLookup : lookupFunc :=
  addr_lookup [("domain.gw.example.com", [ip4 "192.0.2.1"]);
               ("shadow.example.com", [ip4 "192.0.2.4"])].

Definition testIngressLookup : lookupFunc :=
  addr_lookup [("domain.example.com", [ip4 "192.0.0.1"]);
               ("svc2.ns1.example.com", [ip4 "192.0.0.2"]);
               ("example.com", [ip4 "192.0.0.3"]);
               ("shadow.example.com", [ip4 "192.0.0.4"]);
               ("shadow-vs.example.com", [ip4 "192.0.0.5"]);
               ("*.wildcard.example.com", [ip4 "192.0.0.6"]);
               ("specific-subdomain.wildcard.example.com", [ip4 "192.0.0.7"])].

Definition testServiceLookup : lookupFunc :=
  addr_lookup [("svc1.ns1", [ip4 "192.0.1.1"; ip6 "fd12:3456:789a:1::"]);
               ("svc2.ns1", [ip4 "192.0.1.2"]);
               ("svc3.ns1", []);
               ("dns1.kube-system", [ip4 "192.0.1.53"])].

Definition testDNSEndpointLookup : lookupFunc :=
  index_lookup [("domain.endpoint.example.com", [ip4 "192.0.4.1"]);
                ("endpoint.example.com", [ip4 "192.0.4.4"]);
                ("service.example.com", [ip4 "10.0.0.1"])]
               []
               [("cname.example.com", ["target.example.com"]);
                ("alias.example.com", ["service.example.com"]);
                ("www.example.com", ["web.example.com"])].

Definition test_gateway : Gateway :=
  gateway [ {| res_name := "HTTPRoute"; res_lookup := testRouteLookup |};
            {| res_name := "TLSRoute"; res_lookup := testRouteLookup |};
            {| res_name := "GRPCRoute"; res_lookup := testRouteLookup |};
            {| res_name := "Ingress"; res_lookup := testIngressLookup |};
            {| res_name := "Service"; res_lookup := testServiceLookup |};
            {| res_name := "DNSEndpoint"; res_lookup := testDNSEndpointLookup |} ]
    "" 1499347823 false.

(** [setupRealisticCNAMEChain] (gateway_cname_test.go):
    [www -> app -> service -> api], and [api] has the addresses. *)
Definition chain_gateway : Gateway :=
  gateway [ {| res_name := "DNSEndpoint";
               res_lookup := index_lookup
                 [("api.example.com", [ip4 "10.0.1.100"; ip4 "10.0.1.101"])]
                 []
                 [("www.example.com", ["app.example.com"]);
                  ("app.example.com", ["service.example.com"]);
                  ("service.example.com", ["api.example.com"])] |} ]
    "" 1499347823 false.

(** A query and what of its response the test tables compare: the code
    of the message, the answer records as (name, type, TTL, data), and the
    types of the authority and additional records.  [None] when nothing is
    written. *)
Definition query (gw : Gateway) (qname : string) (qtype : Z)
  : option (Z * list (string * Z * Z * RData) * list Z * list Z) :=
  match ServeDNS 1700000000 gw (Some {| q_name := qname; q_type := qtype |}) with
  | Some (Returned _ _ (Some m), _) =>
      Some (Rcode m,
            map (λ rr, (Name (Hdr rr), Rrtype (Hdr rr), Ttl (Hdr rr), Data rr))
              (Answer m),
            map (λ rr, Rrtype (Hdr rr)) (Ns m),
            map (λ rr, Rrtype (Hdr rr)) (Extra m))
  | _ => None
  end.

End Concrete.

Import Concrete.

(** ** Vocabulary of the properties *)

(** The probes of the lookup pipeline in the order it makes them: key
    sets in list order, and for each key set the resource tables in
    configured order. *)
Definition probes (resources : list resourceWithIndex)
    (indexKeySets : list (list string))
  : list (list Addr * list string * list string) :=
  flat_map (λ indexKeys, map (λ r, res_lookup r indexKeys) resources)
    indexKeySets.

(** Go's [<] on strings: byte-wise lexicographic order. *)
Definition str_lt (a b : string) : Prop := String.ltb a b = true.

(** A record group of a zone transfer belongs to an owner name: it is not
    empty and all its records carry that name. *)
Definition group_of (owner : string) (group : list RR) : Prop :=
  group ≠ [] ∧ Forall (λ rr, Name (Hdr rr) = owner) group.

(** The records map of the collectors is owned when every group belongs
    to its key. *)
Definition owned (records : gmap string (list RR)) : Prop :=
  ∀ key rrs, records !! key = Some rrs → group_of key rrs.

(** The dispatcher answers the question [q] from the index: the query name
    lies in the zone [zone] (in the letter case of the query), the indexer
    has synced, the apex check neither delegates the query to
    [serveSubApex] nor fails, it classifies the query as a root-zone query
    or not ([isRoot]), and the lookup pipeline returns the triple [t] for
    the key sets of the query. *)
Definition answers_from_index `{!GoLib} `{!KubeTypes} (now : Z) (gw : Gateway)
    (q : Question) (zone : string) (isRoot : bool)
    (t : list Addr * list string * list string) : Prop :=
  ∃ keySets,
    validateQueryZone gw (q_name q) = Some (zone, true) ∧
    getQueryIndexKeySets (q_name q) zone = Some keySets ∧
    HasSynced gw = true ∧
    (checkApexQuery now gw {| Req := Some q; Zone := zone |}).1 =
      {| isRootZone := isRoot; handled := false; code := 0; written := None |} ∧
    getMatchingAddressesWithCNAME gw keySets = t.

(** The TTL classes of the records of a response.  A record built from
    the index is an A, AAAA, TXT or CNAME record and carries the low
    TTL. *)
Definition index_record `{!KubeTypes} (gw : Gateway) (rr : RR) : Prop :=
  Rrtype (Hdr rr) ∈ [TypeA; TypeAAAA; TypeTXT; TypeCNAME] ∧
  Ttl (Hdr rr) = ttlLow gw.

(** An SOA or NS record carries the SOA TTL. *)
Definition apex_record `{!KubeTypes} (gw : Gateway) (rr : RR) : Prop :=
  Rrtype (Hdr rr) ∈ [TypeSOA; TypeNS] ∧ Ttl (Hdr rr) = ttlSOA gw.

(** A nameserver address record is a record that the external-address
    callback returned ([nsaddrs]), of its type and with its data, and
    carries the SOA TTL. *)
Definition nameserver_address `{!KubeTypes} (gw : Gateway) (nsaddrs : list RR)
    (rr : RR) : Prop :=
  Ttl (Hdr rr) = ttlSOA gw ∧
  ∃ rr0, rr0 ∈ nsaddrs ∧ Data rr = Data rr0 ∧
         Rrtype (Hdr rr) = Rrtype (Hdr rr0).

(** The records of a message, over its three sections. *)
Definition records_of (m : Msg) : list RR := Answer m ++ Ns m ++ Extra m.

(** The records that [serveSubApex] takes for its answer from the
    addresses [addr] of the external-address callback: re-owned to the
    query name, with the SOA TTL, those of the queried type when it is A
    or AAAA. *)
Definition subApex_answer `{!KubeTypes} (gw : Gateway) (state : Request)
    (addr : list RR) : list RR :=
  let external :=
    map (λ rr, set_Name (QName state) (set_Ttl (ttlSOA gw) rr)) addr in
  if QType state =? TypeA
  then List.filter (λ rr, Rrtype (Hdr rr) =? TypeA) external
  else if QType state =? TypeAAAA
       then List.filter (λ rr, Rrtype (Hdr rr) =? TypeAAAA) external
       else [].

(** ** Further functions of the engine *)

Section EngineRest.
Context `{!GoLib} `{!KubeTypes}.

(** [stripDomainCanonical] strips the zone from FQDN and returns a
    hostname; both names are canonicalized first, and the slice is
    guarded. *)
Definition stripDomainCanonical (qname zone : string) : option string :=
  let qname := canonicalizeDNSName qname in
  let zone := canonicalizeDNSName zone in
  if (len zone <=? len qname) && HasSuffix qname zone then
    hostname ← go_slice_to qname (len qname - len zone);
    Some (stripClosingDot hostname)
  else Some (stripClosingDot qname).

(** [getMatchingAddresses]: the pipeline without the CNAME targets. *)
Definition getMatchingAddresses (gw : Gateway)
    (indexKeySets : list (list string)) : list Addr * list string :=
  let '(addrs, raws, _) := getMatchingAddressesWithCNAME gw indexKeySets in
  (addrs, raws).

(** The loop of [lookupResource]; [None] is nil. *)
Fixpoint lookupResource_loop (resources : list resourceWithIndex)
    (resource : string) : option resourceWithIndex :=
  match resources with
  | [] => None
  | r :: rest =>
      if String.eqb (res_name r) resource then Some r
      else lookupResource_loop rest resource
  end.

(** [lookupResource] finds a resource configuration by name in the
    Gateway's resource list. *)
Definition lookupResource (gw : Gateway) (resource : string)
  : option resourceWithIndex :=
  lookupResource_loop (Resources gw) resource.

(** [gw.Resources = resources] *)
Definition set_Resources (resources : list resourceWithIndex) (gw : Gateway)
  : Gateway :=
  {| Zones := Zones gw; Resources := resources; ttlLow := ttlLow gw;
     ttlSOA := ttlSOA gw; Controller := Controller gw; apex := apex gw;
     hostmaster := hostmaster gw; secondNS := secondNS gw;
     ExternalAddrFunc := ExternalAddrFunc gw;
     resourceFilters := resourceFilters gw;
     CNAMEMaxDepth := CNAMEMaxDepth gw; Fall := Fall gw;
     soaRefresh := soaRefresh gw; soaRetry := soaRetry gw;
     soaExpire := soaExpire gw; lastSerial := lastSerial gw;
     dirty := dirty gw |}.

(** The map [resourceLookup] that [updateResources] fills from the static
    resources. *)
Definition resourceLookup (static : list resourceWithIndex)
  : gmap string resourceWithIndex :=
  fold_left (λ lookup resource, <[res_name resource := resource]> lookup)
    static ∅.

(** [updateResources] updates the resources of the Gateway from the
    configured names.  [static] is the package-level [staticResources] as
    it is at the call: its entries are shared objects whose [lookup] the
    controller assigns. *)
Definition updateResources (static : list resourceWithIndex) (gw : Gateway)
    (newResources : list string) : Gateway :=
  let resources :=
    fold_left
      (λ resources name,
         match resourceLookup static !! name with
         | Some resource => resources ++ [resource]
         | None => resources
         end)
      newResources [] in
  set_Resources resources gw.

End EngineRest.

(** [gw.Controller = ctrl] *)
Definition with_Controller (ctrl : KubeController) (gw : Gateway) : Gateway :=
  {| Zones := Zones gw; Resources := Resources gw; ttlLow := ttlLow gw;
     ttlSOA := ttlSOA gw; Controller := ctrl; apex := apex gw;
     hostmaster := hostmaster gw; secondNS := secondNS gw;
     ExternalAddrFunc := ExternalAddrFunc gw;
     resourceFilters := resourceFilters gw;
     CNAMEMaxDepth := CNAMEMaxDepth gw; Fall := Fall gw;
     soaRefresh := soaRefresh gw; soaRetry := soaRetry gw;
     soaExpire := soaExpire gw; lastSerial := lastSerial gw;
     dirty := dirty gw |}.

(** [gw.Fall.SetZonesFromArgs(zones)] *)
Definition with_Fall (zones : list string) (gw : Gateway) : Gateway :=
  {| Zones := Zones gw; Resources := Resources gw; ttlLow := ttlLow gw;
     ttlSOA := ttlSOA gw; Controller := Controller gw; apex := apex gw;
     hostmaster := hostmaster gw; secondNS := secondNS gw;
     ExternalAddrFunc := ExternalAddrFunc gw;
     resourceFilters := resourceFilters gw;
     CNAMEMaxDepth := CNAMEMaxDepth gw; Fall := zones;
     soaRefresh := soaRefresh gw; soaRetry := soaRetry gw;
     soaExpire := soaExpire gw; lastSerial := lastSerial gw;
     dirty := dirty gw |}.

(** A list without the later occurrences of its elements: what a loop
    with a [dup] map keeps. *)
Fixpoint first_seen (l : list string) : list string :=
  match l with
  | [] => []
  | x :: l' => x :: filter (λ y, y ≠ x) (first_seen l')
  end.

(** The value that a record was built from: the string form of the
    address of an A or AAAA record, the text of a TXT record (its
    segments, concatenated). *)
Definition record_value (rr : RR) : string :=
  match Data rr with
  | Data_A a | Data_AAAA a => Addr_String a
  | Data_TXT txt => String.concat "" txt
  | _ => ""
  end.

(** A record as the collectors of the zone transfer build it: class IN,
    the low TTL, and an A record with an IPv4 address, an AAAA record with
    an IPv6 address or a TXT record. *)
Definition transfer_record `{!KubeTypes} (gw : Gateway) (rr : RR) : Prop :=
  Class_ (Hdr rr) = ClassINET ∧ Ttl (Hdr rr) = ttlLow gw ∧
  ((Rrtype (Hdr rr) = TypeA ∧ ∃ a, Data rr = Data_A a ∧ Is4 a = true) ∨
   (Rrtype (Hdr rr) = TypeAAAA ∧ ∃ a, Data rr = Data_AAAA a ∧ Is6 a = true) ∨
   (Rrtype (Hdr rr) = TypeTXT ∧ ∃ txt, Data rr = Data_TXT txt)).

(** A group of records of the zone: the records are owned by the fully
    qualified form of one host name that ends with the zone. *)
Definition zone_group `{!GoLib} `{!KubeTypes} (gw : Gateway) (zone : string)
    (group : list RR) : Prop :=
  ∃ hostname,
    HasSuffix hostname zone = true ∧
    Forall (λ rr, Name (Hdr rr) = Fqdn hostname ∧ transfer_record gw rr) group.

(** The records map of the collectors holds groups of the zone. *)
Definition zone_groups `{!GoLib} `{!KubeTypes} (gw : Gateway) (zone : string)
    (records : gmap string (list RR)) : Prop :=
  ∀ key rrs, records !! key = Some rrs →
    ∃ hostname,
      key = Fqdn hostname ∧ HasSuffix hostname zone = true ∧
      Forall (λ rr, Name (Hdr rr) = key ∧ transfer_record gw rr) rrs.

(** The [apex] option: [gw.apex = label]. *)
Definition with_apex `{!KubeTypes} (label : string) (gw : Gateway) : Gateway :=
  {| Zones := Zones gw; Resources := Resources gw; ttlLow := ttlLow gw;
     ttlSOA := ttlSOA gw; Controller := Controller gw; apex := label;
     hostmaster := hostmaster gw; secondNS := secondNS gw;
     ExternalAddrFunc := ExternalAddrFunc gw;
     resourceFilters := resourceFilters gw;
     CNAMEMaxDepth := CNAMEMaxDepth gw; Fall := Fall gw;
     soaRefresh := soaRefresh gw; soaRetry := soaRetry gw;
     soaExpire := soaExpire gw; lastSerial := lastSerial gw;
     dirty := dirty gw |}.

(** * Properties *)

(** ** Go strings *)

Lemma len_nonneg s : 0 <= len s.
Proof. unfold len. lia. Qed.

Lemma str_app_cons c s t : String c s +:+ t = String c (s +:+ t).
Proof. reflexivity. Qed.

Lemma str_app_nil_r s : s +:+ EmptyString = s.
Proof. induction s as [|c s IH]; [done|]. by rewrite str_app_cons, IH. Qed.

Lemma str_take_drop n s : str_take n s +:+ str_drop n s = s.
Proof.
  revert s. induction n as [|n IH]; intros [|c s]; simpl; try done.
  by rewrite str_app_cons, IH.
Qed.

Lemma length_str_take n s :
  String.length (str_take n s) = Nat.min n (String.length s).
Proof.
  revert s. induction n as [|n IH]; intros [|c s]; simpl; try done.
  by rewrite IH.
Qed.

Lemma length_str_drop n s :
  String.length (str_drop n s) = (String.length s - n)%nat.
Proof. revert s. induction n as [|n IH]; intros [|c s]; simpl; done. Qed.

Lemma str_drop_drop n m s : str_drop n (str_drop m s) = str_drop (m + n) s.
Proof.
  revert s. induction m as [|m IH]; intros [|c s]; simpl; try done.
  by destruct n.
Qed.

Lemma str_take_0 s : str_take 0 s = EmptyString.
Proof. by destruct s. Qed.

Lemma go_slice_Some s lo hi :
  0 <= lo → lo <= hi → hi <= len s →
  go_slice s lo hi =
    Some (str_take (Z.to_nat (hi - lo)) (str_drop (Z.to_nat lo) s)).
Proof.
  intros H1 H2 H3. unfold go_slice.
  by rewrite (proj2 (Z.leb_le _ _) H1), (proj2 (Z.leb_le _ _) H2),
    (proj2 (Z.leb_le _ _) H3).
Qed.

Lemma go_slice_None s lo hi :
  lo < 0 ∨ hi < lo ∨ len s < hi → go_slice s lo hi = None.
Proof.
  intros H. unfold go_slice.
  destruct (Z.leb_spec 0 lo), (Z.leb_spec lo hi), (Z.leb_spec hi (len s));
    simpl; try done; lia.
Qed.

(** ** split255 *)

(** The loop never runs out of fuel and never slices out of range: with
    [p] inside the string and more fuel than remaining full segments, it
    returns. *)
Lemma split255_loop_total fuel s p sx :
  0 <= p <= len s → len s - p < 255 * Z.of_nat fuel →
  is_Some (split255_loop fuel s p (p + 255) sx).
Proof.
  revert p sx. induction fuel as [|fuel IH]; intros p sx Hp Hfuel; [lia|].
  simpl. destruct (Z.ltb_spec (len s) (p + 255)) as [Hlt|Hge].
  - unfold go_slice_from. rewrite go_slice_Some by lia. by eexists.
  - rewrite go_slice_Some by lia. simpl. apply IH; lia.
Qed.

Lemma split255_total s : is_Some (split255 s).
Proof.
  unfold split255. destruct (len s <? 255); [by eexists|].
  apply (split255_loop_total (S (String.length s)) s 0 []).
  - pose proof (len_nonneg s). lia.
  - unfold len. lia.
Qed.

Lemma str_drop_all n s : (String.length s <= n)%nat → str_drop n s = EmptyString.
Proof.
  revert s. induction n as [|n IH]; intros [|c s]; simpl; try done; try lia.
  intros ?. apply IH. lia.
Qed.

(** The loop on a string whose remaining part is [j] full segments: it
    appends these [j] segments and then the empty remainder. *)
Lemma split255_loop_multiple j : ∀ fuel s p sx,
  0 <= p → len s = p + 255 * Z.of_nat j → (j < fuel)%nat →
  ∃ segs,
    split255_loop fuel s p (p + 255) sx = Some (sx ++ segs ++ [EmptyString]) ∧
    length segs = j ∧
    Forall (λ seg, String.length seg = 255%nat) segs ∧
    String.concat "" segs = str_drop (Z.to_nat p) s.
Proof.
  induction j as [|j IH]; intros fuel s p sx Hp Hlen Hfuel.
  - destruct fuel as [|fuel]; [lia|]. exists []. simpl.
    destruct (Z.ltb_spec (len s) (p + 255)); [|lia].
    unfold go_slice_from. rewrite go_slice_Some by lia.
    replace (len s - p) with 0 by lia. simpl.
    split_and!; try done.
    symmetry. apply str_drop_all. unfold len in Hlen. lia.
  - destruct fuel as [|fuel]; [lia|]. simpl.
    destruct (Z.ltb_spec (len s) (p + 255)); [lia|].
    rewrite go_slice_Some by lia. simpl.
    destruct (IH fuel s (p + 255)
                (sx ++ [str_take (Z.to_nat (p + 255 - p)) (str_drop (Z.to_nat p) s)]))
      as (segs & Hrun & Hn & Hall & Hcat); [lia..|].
    exists (str_take (Z.to_nat (p + 255 - p)) (str_drop (Z.to_nat p) s) :: segs).
    split_and!.
    + rewrite Hrun. by rewrite <- (assoc_L (++)).
    + simpl. by rewrite Hn.
    + constructor; [|done]. rewrite length_str_take, length_str_drop.
      unfold len in Hlen. lia.
    + replace (p + 255 - p) with 255 by lia.
      assert (String.concat "" (str_take (Z.to_nat 255) (str_drop (Z.to_nat p) s) :: segs)
              = str_take (Z.to_nat 255) (str_drop (Z.to_nat p) s) +:+ String.concat "" segs)
        as ->.
      { destruct segs; simpl; [by rewrite str_app_nil_r|done]. }
      rewrite Hcat. replace (Z.to_nat (p + 255)) with (Z.to_nat p + Z.to_nat 255)%nat by lia.
      rewrite <- str_drop_drop. apply str_take_drop.
Qed.

Lemma concat_snoc_empty segs :
  String.concat "" (segs ++ [EmptyString]) = String.concat "" segs.
Proof.
  induction segs as [|seg segs IH]; [done|].
  destruct segs as [|seg' segs]; simpl in *.
  - by rewrite str_app_nil_r.
  - by rewrite IH.
Qed.

(** C10. For every string [s] whose length is at least 255 and a multiple
    of 255, [split255 s] returns [len(s)/255] segments of 255 bytes
    followed by one empty segment, and the segments concatenated are
    [s]. *)
Theorem split255_multiple_of_255 s :
  255 <= len s → len s mod 255 = 0 →
  ∃ segs,
    split255 s = Some (segs ++ [EmptyString]) ∧
    Z.of_nat (length segs) = len s / 255 ∧
    Forall (λ seg, String.length seg = 255%nat) segs ∧
    String.concat "" (segs ++ [EmptyString]) = s.
Proof.
  intros Hlen Hmod. unfold split255.
  destruct (Z.ltb_spec (len s) 255); [lia|].
  pose proof (Z.div_mod (len s) 255 ltac:(lia)) as Hdiv.
  destruct (split255_loop_multiple (Z.to_nat (len s / 255))
              (S (String.length s)) s 0 [])
    as (segs & Hrun & Hn & Hall & Hcat).
  - lia.
  - rewrite Z2Nat.id; [lia|]. apply Z.div_pos; lia.
  - unfold len in *. apply Nat2Z.inj_lt. rewrite Z2Nat.id by (apply Z.div_pos; lia).
    assert (Z.of_nat (String.length s) / 255 <= Z.of_nat (String.length s)); [|lia].
    apply Z.div_le_upper_bound; lia.
  - exists segs. split_and!; try done.
    + rewrite Hn, Z2Nat.id; [done|]. apply Z.div_pos; lia.
    + by rewrite concat_snoc_empty, Hcat.
Qed.

Lemma split255_multiple_of_255_witness :
  ∃ segs,
    split255 (String.concat "" (replicate 255 "a")) = Some (segs ++ [EmptyString]) ∧
    Z.of_nat (length segs) = len (String.concat "" (replicate 255 "a")) / 255 ∧
    Forall (λ seg, String.length seg = 255%nat) segs ∧
    String.concat "" (segs ++ [EmptyString]) = String.concat "" (replicate 255 "a").
Proof.
  apply (split255_multiple_of_255 (String.concat "" (replicate 255 "a")));
    vm_compute; [discriminate|reflexivity].
Defined.

(** ** SOA serial accounting *)

Section Serial.
Context `{!GoLib} `{!KubeTypes}.

Lemma calculateSerial_clean now gw :
  dirty gw = false → calculateSerial now gw = (lastSerial gw, gw).
Proof. intros Hd. unfold calculateSerial. by rewrite Hd. Qed.

Lemma calculateSerial_result now gw :
  dirty (calculateSerial now gw).2 = false ∧
  lastSerial (calculateSerial now gw).2 = (calculateSerial now gw).1.
Proof. unfold calculateSerial. by destruct (dirty gw) eqn:Hd. Qed.

Lemma calculateSerial_dirty now gw :
  dirty gw = true →
  (calculateSerial now gw).1 =
    if uint32 now <=? lastSerial gw then uint32 (lastSerial gw + 1)
    else uint32 now.
Proof. intros Hd. unfold calculateSerial. rewrite Hd. simpl. by destruct (_ <=? _). Qed.

Lemma soa_serial now gw state :
  RR_Serial (soa now gw state).1 = (calculateSerial now gw).1 ∧
  (soa now gw state).2 = (calculateSerial now gw).2.
Proof. unfold soa. by destruct (calculateSerial now gw). Qed.

(** Two successive SOA reads with no dirty signal in between carry the
    same serial, whatever the clock and the state of the cell. *)
Lemma soa_twice_same_serial now1 now2 gw state1 state2 :
  RR_Serial (soa now2 (soa now1 gw state1).2 state2).1 =
  RR_Serial (soa now1 gw state1).1.
Proof.
  destruct (soa_serial now1 gw state1) as [-> ->].
  destruct (soa_serial now2 (calculateSerial now1 gw).2 state2) as [-> _].
  destruct (calculateSerial_result now1 gw) as [Hd <-].
  by rewrite calculateSerial_clean.
Qed.

(** C1, as amended.  Two [soa] calls with no [markDirty] in between
    return the same serial.  After [markDirty], the next [soa] call
    returns [max(now, lastSerial + 1)], which is strictly greater than the
    previous serial, provided the previous serial is below the largest
    32-bit value and the clock reads a 32-bit time. *)
Theorem soa_serial_monotone now1 now2 now3 gw state1 state2 state3 :
  let first := soa now1 gw state1 in
  let second := soa now2 first.2 state2 in
  let third := soa now3 (markDirty second.2) state3 in
  0 <= RR_Serial second.1 < 2 ^ 32 - 1 →
  0 <= now3 < 2 ^ 32 →
  RR_Serial second.1 = RR_Serial first.1 ∧
  RR_Serial third.1 = Z.max now3 (RR_Serial second.1 + 1) ∧
  RR_Serial second.1 < RR_Serial third.1.
Proof.
  intros first second third Hprev Hnow.
  assert (RR_Serial second.1 = RR_Serial first.1) as Hsame
    by apply soa_twice_same_serial.
  split; [done|].
  destruct (soa_serial now2 first.2 state2) as [Hs2 Hg2].
  fold second in Hs2, Hg2.
  destruct (calculateSerial_result now2 first.2) as [_ Hlast].
  rewrite <- Hg2, <- Hs2 in Hlast.
  destruct (soa_serial now3 (markDirty second.2) state3) as [Hs3 _].
  fold third in Hs3. rewrite Hs3.
  rewrite calculateSerial_dirty by done.
  change (lastSerial (markDirty second.2)) with (lastSerial second.2).
  rewrite Hlast. unfold uint32.
  rewrite (Z.mod_small now3) by lia.
  rewrite (Z.mod_small (RR_Serial second.1 + 1)) by lia.
  destruct (Z.leb_spec now3 (RR_Serial second.1)); lia.
Qed.

End Serial.

Lemma soa_serial_monotone_witness :
  let gw := Concrete.gateway [] "" 100 true in
  let state := {| Req := None; Zone := "example.com." |} in
  let first := soa 1700000000 gw state in
  let second := soa 1700000005 first.2 state in
  let third := soa 1700000005 (markDirty second.2) state in
  RR_Serial second.1 = RR_Serial first.1 ∧
  RR_Serial third.1 = Z.max 1700000005 (RR_Serial second.1 + 1) ∧
  RR_Serial second.1 < RR_Serial third.1.
Proof.
  intros gw state.
  apply (soa_serial_monotone 1700000000 1700000005 1700000005 gw state state state);
    vm_compute; split; congruence.
Defined.

(** C1 as stated fails where the 32-bit serial wraps: with the previous
    serial at [2^32 - 1], the serial after [markDirty] is [0], which is
    neither [max(now, lastSerial + 1)] nor greater than the previous
    one. *)
Lemma soa_serial_wraps :
  let gw := Concrete.gateway [] "" 4294967295 false in
  let state := {| Req := None; Zone := "example.com." |} in
  let previous := soa 1700000000 gw state in
  let next := soa 1700000001 (markDirty previous.2) state in
  RR_Serial previous.1 = 4294967295 ∧
  RR_Serial next.1 = 0 ∧
  ¬ (RR_Serial next.1 = Z.max 1700000001 (RR_Serial previous.1 + 1) ∧
     RR_Serial previous.1 < RR_Serial next.1).
Proof.
  vm_compute. split; [done|]. split; [done|]. intros [? ?]. done.
Qed.

(** ** The index lookup pipeline *)

Section Pipeline.
Context `{!GoLib} `{!KubeTypes}.

Lemma lookup_resources_find resources indexKeys :
  lookup_resources resources indexKeys =
  List.find has_match (map (λ r, res_lookup r indexKeys) resources).
Proof.
  induction resources as [|r rs IH]; simpl; [done|].
  by destruct (has_match (res_lookup r indexKeys)).
Qed.

Lemma find_app {T} (p : T → bool) l1 l2 :
  List.find p (l1 ++ l2) =
  match List.find p l1 with Some x => Some x | None => List.find p l2 end.
Proof. induction l1 as [|x l1 IH]; simpl; [done|]. by destruct (p x). Qed.

Lemma lookup_keysets_find resources indexKeySets :
  lookup_keysets resources indexKeySets =
  default ([], [], []) (List.find has_match (probes resources indexKeySets)).
Proof.
  induction indexKeySets as [|ks kss IH]; simpl; [done|].
  unfold probes in *. simpl. rewrite find_app, <- lookup_resources_find.
  by destruct (lookup_resources resources ks).
Qed.

(** The first table with a match for a key set answers for it. *)
Lemma lookup_resources_first resources indexKeys r :
  r ∈ resources → has_match (res_lookup r indexKeys) = true →
  ∃ pre r' post,
    resources = pre ++ r' :: post ∧
    Forall (λ r0, has_match (res_lookup r0 indexKeys) = false) pre ∧
    has_match (res_lookup r' indexKeys) = true ∧
    lookup_resources resources indexKeys = Some (res_lookup r' indexKeys).
Proof.
  induction resources as [|r0 rs IH]; intros Hin Hm; [by apply elem_of_nil in Hin|].
  simpl. destruct (has_match (res_lookup r0 indexKeys)) eqn:Hr0.
  - exists [], r0, rs. by split_and!.
  - apply elem_of_cons in Hin as [->|Hin]; [congruence|].
    destruct (IH Hin Hm) as (pre & r' & post & -> & Hpre & Hr' & Hres).
    exists (r0 :: pre), r', post. split_and!; try done. by constructor.
Qed.

Lemma Split_nonempty s sep : Split s sep ≠ [].
Proof.
  induction s as [|c s IH]; simpl; [done|].
  case_bool_decide; [done|]. by destruct (Split s sep).
Qed.

(** The wildcard query name is never empty: the key-set list always has
    the wildcard key set after the specific one. *)
Lemma toWildcardQName_nonempty qName zone w :
  toWildcardQName qName zone = Some w → String.eqb w "" = false.
Proof.
  unfold toWildcardQName. destruct (stripDomain qName zone) as [z|]; [|done].
  simpl. destruct (Split z ".") as [|p ps] eqn:Hsplit.
  { by apply Split_nonempty in Hsplit. }
  intros [= <-]. unfold Join. simpl.
  by destruct (ps ++ [zone])%list.
Qed.

(** C2. The pipeline probes the specific key set against every resource
    table in configured order before it probes the wildcard key set
    against any table, and returns the first triple with a non-empty
    component (the empty triple when no probe matches).  Hence, when some
    table matches the specific keys, the answer is that of the first such
    table for the specific keys, whatever the tables hold for the wildcard
    keys. *)
Theorem pipeline_specific_before_wildcard gw qName zone keySets :
  getQueryIndexKeySets qName zone = Some keySets →
  ∃ specific wildcardQName wildcard,
    getQueryIndexKeys qName zone = Some specific ∧
    toWildcardQName qName zone = Some wildcardQName ∧
    getQueryIndexKeys wildcardQName zone = Some wildcard ∧
    keySets = [specific; wildcard] ∧
    probes (Resources gw) keySets =
      map (λ r, res_lookup r specific) (Resources gw) ++
      map (λ r, res_lookup r wildcard) (Resources gw) ∧
    getMatchingAddressesWithCNAME gw keySets =
      default ([], [], []) (List.find has_match (probes (Resources gw) keySets)) ∧
    (∀ r, r ∈ Resources gw → has_match (res_lookup r specific) = true →
       ∃ pre r' post,
         Resources gw = pre ++ r' :: post ∧
         Forall (λ r0, has_match (res_lookup r0 specific) = false) pre ∧
         has_match (res_lookup r' specific) = true ∧
         getMatchingAddressesWithCNAME gw keySets = res_lookup r' specific).
Proof.
  unfold getQueryIndexKeySets. intros Hsets.
  destruct (getQueryIndexKeys qName zone) as [specific|] eqn:Hspec; [|done].
  destruct (toWildcardQName qName zone) as [w|] eqn:Hw; [|done].
  simpl in Hsets. rewrite (toWildcardQName_nonempty _ _ _ Hw) in Hsets.
  destruct (getQueryIndexKeys w zone) as [wildcard|] eqn:Hwild; [|done].
  simpl in Hsets. injection Hsets as <-.
  exists specific, w, wildcard. split_and!; try done.
  - unfold probes. simpl. by rewrite app_nil_r.
  - apply lookup_keysets_find.
  - intros r Hin Hm.
    destruct (lookup_resources_first _ _ _ Hin Hm)
      as (pre & r' & post & Heq & Hpre & Hr' & Hres).
    exists pre, r', post. split_and!; try done.
    unfold getMatchingAddressesWithCNAME. simpl. by rewrite Hres.
Qed.

End Pipeline.

(** Tests 18 and 19 of the suite, with the wildcard record in the table
    of higher priority: the exact record of the second table answers. *)
Lemma pipeline_specific_before_wildcard_witness :
  let wild := {| res_name := "Ingress";
                 res_lookup := addr_lookup
                   [("*.wildcard.example.com", [ip4 "192.0.0.6"])] |} in
  let exact := {| res_name := "Service";
                  res_lookup := addr_lookup
                    [("sub.wildcard", [ip4 "192.0.0.7"])] |} in
  let gw := gateway [wild; exact] "" 100 false in
  let keySets := [["sub.wildcard.example.com"; "sub.wildcard"];
                  ["*.wildcard.example.com"; "*.wildcard"]] in
  getQueryIndexKeySets "sub.wildcard.example.com." "example.com." = Some keySets ∧
  probes (Resources gw) keySets =
    [([], [], []); ([ip4 "192.0.0.7"], [], []);
     ([ip4 "192.0.0.6"], [], []); ([], [], [])] ∧
  getMatchingAddressesWithCNAME gw keySets = ([ip4 "192.0.0.7"], [], []).
Proof.
  intros wild exact gw keySets.
  destruct (pipeline_specific_before_wildcard gw "sub.wildcard.example.com."
              "example.com." keySets)
    as (specific & w & wildcard & _ & _ & _ & _ & _ & Hfind & _); [reflexivity|].
  split; [reflexivity|]. split; [reflexivity|]. rewrite Hfind. reflexivity.
Defined.

(** ** CNAME chain resolution *)

(** Marking a name that was not visited and deleting it again gives the
    set back. *)
Lemma gset_unmark (x : string) (X : gset string) :
  x ∉ X → ({[x]} ∪ X) ∖ {[x]} = X.
Proof.
  intros Hx. apply set_eq. intros y.
  rewrite elem_of_difference, elem_of_union, elem_of_singleton.
  split.
  - by intros [[->|Hy] Hne].
  - intros Hy. split; [by right|]. by intros ->.
Qed.

Section Resolver.
Context `{!GoLib} `{!KubeTypes}.

(** The equation of the source: below the depth check, the body with the
    recursive call at [maxDepth - 1]. *)
Lemma resolveCNAMEChainWithVisited_unfold gw cname zone maxDepth visited :
  resolveCNAMEChainWithVisited gw cname zone maxDepth visited =
  if maxDepth <=? 0 then Some (Failed (ErrDepthLimit cname), visited)
  else resolve_body gw
         (λ next zone' visited',
            resolveCNAMEChainWithVisited gw next zone' (maxDepth - 1) visited')
         cname zone visited.
Proof.
  unfold resolveCNAMEChainWithVisited.
  destruct (Z.leb_spec maxDepth 0) as [Hle|Hgt].
  - by replace (Z.to_nat maxDepth) with O by lia.
  - by replace (Z.to_nat maxDepth) with (S (Z.to_nat (maxDepth - 1))) by lia.
Qed.

(** The ghost trace does not change what the resolver computes. *)
Lemma resolve_traced_erase gw depth : ∀ cname zone visited,
  (resolve_traced gw depth cname zone visited).2 =
  resolve_depth gw depth cname zone visited.
Proof.
  induction depth as [|depth IH]; intros cname zone visited; simpl; [done|].
  unfold resolve_body. case_decide; [done|].
  destruct (getQueryIndexKeySets _ _) as [ks|]; simpl; [|done].
  destruct (getMatchingAddressesWithCNAME gw ks) as [[addrs raws] nextCnames].
  destruct (nonempty addrs); [done|].
  destruct nextCnames as [|next rest].
  - by destruct (negb _).
  - rewrite <- IH. by destruct (resolve_traced gw depth _ _ _).
Qed.

(** Along one resolution the names marked visited are pairwise distinct,
    none of them was visited before, and there are at most [depth] of
    them. *)
Lemma resolve_traced_trace gw depth : ∀ cname zone visited,
  let trace := (resolve_traced gw depth cname zone visited).1 in
  NoDup trace ∧ (∀ x, x ∈ trace → x ∉ visited) ∧ (length trace ≤ depth)%nat.
Proof.
  induction depth as [|depth IH]; intros cname zone visited; simpl.
  { split_and!; [constructor|by intros x ?%elem_of_nil|done]. }
  assert (∀ c : string, c ∉ visited →
            NoDup [c] ∧ (∀ x, x ∈ [c] → x ∉ visited) ∧ (length [c] ≤ S depth)%nat)
    as Hone.
  { intros c Hc. split_and!; [apply NoDup_singleton| |simpl; lia].
    by intros x ->%list_elem_of_singleton. }
  case_decide as Hvis; simpl.
  { split_and!; [constructor|by intros x ?%elem_of_nil|lia]. }
  destruct (getQueryIndexKeySets _ _) as [ks|]; simpl; [|by apply Hone].
  destruct (getMatchingAddressesWithCNAME gw ks) as [[addrs raws] nextCnames].
  destruct (nonempty addrs); [by apply Hone|].
  destruct nextCnames as [|next rest].
  { destruct (negb _); by apply Hone. }
  specialize (IH next (canonicalizeDNSName zone)
                ({[canonicalizeDNSName cname]} ∪ visited)).
  destruct (resolve_traced gw depth _ _ _) as [trace out]. simpl in *.
  destruct IH as (Hnd & Hfresh & Hlen). split_and!.
  - constructor; [|done]. intros Hin. apply Hfresh in Hin. apply Hin.
    apply elem_of_union_l. by apply elem_of_singleton.
  - intros x [->|Hin]%elem_of_cons; [done|]. apply Hfresh in Hin.
    intros Hx. apply Hin. by apply elem_of_union_r.
  - lia.
Qed.

(** On return the visited map is what it was at the call: each call
    removes the name it has marked (the deferred [delete]). *)
Lemma resolve_depth_restores_visited gw depth : ∀ cname zone visited r visited',
  resolve_depth gw depth cname zone visited = Some (r, visited') →
  visited' = visited.
Proof.
  induction depth as [|depth IH]; intros cname zone visited r visited'; simpl.
  { by intros [= _ ->]. }
  unfold resolve_body. case_decide as Hvis; [by intros [= _ ->]|].
  pose proof (gset_unmark _ _ Hvis) as Hrestore.
  destruct (getQueryIndexKeySets _ _) as [ks|]; simpl; [|done].
  destruct (getMatchingAddressesWithCNAME gw ks) as [[addrs raws] nextCnames].
  destruct (nonempty addrs); [by intros [= _ <-]|].
  destruct nextCnames as [|next rest].
  { by destruct (negb _); intros [= _ <-]. }
  destruct (resolve_depth gw depth next _ _) as [[r1 v1]|] eqn:Hrec; [|done].
  simpl. intros [= _ <-]. apply IH in Hrec. by rewrite Hrec.
Qed.

(** A call on a name already visited in the chain fails with the loop
    error and marks nothing: it makes no recursive call. *)
Lemma resolve_traced_revisit gw depth cname zone visited :
  canonicalizeDNSName cname ∈ visited →
  resolve_traced gw (S depth) cname zone visited =
  ([], Some (Failed (ErrLoop (canonicalizeDNSName cname)), visited)).
Proof. intros Hin. simpl. by rewrite decide_True. Qed.

(** C3. For every target name, zone and non-negative depth bound the
    resolution terminates: the resolver is a total function that fails
    with the depth error at depth 0 and otherwise runs its body with the
    recursive call at [maxDepth - 1]; along the chain of calls at most
    [maxDepth] names are marked visited, each canonical name at most once
    and none that was visited before, and a call on a visited name fails
    with the loop error instead of recursing. *)
Theorem cname_chain_terminates gw cname zone maxDepth visited :
  0 <= maxDepth →
  let traced := resolve_traced gw (Z.to_nat maxDepth) cname zone visited in
  traced.2 = resolveCNAMEChainWithVisited gw cname zone maxDepth visited ∧
  (maxDepth = 0 →
   resolveCNAMEChainWithVisited gw cname zone maxDepth visited =
     Some (Failed (ErrDepthLimit cname), visited)) ∧
  (0 < maxDepth →
   resolveCNAMEChainWithVisited gw cname zone maxDepth visited =
     resolve_body gw
       (λ next zone' visited',
          resolveCNAMEChainWithVisited gw next zone' (maxDepth - 1) visited')
       cname zone visited) ∧
  Z.of_nat (length traced.1) <= maxDepth ∧
  NoDup traced.1 ∧
  (∀ x, x ∈ traced.1 → x ∉ visited) ∧
  (0 < maxDepth → canonicalizeDNSName cname ∈ visited →
   traced = ([], Some (Failed (ErrLoop (canonicalizeDNSName cname)), visited))).
Proof.
  intros Hdepth traced.
  destruct (resolve_traced_trace gw (Z.to_nat maxDepth) cname zone visited)
    as (Hnd & Hfresh & Hlen).
  split_and!; try done.
  - apply resolve_traced_erase.
  - intros ->. by rewrite resolveCNAMEChainWithVisited_unfold.
  - intros Hpos. rewrite resolveCNAMEChainWithVisited_unfold.
    by destruct (Z.leb_spec maxDepth 0); [lia|].
  - fold traced in Hlen. lia.
  - intros Hpos Hin. unfold traced.
    replace (Z.to_nat maxDepth) with (S (Z.to_nat (maxDepth - 1))) by lia.
    by apply resolve_traced_revisit.
Qed.

End Resolver.

(** The loop of the test suite ([setupCNAMELoop]): [loop1 -> loop2 ->
    loop1]. *)
Lemma cname_chain_terminates_witness :
  let gw := gateway [ {| res_name := "DNSEndpoint";
                         res_lookup := cname_lookup
                           [("loop1.example.com", ["loop2.example.com"]);
                            ("loop2.example.com", ["loop1.example.com"])] |} ]
              "" 100 false in
  let traced := resolve_traced gw 3 "loop2.example.com" "example.com." ∅ in
  traced = (["loop2.example.com."; "loop1.example.com."],
            Some (Failed (ErrLoop "loop2.example.com."), ∅)) ∧
  NoDup traced.1 ∧
  resolveCNAMEChainWithVisited gw "loop2.example.com" "example.com." 3 ∅ =
    traced.2.
Proof.
  intros gw traced.
  destruct (cname_chain_terminates gw "loop2.example.com" "example.com." 3 ∅)
    as (Herase & _ & _ & _ & Hnd & _); [done|].
  split_and!; [by vm_compute|exact Hnd|by rewrite <- Herase].
Defined.

(** ** Record constructors *)

Section Constructors.
Context `{!KubeTypes}.

(** What holds of every record that [A] can build holds of all the
    records it returns; the same for [AAAA] and [TXT], which always
    returns. *)
Lemma A_loop_Forall gw name (P : RR → Prop) :
  (∀ a, P {| Hdr := {| Name := name; Rrtype := TypeA;
                       Class_ := ClassINET; Ttl := ttlLow gw |};
             Data := Data_A a |}) →
  ∀ results dup records,
    Forall P records → Forall P (A_loop gw name results dup records).
Proof.
  intros HP results.
  induction results as [|r rs IH]; intros dup records Hrec; simpl; [done|].
  case_decide; [by apply IH|]. apply IH. apply Forall_app. split; [done|].
  by repeat constructor.
Qed.

Lemma A_Forall gw name (P : RR → Prop) results :
  (∀ a, P {| Hdr := {| Name := name; Rrtype := TypeA;
                       Class_ := ClassINET; Ttl := ttlLow gw |};
             Data := Data_A a |}) →
  Forall P (A gw name results).
Proof. intros HP. by apply A_loop_Forall. Qed.

Lemma AAAA_loop_Forall gw name (P : RR → Prop) :
  (∀ a, P {| Hdr := {| Name := name; Rrtype := TypeAAAA;
                       Class_ := ClassINET; Ttl := ttlLow gw |};
             Data := Data_AAAA a |}) →
  ∀ results dup records,
    Forall P records → Forall P (AAAA_loop gw name results dup records).
Proof.
  intros HP results.
  induction results as [|r rs IH]; intros dup records Hrec; simpl; [done|].
  case_decide; [by apply IH|]. apply IH. apply Forall_app. split; [done|].
  by repeat constructor.
Qed.

Lemma AAAA_Forall gw name (P : RR → Prop) results :
  (∀ a, P {| Hdr := {| Name := name; Rrtype := TypeAAAA;
                       Class_ := ClassINET; Ttl := ttlLow gw |};
             Data := Data_AAAA a |}) →
  Forall P (AAAA gw name results).
Proof. intros HP. by apply AAAA_loop_Forall. Qed.

Lemma TXT_loop_Forall gw name (P : RR → Prop) :
  (∀ txt, P {| Hdr := {| Name := name; Rrtype := TypeTXT;
                         Class_ := ClassINET; Ttl := ttlLow gw |};
               Data := Data_TXT txt |}) →
  ∀ results dup records,
    Forall P records →
    ∃ out, TXT_loop gw name results dup records = Some out ∧ Forall P out.
Proof.
  intros HP results.
  induction results as [|r rs IH]; intros dup records Hrec; simpl; [by eexists|].
  case_decide; [by apply IH|].
  destruct (split255_total r) as [txt ->]. simpl.
  apply IH. apply Forall_app. split; [done|]. by repeat constructor.
Qed.

Lemma TXT_Forall gw name (P : RR → Prop) results :
  (∀ txt, P {| Hdr := {| Name := name; Rrtype := TypeTXT;
                         Class_ := ClassINET; Ttl := ttlLow gw |};
               Data := Data_TXT txt |}) →
  ∃ out, TXT gw name results = Some out ∧ Forall P out.
Proof. intros HP. by apply TXT_loop_Forall. Qed.

End Constructors.

(** ** Zone transfer *)

Section Transfer.
Context `{!GoLib} `{!KubeTypes} `{!KubeLib}.

Lemma A_names gw name results :
  Forall (λ rr, Name (Hdr rr) = name) (A gw name results).
Proof. by apply A_Forall. Qed.

Lemma AAAA_names gw name results :
  Forall (λ rr, Name (Hdr rr) = name) (AAAA gw name results).
Proof. by apply AAAA_Forall. Qed.

Lemma TXT_names gw name results :
  ∃ out, TXT gw name results = Some out ∧
         Forall (λ rr, Name (Hdr rr) = name) out.
Proof. by apply TXT_Forall. Qed.

Lemma addRecords_owned records key rrs :
  owned records → Forall (λ rr, Name (Hdr rr) = key) rrs →
  owned (addRecords records key rrs).
Proof.
  intros Hown Hrrs. unfold addRecords.
  destruct rrs as [|rr rrs]; simpl; [done|].
  intros k l. rewrite lookup_insert. case_decide as Hk.
  - subst k. intros [= <-]. split.
    + by destruct (default [] (records !! key)).
    + apply Forall_app. split; [|done].
      destruct (records !! key) as [old|] eqn:Hold; simpl; [|done].
      by apply (Hown _ _ Hold).
  - apply Hown.
Qed.

Lemma addHostRecords_owned gw records fqdn addrs :
  owned records → owned (addHostRecords gw records fqdn addrs).
Proof.
  intros Hown. unfold addHostRecords.
  apply addRecords_owned; [apply addRecords_owned; [done|]|].
  - apply A_names.
  - apply AAAA_names.
Qed.

Lemma fold_left_inv {S T} (P : S → Prop) (f : S → T → S) l s :
  (∀ s x, P s → P (f s x)) → P s → P (fold_left f l s).
Proof.
  intros Hf. revert s. induction l as [|x l IH]; intros s Hs; simpl; [done|].
  apply IH. by apply Hf.
Qed.

Lemma foldlM_inv {S T} (P : S → Prop) (f : S → T → option S) l s :
  (∀ s x, P s → ∃ s', f s x = Some s' ∧ P s') → P s →
  ∃ s', foldlM f l s = Some s' ∧ P s'.
Proof.
  intros Hf. revert s. induction l as [|x l IH]; intros s Hs; simpl; [by eexists|].
  destruct (Hf s x Hs) as (s' & -> & Hs'). simpl. by apply IH.
Qed.

Lemma transferIngresses_owned gw records zone :
  owned records → owned (transferIngresses gw records zone).
Proof.
  intros Hown. unfold transferIngresses.
  apply fold_left_inv; [|done]. intros s ctrl Hs.
  apply fold_left_inv; [|done]. clear. intros s item Hs.
  unfold transferIngresses_item. destruct item; try done.
  repeat (case_match; try done);
    (apply fold_left_inv; [|done]; clear; intros s host Hs;
     repeat (case_match; try done); by apply addHostRecords_owned).
Qed.

Lemma transferServices_owned gw records zone :
  owned records → owned (transferServices gw records zone).
Proof.
  intros Hown. unfold transferServices.
  apply fold_left_inv; [|done]. intros s ctrl Hs.
  apply fold_left_inv; [|done]. clear. intros s item Hs.
  unfold transferServices_item. destruct item; try done.
  repeat (case_match; try done);
    (apply fold_left_inv; [|done]; clear; intros s host Hs;
     repeat (case_match; try done); by apply addHostRecords_owned).
Qed.

Lemma transferRoutes_owned select gw records zone :
  owned records → owned (transferRoutes select gw records zone).
Proof.
  intros Hown. unfold transferRoutes. case_match; [|done].
  apply fold_left_inv; [|done]. intros s ctrl Hs.
  apply fold_left_inv; [|done]. clear. intros s item Hs.
  case_match; [|done]. unfold transferRouteResources.
  repeat (case_match; try done);
    (apply fold_left_inv; [|done]; clear; intros s host Hs;
     repeat (case_match; try done); by apply addHostRecords_owned).
Qed.

Lemma transferDNSEndpoints_owned gw records zone :
  owned records →
  ∃ records', transferDNSEndpoints gw records zone = Some records' ∧
              owned records'.
Proof.
  intros Hown. unfold transferDNSEndpoints.
  apply foldlM_inv; [|done]. intros s ctrl Hs.
  apply foldlM_inv; [|done]. clear. intros s item Hs.
  unfold transferDNSEndpoints_item. destruct item; try by eexists.
  case_match; [by eexists|].
  apply foldlM_inv; [|done]. clear. intros s endpoint Hs.
  unfold transferDNSEndpoints_endpoint.
  case_match; [by eexists|]. case_match.
  - case_match; eexists; (split; [done|]); apply addRecords_owned; try done.
    + apply A_names.
    + apply AAAA_names.
  - case_match; [|by eexists].
    destruct (TXT_names gw (Fqdn (ToLower (DNSName endpoint))) (Targets endpoint))
      as (out & -> & Hout).
    simpl. eexists. split; [done|]. by apply addRecords_owned.
Qed.

Lemma transferResource_owned gw zone records resource :
  owned records →
  ∃ records', transferResource gw zone records resource = Some records' ∧
              owned records'.
Proof.
  intros Hown. unfold transferResource.
  repeat (case_match; [eexists; split; [done|];
    first [by apply transferIngresses_owned | by apply transferServices_owned
          | by apply transferRoutes_owned] |]).
  case_match; [by apply transferDNSEndpoints_owned|by eexists].
Qed.

Lemma str_le_lt (a b : string) : String.le a b → a ≠ b → str_lt a b.
Proof.
  unfold String.le, str_lt, String.leb, String.ltb.
  intros Hle Hne. destruct (String.compare a b) eqn:Hc; try done.
  by apply String.compare_eq_iff in Hc.
Qed.

Lemma StronglySorted_le_lt (l : list string) :
  StronglySorted String.le l → NoDup l → StronglySorted str_lt l.
Proof.
  induction 1 as [|x l Hl IH Hx]; intros Hnd; [constructor|].
  apply NoDup_cons in Hnd as [Hnotin Hnd].
  constructor; [by apply IH|].
  apply Forall_forall. intros y Hy.
  apply str_le_lt; [by eapply Forall_forall in Hx|]. by intros ->.
Qed.

(** The sorted keys are the keys of the map, in strictly increasing
    order. *)
Lemma sorted_keys_spec (records : gmap string (list RR)) :
  StronglySorted str_lt (sorted_keys records) ∧
  ∀ key, key ∈ sorted_keys records ↔ is_Some (records !! key).
Proof.
  unfold sorted_keys.
  pose proof (merge_sort_Permutation String.le (elements (dom records))) as Hperm.
  pose proof (StronglySorted_merge_sort String.le (elements (dom records))) as Hsort.
  assert (NoDup (merge_sort String.le (elements (dom records)))) as Hnd.
  { rewrite Hperm. apply NoDup_elements. }
  split.
  - by apply StronglySorted_le_lt.
  - intros key. rewrite Hperm, elem_of_elements. apply elem_of_dom.
Qed.

(** [transferResources] always returns: one group for each owner name,
    the owner names in strictly increasing order. *)
Lemma transferResources_sorted gw zone :
  ∃ owners groups,
    transferResources gw zone = Some groups ∧
    StronglySorted str_lt owners ∧
    Forall2 group_of owners groups.
Proof.
  unfold transferResources. destruct (negb (HasSynced gw)).
  { exists [], []. split_and!; [done|constructor|constructor]. }
  destruct (foldlM_inv owned (transferResource gw zone) (Resources gw) ∅)
    as (records & -> & Hown).
  { intros s x. apply transferResource_owned. }
  { intros key rrs. by rewrite lookup_empty. }
  simpl. destruct (sorted_keys_spec records) as [Hsort Hkeys].
  exists (sorted_keys records). eexists. split_and!; [done..|].
  apply Forall2_fmap_r, Forall_Forall2_diag, Forall_forall.
  intros key [rrs Hrrs]%Hkeys. simpl. rewrite Hrrs. simpl. by apply Hown.
Qed.

(** The map that [transferResources] collects, and what it sends: the
    groups of the map, in the sorted order of its keys.  Without a synced
    controller nothing is collected. *)
Lemma transferResources_collected gw zone :
  ∃ records,
    (if HasSynced gw
     then foldlM (transferResource gw zone) (Resources gw) ∅
     else Some ∅) = Some records ∧
    owned records ∧
    transferResources gw zone =
      Some (map (λ key, default [] (records !! key)) (sorted_keys records)).
Proof.
  unfold transferResources. destruct (HasSynced gw); simpl.
  - destruct (foldlM_inv owned (transferResource gw zone) (Resources gw) ∅)
      as (records & Hrec & Hown).
    { intros s x. apply transferResource_owned. }
    { intros key rrs. by rewrite lookup_empty. }
    exists records. rewrite Hrec. by split_and!.
  - exists ∅. split_and!; [done| |].
    + intros key rrs. by rewrite lookup_empty.
    + unfold sorted_keys. by rewrite dom_empty_L, elements_empty.
Qed.

(** C4. Every zone transfer of a served zone with caller serial 0, or
    with a serial that differs from the current one, emits a stream that
    starts with the zone SOA and ends with the same SOA record; between
    the apex records (the NS records and the nameserver addresses) and the
    closing SOA come the record groups that the collectors of the
    configured resources gathered, one group for each owner name of the
    collected map and no other, in strictly increasing lexicographic order
    of owner name. *)
Theorem transfer_stream_ordered now gw zone serial :
  ZonesMatches (Zones gw) zone ≠ "" →
  let state := {| Req := None; Zone := zone |} in
  let soa_rr := (soa now gw state).1 in
  let gw' := (soa now gw state).2 in
  let collect := λ (records : gmap string (list RR)) (resource : resourceWithIndex),
    if String.eqb (res_name resource) "Ingress"
    then Some (transferIngresses gw' records zone)
    else if String.eqb (res_name resource) "Service"
    then Some (transferServices gw' records zone)
    else if String.eqb (res_name resource) "HTTPRoute"
    then Some (transferHTTPRoutes gw' records zone)
    else if String.eqb (res_name resource) "TLSRoute"
    then Some (transferTLSRoutes gw' records zone)
    else if String.eqb (res_name resource) "GRPCRoute"
    then Some (transferGRPCRoutes gw' records zone)
    else if String.eqb (res_name resource) "DNSEndpoint"
    then transferDNSEndpoints gw' records zone
    else Some records in
  serial = 0 ∨ serial ≠ RR_Serial soa_rr →
  ∃ records owners groups,
    (if HasSynced gw' then foldlM collect (Resources gw') ∅ else Some ∅) =
      Some records ∧
    (∀ owner, owner ∈ owners ↔ is_Some (records !! owner)) ∧
    StronglySorted str_lt owners ∧
    groups = map (λ owner, default [] (records !! owner)) owners ∧
    Forall2 group_of owners groups ∧
    Transfer now gw zone serial =
      (Stream ([[soa_rr]] ++ map (λ ns, [ns]) (nameservers gw' state) ++
               (if nonempty (callExternalAddrFunc gw' state)
                then [callExternalAddrFunc gw' state] else []) ++
               groups ++ [[soa_rr]]), gw') ∧
    Rrtype (Hdr soa_rr) = TypeSOA ∧ Name (Hdr soa_rr) = zone.
Proof.
  intros Hzone state soa_rr gw' collect Hserial.
  destruct (transferResources_collected gw' zone) as (records & Hrec & Hown & Hres).
  destruct (sorted_keys_spec records) as [Hsort Hkeys].
  exists records, (sorted_keys records),
    (map (λ owner, default [] (records !! owner)) (sorted_keys records)).
  split_and!; try done.
  - apply Forall2_fmap_r, Forall_Forall2_diag, Forall_forall.
    intros key [rrs Hrrs]%Hkeys. simpl. rewrite Hrrs. simpl. by apply Hown.
  - unfold Transfer. apply String.eqb_neq in Hzone. rewrite Hzone.
    fold state. unfold soa_rr, gw' in *.
    destruct (soa now gw state) as [rr gw1]. simpl in *.
    assert (negb (serial =? 0) && (RR_Serial rr =? serial) = false) as ->.
    { destruct Hserial as [->|Hne]; [done|].
      destruct (Z.eqb_spec (RR_Serial rr) serial); [congruence|].
      by rewrite andb_false_r. }
    rewrite Hres. by rewrite <- !(assoc_L (++)).
Qed.

End Transfer.

(** A full transfer of two LoadBalancer services, listed by the store in
    the order [web], [api]: the group of [api] is sent before that of
    [web]. *)
Lemma transfer_stream_ordered_witness :
  let gw := make_gateway
              [ {| res_name := "Service"; res_lookup := noop |} ]
              [[ItemService (load_balancer "web" "ns1" [ip4 "192.0.2.2"]);
                ItemService (load_balancer "api" "ns1"
                               [ip4 "192.0.2.1"; ip6 "2001:db8::1"])]]
              "" 100 false in
  let state := {| Req := None; Zone := "example.com." |} in
  let soa_rr := (soa 1700000000 gw state).1 in
  let record := λ name type data,
    {| Hdr := {| Name := name; Rrtype := type; Class_ := ClassINET; Ttl := 60 |};
       Data := data |} in
  let api := [record "api.ns1.example.com." TypeA (Data_A (ip4 "192.0.2.1"));
              record "api.ns1.example.com." TypeAAAA
                (Data_AAAA (ip6 "2001:db8::1"))] in
  let web := [record "web.ns1.example.com." TypeA (Data_A (ip4 "192.0.2.2"))] in
  Transfer 1700000000 gw "example.com." 0 =
    (Stream [[soa_rr]; [ns1 gw state]; api; web; [soa_rr]], gw) ∧
  ∃ records owners groups,
    foldlM (transferResource gw "example.com.") (Resources gw) ∅ = Some records ∧
    (∀ owner, owner ∈ owners ↔ is_Some (records !! owner)) ∧
    StronglySorted str_lt owners ∧
    groups = map (λ owner, default [] (records !! owner)) owners ∧
    Forall2 group_of owners groups ∧
    Transfer 1700000000 gw "example.com." 0 =
      (Stream ([[soa_rr]] ++ map (λ ns, [ns]) (nameservers gw state) ++
               (if nonempty (callExternalAddrFunc gw state)
                then [callExternalAddrFunc gw state] else []) ++
               groups ++ [[soa_rr]]), gw) ∧
    Rrtype (Hdr soa_rr) = TypeSOA ∧ Name (Hdr soa_rr) = "example.com.".
Proof.
  intros gw state soa_rr record api web. split; [by vm_compute|].
  refine (transfer_stream_ordered 1700000000 gw "example.com." 0 _ _);
    [by vm_compute|by left].
Defined.

(** ** The dispatcher *)

Section Dispatcher.
Context `{!GoLib} `{!KubeTypes}.

(** When the apex check does not delegate, it leaves the gateway as it
    is. *)
Lemma checkApexQuery_loop_unhandled now gw state zones :
  handled (checkApexQuery_loop now gw state zones).1 = false →
  (checkApexQuery_loop now gw state zones).2 = gw.
Proof.
  induction zones as [|z zs IH]; simpl; [done|].
  destruct (String.eqb _ z); [done|].
  destruct (IsSubDomain _ _); [|done].
  by destruct (serveSubApex now gw state) as [[ret m] gw1].
Qed.

(** [ServeDNS] on a question that is answered from the index: the
    fall-through test, the response assembly, the write. *)
Lemma ServeDNS_from_index now gw q zone isRoot addrs raws cnames :
  answers_from_index now gw q zone isRoot (addrs, raws, cnames) →
  ServeDNS now gw (Some q) =
    let state := {| Req := Some q; Zone := zone |} in
    let noDataFound :=
      negb (nonempty addrs) && negb (nonempty raws) && negb (nonempty cnames) in
    if noDataFound && Fall_Through gw (q_name q) then Some (NextOrFailure, gw)
    else
      '(m, gw') ← processQueryResponse now gw new_reply state
                    (List.filter Is4 addrs) (List.filter Is6 addrs)
                    raws cnames isRoot noDataFound;
      let m := set_Authoritative true m in
      if Rcode m =? RcodeNameError
      then Some (Returned (Rcode m) false (Some m), gw')
      else Some (Returned RcodeSuccess false (Some m), gw').
Proof.
  intros (keySets & Hzone & Hkeys & Hsync & Hchk & Hlook).
  unfold ServeDNS.
  change (QName {| Req := Some q; Zone := "" |}) with (q_name q).
  rewrite Hzone. cbn [mbind option_bind negb]. rewrite Hkeys.
  cbn [mbind option_bind]. rewrite Hsync. cbn [negb].
  pose proof (checkApexQuery_loop_unhandled now gw
                {| Req := Some q; Zone := zone |} (Zones gw)) as Hgw.
  unfold checkApexQuery in *.
  destruct (checkApexQuery_loop now gw _ (Zones gw)) as [chk gw1].
  simpl in *. subst chk. simpl in *. rewrite Hgw by done.
  by rewrite Hlook.
Qed.

Lemma filter_nonempty {T} (p : T → bool) l :
  List.filter p l ≠ [] → nonempty l = true.
Proof. by destruct l. Qed.

(** C6. For every AAAA query that is answered from the index and whose
    name has at least one IPv4 address but no IPv6 address and no CNAME,
    the response code is success and the response has no answer records,
    only the SOA in the authority section. *)
Theorem aaaa_without_ipv6_is_nodata now gw q zone isRoot addrs raws :
  q_type q = TypeAAAA →
  answers_from_index now gw q zone isRoot (addrs, raws, []) →
  List.filter Is4 addrs ≠ [] →
  List.filter Is6 addrs = [] →
  let state := {| Req := Some q; Zone := zone |} in
  ServeDNS now gw (Some q) =
    Some (Returned RcodeSuccess false
            (Some {| Rcode := RcodeSuccess; Authoritative := true;
                     Answer := []; Ns := [(soa now gw state).1];
                     Extra := [] |}),
          (soa now gw state).2).
Proof.
  intros Hq Hidx H4 H6 state.
  rewrite (ServeDNS_from_index _ _ _ _ _ _ _ _ Hidx). fold state.
  rewrite (filter_nonempty _ _ H4). simpl.
  unfold processQueryResponse, QType. simpl. rewrite Hq. simpl.
  rewrite H6. unfold handleAddressQuery, setNegativeResponse. simpl.
  destruct (soa now gw state) as [rr gw1]. simpl.
  destruct (List.filter Is4 addrs) as [|? ?] eqn:Hf4; [done|]. simpl.
  by destruct isRoot.
Qed.

(** C7. For every A or AAAA query that is answered from the index, whose
    lookup returns a CNAME and whose chain resolution fails (with the loop
    error, the depth error or any other), the response has exactly the
    first CNAME record in the answer section, and so no address record. *)
Theorem failed_chain_keeps_first_cname now gw q zone isRoot addrs raws cname rest err :
  q_type q = TypeA ∨ q_type q = TypeAAAA →
  answers_from_index now gw q zone isRoot (addrs, raws, cname :: rest) →
  resolveCNAMEChain gw cname zone (CNAMEMaxDepth gw) = Some (Failed err) →
  ServeDNS now gw (Some q) =
    Some (Returned RcodeSuccess false
            (Some {| Rcode := RcodeSuccess; Authoritative := true;
                     Answer := [CNAME gw (ToLower (q_name q)) cname];
                     Ns := []; Extra := [] |}),
          gw).
Proof.
  intros Hq Hidx Hres.
  rewrite (ServeDNS_from_index _ _ _ _ _ _ _ _ Hidx).
  cbv zeta. rewrite !andb_false_r. simpl.
  unfold processQueryResponse, QType. simpl.
  destruct Hq as [-> | ->]; simpl;
    unfold handleAddressQuery, processCNAMEWithResolution;
    rewrite ?andb_false_r; simpl; rewrite Hres; simpl;
    rewrite ?andb_false_r; reflexivity.
Qed.



End Dispatcher.

(** Test 15 of the suite: [svc2.ns1] has an IPv4 address only. *)
Lemma aaaa_without_ipv6_is_nodata_witness :
  let gw := gateway [ {| res_name := "Service";
                         res_lookup := addr_lookup
                           [("svc2.ns1", [ip4 "192.0.1.2"])] |} ]
              "" 100 false in
  let q := {| q_name := "svc2.ns1.example.com."; q_type := TypeAAAA |} in
  let state := {| Req := Some q; Zone := "example.com." |} in
  ServeDNS 1700000000 gw (Some q) =
    Some (Returned RcodeSuccess false
            (Some {| Rcode := RcodeSuccess; Authoritative := true;
                     Answer := []; Ns := [(soa 1700000000 gw state).1];
                     Extra := [] |}),
          (soa 1700000000 gw state).2).
Proof.
  intros gw q state.
  apply (aaaa_without_ipv6_is_nodata 1700000000 gw q "example.com." false
           [ip4 "192.0.1.2"] []).
  - reflexivity.
  - eexists. split_and!; reflexivity.
  - vm_compute. discriminate.
  - reflexivity.
Defined.

(** The loop of the test suite, queried at [loop1]. *)
Lemma failed_chain_keeps_first_cname_witness :
  let gw := gateway [ {| res_name := "DNSEndpoint";
                         res_lookup := cname_lookup
                           [("loop1.example.com", ["loop2.example.com"]);
                            ("loop2.example.com", ["loop1.example.com"])] |} ]
              "" 100 false in
  let q := {| q_name := "loop1.example.com."; q_type := TypeA |} in
  resolveCNAMEChain gw "loop2.example.com" "example.com." (CNAMEMaxDepth gw) =
    Some (Failed (ErrLoop "loop2.example.com.")) ∧
  ServeDNS 1700000000 gw (Some q) =
    Some (Returned RcodeSuccess false
            (Some {| Rcode := RcodeSuccess; Authoritative := true;
                     Answer := [CNAME gw (ToLower (q_name q)) "loop2.example.com"];
                     Ns := []; Extra := [] |}),
          gw).
Proof.
  intros gw q.
  assert (resolveCNAMEChain gw "loop2.example.com" "example.com."
            (CNAMEMaxDepth gw) = Some (Failed (ErrLoop "loop2.example.com.")))
    as Hres by reflexivity.
  split; [exact Hres|].
  apply (failed_chain_keeps_first_cname 1700000000 gw q "example.com." false
           [] [] "loop2.example.com" [] (ErrLoop "loop2.example.com.")).
  - left. reflexivity.
  - eexists. split_and!; reflexivity.
  - exact Hres.
Defined.



(** ** The apex check *)

Section Apex.
Context `{!GoLib} `{!KubeTypes}.

(** The loop of [serveSubApex] appends its selection of the external
    addresses to the answer and touches nothing else. *)
Lemma serveSubApex_loop gw state addr : ∀ m,
  fold_left (serveSubApex_step gw state) addr m =
  set_Answer (Answer m ++ subApex_answer gw state addr) m.
Proof.
  unfold subApex_answer.
  induction addr as [|rr addr IH]; intros m; simpl.
  { destruct m. unfold set_Answer. simpl.
    repeat case_match; by rewrite app_nil_r. }
  rewrite IH. unfold serveSubApex_step.
  destruct (QType state =? TypeA).
  { simpl. destruct (Rrtype (Hdr rr) =? TypeA); simpl; [|done].
    unfold set_Answer. simpl. by rewrite <- (assoc_L (++)). }
  destruct (QType state =? TypeAAAA); [|done].
  simpl. destruct (Rrtype (Hdr rr) =? TypeAAAA); simpl; [|done].
  unfold set_Answer. simpl. by rewrite <- (assoc_L (++)).
Qed.

(** [serveSubApex] at the apex label itself (two labels). *)
Lemma serveSubApex_at_apex now gw state :
  TrimZone (Request_Name state) (Zone state) = apex gw →
  CountLabel (apex gw) = 2 →
  let answer := subApex_answer gw state (callExternalAddrFunc gw state) in
  serveSubApex now gw state =
    if nonempty answer
    then (0, {| Rcode := RcodeSuccess; Authoritative := true;
                Answer := answer; Ns := []; Extra := [] |}, gw)
    else (0, {| Rcode := RcodeSuccess; Authoritative := true;
                Answer := []; Ns := [(soa now gw state).1]; Extra := [] |},
          (soa now gw state).2).
Proof.
  intros Hbase Hlabels answer. unfold serveSubApex.
  rewrite Hbase, Hlabels. simpl. rewrite String.eqb_refl. simpl.
  rewrite serveSubApex_loop. simpl. fold answer.
  destruct answer as [|rr answer']; simpl; [|done].
  by destruct (soa now gw state).
Qed.

(** The zones in front of the one that decides the apex check: the query
    name is none of them and lies under the apex label of none of them. *)
Lemma checkApexQuery_loop_skip now gw state pre zones :
  Forall (λ z, Request_Name state ≠ z ∧
               IsSubDomain (apex gw +:+ "." +:+ z) (Request_Name state) = false)
    pre →
  checkApexQuery_loop now gw state (pre ++ zones) =
  checkApexQuery_loop now gw state zones.
Proof.
  induction 1 as [|z pre [Hne Hsub] _ IH]; simpl; [done|].
  apply String.eqb_neq in Hne. by rewrite Hne, Hsub.
Qed.

(** The apex check delegates exactly when, in the order of the
    configured zones, the first zone that the name equals or under whose
    apex label it lies is one under whose apex label it lies. *)
Lemma checkApexQuery_loop_handled_iff now gw state zones :
  handled (checkApexQuery_loop now gw state zones).1 = true ↔
  ∃ pre z post,
    zones = pre ++ z :: post ∧
    Forall (λ z', Request_Name state ≠ z' ∧
                  IsSubDomain (apex gw +:+ "." +:+ z') (Request_Name state) = false)
      pre ∧
    Request_Name state ≠ z ∧
    IsSubDomain (apex gw +:+ "." +:+ z) (Request_Name state) = true.
Proof.
  induction zones as [|z0 zs IH]; simpl.
  { split; [done|]. intros (pre & z & post & Heq & _). by destruct pre. }
  destruct (String.eqb_spec (Request_Name state) z0) as [Heq|Hne].
  { simpl. split; [done|].
    intros (pre & z & post & Hz & Hpre & Hnz & Hsub).
    destruct pre as [|z' pre]; injection Hz as -> ->.
    - done.
    - apply Forall_cons in Hpre as [[Hn _] _]. done. }
  destruct (IsSubDomain (apex gw +:+ "." +:+ z0) (Request_Name state)) eqn:Hsub0.
  { destruct (serveSubApex now gw state) as [[ret m] gw1]. simpl.
    split; [|done]. intros _. exists [], z0, zs. by split_and!. }
  rewrite IH. split.
  - intros (pre & z & post & -> & Hpre & Hnz & Hsub).
    exists (z0 :: pre), z, post. split_and!; try done. by constructor.
  - intros (pre & z & post & Hz & Hpre & Hnz & Hsub).
    destruct pre as [|z' pre]; injection Hz as -> ->.
    + congruence.
    + apply Forall_cons in Hpre as [_ Hpre]. by exists pre, z, post.
Qed.

(** When the apex check delegates, it returns what [serveSubApex]
    returns. *)
Lemma checkApexQuery_loop_delegated now gw state zones :
  handled (checkApexQuery_loop now gw state zones).1 = true →
  checkApexQuery_loop now gw state zones =
    ({| isRootZone := false; handled := true;
        code := (serveSubApex now gw state).1.1;
        written := Some (serveSubApex now gw state).1.2 |},
     (serveSubApex now gw state).2).
Proof.
  induction zones as [|z zs IH]; simpl; [done|].
  destruct (String.eqb _ z); [done|].
  destruct (IsSubDomain _ _); [|done].
  by destruct (serveSubApex now gw state) as [[ret m] gw1].
Qed.

(** [serveSubApex] beside the apex label. *)
Lemma serveSubApex_beside_apex now gw state :
  CountLabel (TrimZone (Request_Name state) (Zone state)) ≠ 2 ∨
  TrimZone (Request_Name state) (Zone state) ≠ apex gw →
  serveSubApex now gw state =
    (0, {| Rcode := RcodeNameError; Authoritative := true;
           Answer := []; Ns := [(soa now gw state).1]; Extra := [] |},
     (soa now gw state).2).
Proof.
  intros Hbase. unfold serveSubApex, subApex_nxdomain.
  destruct (soa now gw state) as [rr gw1]. simpl.
  destruct (Z.eqb_spec (CountLabel (TrimZone (Request_Name state) (Zone state))) 2)
    as [Hl|Hl]; [|done].
  destruct (String.eqb_spec (TrimZone (Request_Name state) (Zone state)) (apex gw))
    as [Hb|Hb]; [|done].
  by destruct Hbase.
Qed.

(** C8, as amended.  The dispatcher delegates a query to [serveSubApex]
    exactly when, among the configured zones in order, the first zone that
    the name equals or under whose apex label [<apex>.<zone>] it lies is
    one under whose apex label it lies (and that it does not equal); the
    secondary-server label is not consulted, so a delegated name always
    lies under the apex label of a configured zone.  For a delegated query
    the dispatcher returns what [serveSubApex] returns: when the name
    without the zone is the apex label and that label has two parts, the
    answer is the A or AAAA records of the external-address callback for
    an A or AAAA query, and the SOA goes in authority when there is no
    such record and for all other types; otherwise the message carries
    name error, no answer and the SOA in authority. *)
Theorem apex_label_is_delegated now gw state :
  let name := Request_Name state in
  let base := TrimZone name (Zone state) in
  let sub := serveSubApex now gw state in
  (handled (checkApexQuery now gw state).1 = true ↔
   ∃ pre z post,
     Zones gw = pre ++ z :: post ∧
     Forall (λ z', name ≠ z' ∧
                   IsSubDomain (apex gw +:+ "." +:+ z') name = false) pre ∧
     name ≠ z ∧
     IsSubDomain (apex gw +:+ "." +:+ z) name = true) ∧
  (handled (checkApexQuery now gw state).1 = true →
   (∃ z, z ∈ Zones gw ∧ IsSubDomain (apex gw +:+ "." +:+ z) name = true) ∧
   checkApexQuery now gw state =
     ({| isRootZone := false; handled := true; code := sub.1.1;
         written := Some sub.1.2 |}, sub.2)) ∧
  (base = apex gw →
   CountLabel (apex gw) = 2 →
   let answer := subApex_answer gw state (callExternalAddrFunc gw state) in
   (answer ≠ [] →
    sub = (0, {| Rcode := RcodeSuccess; Authoritative := true;
                 Answer := answer; Ns := []; Extra := [] |}, gw)) ∧
   (answer = [] →
    sub = (0, {| Rcode := RcodeSuccess; Authoritative := true;
                 Answer := []; Ns := [(soa now gw state).1]; Extra := [] |},
           (soa now gw state).2)) ∧
   (QType state ≠ TypeA → QType state ≠ TypeAAAA → answer = [])) ∧
  (CountLabel base ≠ 2 ∨ base ≠ apex gw →
   sub = (0, {| Rcode := RcodeNameError; Authoritative := true;
                Answer := []; Ns := [(soa now gw state).1]; Extra := [] |},
          (soa now gw state).2)).
Proof.
  intros name base sub. split_and!.
  - apply checkApexQuery_loop_handled_iff.
  - intros Hhandled. split.
    + apply checkApexQuery_loop_handled_iff in Hhandled
        as (pre & z & post & Hzones & _ & _ & Hsub).
      exists z. split; [|done]. rewrite Hzones.
      apply elem_of_app. right. by left.
    + by apply checkApexQuery_loop_delegated.
  - intros Hbase Hlabels answer.
    pose proof (serveSubApex_at_apex now gw state Hbase Hlabels) as Heq.
    cbv zeta in Heq. fold answer sub in Heq. split_and!.
    + intros Hans. rewrite Heq. by destruct answer.
    + intros Hans. rewrite Heq. by rewrite Hans.
    + intros HA HAAAA. unfold answer, subApex_answer.
      apply Z.eqb_neq in HA, HAAAA. by rewrite HA, HAAAA.
  - apply serveSubApex_beside_apex.
Qed.

End Apex.

(** The apex tests of the suite: an A query at
    [dns1.kube-system.example.com.]. *)
Lemma apex_label_is_delegated_witness :
  let gw := gateway [ {| res_name := "Service";
                         res_lookup := addr_lookup
                           [("dns1.kube-system", [ip4 "192.0.1.53"])] |} ]
              "" 100 false in
  let state := {| Req := Some {| q_name := "dns1.kube-system.example.com.";
                                 q_type := TypeA |};
                  Zone := "example.com." |} in
  let sub := serveSubApex 1700000000 gw state in
  checkApexQuery 1700000000 gw state =
    ({| isRootZone := false; handled := true; code := sub.1.1;
        written := Some sub.1.2 |}, sub.2) ∧
  Answer sub.1.2 =
    [ {| Hdr := {| Name := "dns1.kube-system.example.com."; Rrtype := TypeA;
                   Class_ := ClassINET; Ttl := 60 |};
         Data := Data_A (ip4 "192.0.1.53") |} ].
Proof.
  intros gw state sub.
  destruct (apex_label_is_delegated 1700000000 gw state)
    as (Hiff & Hchk & Hat & _).
  assert (handled (checkApexQuery 1700000000 gw state).1 = true) as Hhandled.
  { apply Hiff. exists [], "example.com.", [].
    split_and!; [reflexivity|constructor|by vm_compute|reflexivity]. }
  destruct (Hchk Hhandled) as [_ Hdel].
  destruct (Hat eq_refl eq_refl) as (Hans & _ & _).
  split; [exact Hdel|].
  unfold sub. rewrite Hans; [reflexivity|by vm_compute].
Defined.

(** C8 as stated fails.  With the secondary label [dns2.kube-system]
    configured, a query for [dns2.kube-system.example.com.] lies under the
    secondary label of the zone, and the apex check does not delegate it;
    the dispatcher answers it from the index, here with name error.  And a
    delegated query is not always answered from the callback or with the
    SOA alone: below the apex label, and at an apex label that has not two
    parts (here [ns]), it gets name error. *)
Lemma secondary_label_is_not_delegated :
  let gw := gateway staticResources "dns2.kube-system" 100 false in
  let q := {| q_name := "dns2.kube-system.example.com."; q_type := TypeA |} in
  let state := {| Req := Some q; Zone := "example.com." |} in
  (IsSubDomain (secondNS gw +:+ "." +:+ "example.com.") (Request_Name state) = true ∧
   handled (checkApexQuery 1700000000 gw state).1 = false ∧
   answers_from_index 1700000000 gw q "example.com." false ([], [], []) ∧
   ∃ m gw',
     ServeDNS 1700000000 gw (Some q) =
       Some (Returned RcodeNameError false (Some m), gw') ∧
     Answer m = []) ∧
  let addressed := gateway [ {| res_name := "Service";
                                res_lookup := addr_lookup
                                  [("dns1.kube-system", [ip4 "192.0.1.53"]);
                                   ("ns", [ip4 "192.0.1.53"])] |} ]
                     "" 100 false in
  let below := {| Req := Some {| q_name := "foo.dns1.kube-system.example.com.";
                                 q_type := TypeA |};
                  Zone := "example.com." |} in
  let short := {| Req := Some {| q_name := "ns.example.com."; q_type := TypeA |};
                  Zone := "example.com." |} in
  (handled (checkApexQuery 1700000000 addressed below).1 = true ∧
   written (checkApexQuery 1700000000 addressed below).1 =
     Some {| Rcode := RcodeNameError; Authoritative := true; Answer := [];
             Ns := [(soa 1700000000 addressed below).1]; Extra := [] |}) ∧
  (callExternalAddrFunc (with_apex "ns" addressed) short =
     A addressed "ns.example.com." [ip4 "192.0.1.53"] ∧
   handled (checkApexQuery 1700000000 (with_apex "ns" addressed) short).1 = true ∧
   written (checkApexQuery 1700000000 (with_apex "ns" addressed) short).1 =
     Some {| Rcode := RcodeNameError; Authoritative := true; Answer := [];
             Ns := [(soa 1700000000 (with_apex "ns" addressed) short).1];
             Extra := [] |}).
Proof.
  intros gw q state. split.
  { split_and!; [reflexivity|reflexivity| |].
    - eexists. split_and!; reflexivity.
    - eexists _, _. split; reflexivity. }
  intros addressed below short. split_and!; reflexivity.
Qed.

(** ** The TTL of the records of a response *)

Section Ttl.
Context `{!GoLib} `{!KubeTypes}.

Lemma records_of_Forall (P : RR → Prop) m :
  Forall P (records_of m) ↔
  Forall P (Answer m) ∧ Forall P (Ns m) ∧ Forall P (Extra m).
Proof. unfold records_of. by rewrite !Forall_app. Qed.

Lemma soa_header now gw state :
  Rrtype (Hdr (soa now gw state).1) = TypeSOA ∧
  Ttl (Hdr (soa now gw state).1) = ttlSOA gw.
Proof. unfold soa. by destruct (calculateSerial now gw). Qed.

Lemma low_ttl_types (t : Z) :
  t = TypeA ∨ t = TypeAAAA ∨ t = TypeTXT ∨ t = TypeCNAME →
  t ∈ [TypeA; TypeAAAA; TypeTXT; TypeCNAME].
Proof. rewrite !elem_of_cons, elem_of_nil. tauto. Qed.

Lemma soa_ttl_types (t : Z) :
  t = TypeSOA ∨ t = TypeNS → t ∈ [TypeSOA; TypeNS].
Proof. rewrite !elem_of_cons, elem_of_nil. tauto. Qed.

Lemma soa_answer now gw state :
  index_record gw (soa now gw state).1 ∨ apex_record gw (soa now gw state).1.
Proof.
  destruct (soa_header now gw state) as [Hty Httl]. right.
  split; [|done]. apply soa_ttl_types. by left.
Qed.

Lemma nameservers_answer gw state :
  Forall (λ rr, index_record gw rr ∨ apex_record gw rr) (nameservers gw state).
Proof.
  unfold nameservers, ns2.
  destruct (String.eqb (secondNS gw) ""); repeat constructor; right;
    (split; [apply soa_ttl_types; by right|done]).
Qed.

Lemma CNAME_answer gw name target :
  index_record gw (CNAME gw name target) ∨ apex_record gw (CNAME gw name target).
Proof. left. split; [|done]. apply low_ttl_types; auto. Qed.

Lemma A_answer gw name results :
  Forall (λ rr, index_record gw rr ∨ apex_record gw rr) (A gw name results).
Proof.
  apply A_Forall. intros a. left. split; [|done]. apply low_ttl_types; auto.
Qed.

Lemma AAAA_answer gw name results :
  Forall (λ rr, index_record gw rr ∨ apex_record gw rr) (AAAA gw name results).
Proof.
  apply AAAA_Forall. intros a. left. split; [|done]. apply low_ttl_types; auto.
Qed.

Lemma TXT_answer gw name results :
  ∃ out, TXT gw name results = Some out ∧
         Forall (λ rr, index_record gw rr ∨ apex_record gw rr) out.
Proof.
  apply TXT_Forall. intros a. left. split; [|done]. apply low_ttl_types; auto.
Qed.

(** A record of the callback, with the SOA TTL put on it and possibly
    re-owned, is a nameserver address record. *)
Lemma external_nameserver_address gw nsaddrs rr0 :
  rr0 ∈ nsaddrs →
  nameserver_address gw nsaddrs (set_Ttl (ttlSOA gw) rr0) ∧
  ∀ name, nameserver_address gw nsaddrs (set_Name name (set_Ttl (ttlSOA gw) rr0)).
Proof.
  intros Hin. split; [|intros name]; (split; [done|]); by exists rr0.
Qed.

Lemma extras_nameserver_address gw nsaddrs :
  Forall (nameserver_address gw nsaddrs) (map (set_Ttl (ttlSOA gw)) nsaddrs).
Proof.
  apply Forall_forall. intros rr Hin.
  apply list_elem_of_In, in_map_iff in Hin as (rr0 & <- & Hin).
  apply external_nameserver_address. by apply list_elem_of_In.
Qed.

Lemma addExtraRecords_Extra gw m state :
  addExtraRecords gw m state =
  set_Extra (Extra m ++ map (set_Ttl (ttlSOA gw)) (callExternalAddrFunc gw state)) m.
Proof.
  unfold addExtraRecords. generalize (callExternalAddrFunc gw state) as addr.
  intros addr. revert m. induction addr as [|rr addr IH]; intros m; simpl.
  { destruct m. unfold set_Extra. simpl. by rewrite app_nil_r. }
  rewrite IH. unfold set_Extra. simpl. by rewrite <- (assoc_L (++)).
Qed.

Lemma subApex_answer_nameserver_address gw state :
  Forall (nameserver_address gw (callExternalAddrFunc gw state))
    (subApex_answer gw state (callExternalAddrFunc gw state)).
Proof.
  unfold subApex_answer.
  assert (Forall (nameserver_address gw (callExternalAddrFunc gw state))
            (map (λ rr, set_Name (QName state) (set_Ttl (ttlSOA gw) rr))
               (callExternalAddrFunc gw state))) as Hext.
  { apply Forall_forall. intros rr Hin.
    apply list_elem_of_In, in_map_iff in Hin as (rr0 & <- & Hin).
    apply external_nameserver_address. by apply list_elem_of_In. }
  repeat case_match; try constructor;
    apply Forall_forall; intros rr Hrr%list_elem_of_In%filter_In;
    destruct Hrr as [Hrr%list_elem_of_In _];
    by eapply Forall_forall in Hext.
Qed.

(** Closes a goal [Forall P l] for the lists that the handlers build. *)
Ltac solve_ttl :=
  first [ apply subApex_answer_nameserver_address
        | apply extras_nameserver_address
        | apply A_answer
        | apply AAAA_answer
        | apply nameservers_answer
        | apply List.Forall_nil
        | apply List.Forall_cons;
          [first [assumption | apply CNAME_answer | apply soa_answer
                 | apply soa_header]
          | solve_ttl] ].

(** The message of [serveSubApex]: SOA records in authority, no
    additional record, nameserver addresses in the answer. *)
Lemma serveSubApex_ttl now gw state :
  let m := (serveSubApex now gw state).1.2 in
  Forall (λ rr, Rrtype (Hdr rr) = TypeSOA ∧ Ttl (Hdr rr) = ttlSOA gw) (Ns m) ∧
  Forall (nameserver_address gw (callExternalAddrFunc gw state)) (Extra m) ∧
  Forall (nameserver_address gw (callExternalAddrFunc gw state)) (Answer m).
Proof.
  unfold serveSubApex, subApex_nxdomain.
  pose proof (soa_header now gw state) as Hsoa.
  destruct (soa now gw state) as [rr gw1]. simpl in Hsoa.
  rewrite serveSubApex_loop.
  repeat case_match; simplify_eq/=; split_and!; solve_ttl.
Qed.

(** The messages of the handlers: SOA records in authority, nameserver
    addresses as additional records, index records and SOA or NS records
    in the answer. *)
Lemma handleAddressQuery_ttl now gw state addrs cnames isRoot isIPv4 m gw' :
  handleAddressQuery now gw new_reply state addrs cnames isRoot isIPv4 =
    Some (m, gw') →
  Forall (λ rr, Rrtype (Hdr rr) = TypeSOA ∧ Ttl (Hdr rr) = ttlSOA gw) (Ns m) ∧
  Forall (nameserver_address gw (callExternalAddrFunc gw state)) (Extra m) ∧
  Forall (λ rr, index_record gw rr ∨ apex_record gw rr) (Answer m).
Proof.
  unfold handleAddressQuery, setNegativeResponse, processCNAMEWithResolution,
    addResolvedAddresses.
  pose proof (soa_header now gw state) as Hsoa.
  destruct (soa now gw state) as [rr gw1]. simpl in Hsoa.
  intros Hm.
  repeat (case_match; simplify_option_eq); simpl;
    rewrite ?Forall_app; split_and!; solve_ttl.
Qed.

Lemma handleDataQuery_ttl now gw state data isRoot noData m gw' :
  handleDataQuery now gw new_reply state data isRoot noData = Some (m, gw') →
  Forall (λ rr, Rrtype (Hdr rr) = TypeSOA ∧ Ttl (Hdr rr) = ttlSOA gw) (Ns m) ∧
  Forall (nameserver_address gw (callExternalAddrFunc gw state)) (Extra m) ∧
  Forall (λ rr, index_record gw rr ∨ apex_record gw rr) (Answer m).
Proof.
  unfold handleDataQuery, setNegativeResponse.
  pose proof (soa_header now gw state) as Hsoa.
  destruct (soa now gw state) as [rr gw1]. simpl in Hsoa.
  destruct (TXT_answer gw (Request_Name state) data) as (out & Hout & Hclass).
  rewrite Hout. intros Hm.
  repeat (case_match; simplify_option_eq); simpl;
    split_and!; first [assumption | solve_ttl].
Qed.

Lemma handleCNAMEQuery_ttl now gw state cnames isRoot noData :
  let m := (handleCNAMEQuery now gw new_reply state cnames isRoot noData).1 in
  Forall (λ rr, Rrtype (Hdr rr) = TypeSOA ∧ Ttl (Hdr rr) = ttlSOA gw) (Ns m) ∧
  Forall (nameserver_address gw (callExternalAddrFunc gw state)) (Extra m) ∧
  Forall (λ rr, index_record gw rr ∨ apex_record gw rr) (Answer m).
Proof.
  unfold handleCNAMEQuery, setNegativeResponse.
  pose proof (soa_header now gw state) as Hsoa.
  destruct (soa now gw state) as [rr gw1]. simpl in Hsoa.
  repeat case_match; simpl; split_and!; solve_ttl.
Qed.

Lemma handleNSQuery_ttl now gw state isRoot :
  let m := (handleNSQuery now gw new_reply state isRoot).1 in
  Forall (λ rr, Rrtype (Hdr rr) = TypeSOA ∧ Ttl (Hdr rr) = ttlSOA gw) (Ns m) ∧
  Forall (nameserver_address gw (callExternalAddrFunc gw state)) (Extra m) ∧
  Forall (λ rr, index_record gw rr ∨ apex_record gw rr) (Answer m).
Proof.
  unfold handleNSQuery, setNegativeResponse.
  pose proof (soa_header now gw state) as Hsoa.
  destruct (soa now gw state) as [rr gw1]. simpl in Hsoa.
  rewrite addExtraRecords_Extra.
  destruct isRoot; simpl; split_and!; solve_ttl.
Qed.

Lemma processQueryResponse_ttl now gw state ipv4 ipv6 raws cnames isRoot noData m gw' :
  processQueryResponse now gw new_reply state ipv4 ipv6 raws cnames isRoot noData =
    Some (m, gw') →
  Forall (λ rr, Rrtype (Hdr rr) = TypeSOA ∧ Ttl (Hdr rr) = ttlSOA gw) (Ns m) ∧
  Forall (nameserver_address gw (callExternalAddrFunc gw state)) (Extra m) ∧
  Forall (λ rr, index_record gw rr ∨ apex_record gw rr) (Answer m).
Proof.
  unfold processQueryResponse. intros Hm.
  destruct (QType state =? TypeA); [by eapply handleAddressQuery_ttl|].
  destruct (QType state =? TypeAAAA).
  { destruct (handleAddressQuery now gw new_reply state ipv6 cnames isRoot false)
      as [[m1 gw1]|] eqn:Haddr; [|done].
    apply handleAddressQuery_ttl in Haddr. simpl in Hm.
    by destruct (_ && _); simplify_eq. }
  destruct (QType state =? TypeTXT); [by eapply handleDataQuery_ttl|].
  destruct (QType state =? TypeCNAME).
  { pose proof (handleCNAMEQuery_ttl now gw state cnames isRoot noData) as Hc.
    injection Hm as Hm. cbv zeta in Hc. by rewrite Hm in Hc. }
  destruct (QType state =? TypeSOA).
  { pose proof (soa_answer now gw state) as Hsoa.
    destruct (soa now gw state) as [rr gw1]. simplify_eq/=.
    split_and!; solve_ttl. }
  destruct (QType state =? TypeNS).
  { pose proof (handleNSQuery_ttl now gw state isRoot) as Hc.
    injection Hm as Hm. cbv zeta in Hc. by rewrite Hm in Hc. }
  unfold setNegativeResponse in Hm.
  pose proof (soa_header now gw state) as Hsoa.
  destruct (soa now gw state) as [rr gw1]. simplify_eq/=.
  split_and!; solve_ttl.
Qed.

Lemma index_or_apex_two_values gw rr :
  index_record gw rr ∨ apex_record gw rr →
  Ttl (Hdr rr) = ttlLow gw ∨ Ttl (Hdr rr) = ttlSOA gw.
Proof. intros [[_ ?]|[_ ?]]; auto. Qed.

(** C5. Every resource record placed in a response has the configured low
    TTL if it is an A, AAAA, TXT or CNAME record built from the index, and
    the SOA TTL if it is an SOA record, an NS record or a nameserver
    address record (a record of the external-address callback).  By
    section: the authority records are SOA records with the SOA TTL; the
    additional records (the extras of an NS answer) are nameserver address
    records with the SOA TTL; the answer records of a query that the apex
    check delegates are nameserver address records with the SOA TTL, and
    those of any other query are A, AAAA, TXT or CNAME records with the
    low TTL or SOA or NS records with the SOA TTL.  No record carries any
    other TTL. *)
Theorem response_ttls now gw r rcode err m gw' :
  ServeDNS now gw r = Some (Returned rcode err (Some m), gw') →
  ∃ zone,
    validateQueryZone gw (QName {| Req := r; Zone := "" |}) = Some (zone, true) ∧
    let state := {| Req := r; Zone := zone |} in
    let nsaddrs := callExternalAddrFunc gw state in
    Forall (λ rr, Rrtype (Hdr rr) = TypeSOA ∧ Ttl (Hdr rr) = ttlSOA gw) (Ns m) ∧
    Forall (nameserver_address gw nsaddrs) (Extra m) ∧
    (if handled (checkApexQuery now gw state).1
     then Forall (nameserver_address gw nsaddrs) (Answer m)
     else Forall (λ rr, index_record gw rr ∨ apex_record gw rr) (Answer m)) ∧
    Forall (λ rr, Ttl (Hdr rr) = ttlLow gw ∨ Ttl (Hdr rr) = ttlSOA gw)
      (records_of m).
Proof.
  intros Hserve.
  unfold ServeDNS in Hserve.
  destruct (validateQueryZone gw _) as [[zone valid]|]; [|done].
  cbn [mbind option_bind] in Hserve.
  destruct valid; [|done]. cbn [negb] in Hserve.
  exists zone. split; [done|]. cbv zeta.
  destruct (getQueryIndexKeySets _ zone) as [keySets|]; [|done].
  cbn [mbind option_bind] in Hserve.
  destruct (negb (HasSynced gw)); [done|].
  pose proof (checkApexQuery_loop_delegated now gw {| Req := r; Zone := zone |}
                (Zones gw)) as Hapex.
  pose proof (checkApexQuery_loop_unhandled now gw {| Req := r; Zone := zone |}
                (Zones gw)) as Hgw.
  unfold checkApexQuery in *.
  destruct (checkApexQuery_loop now gw _ (Zones gw)) as [chk gw1].
  simpl in Hapex, Hgw. simpl.
  destruct (handled chk) eqn:Hhandled.
  - specialize (Hapex eq_refl). injection Hapex as -> ->.
    simpl in Hserve. injection Hserve as _ _ <- _.
    destruct (serveSubApex_ttl now gw {| Req := r; Zone := zone |})
      as (Hns & Hextra & Hanswer).
    split_and!; try done.
    apply records_of_Forall. split_and!.
    + eapply Forall_impl; [exact Hanswer|]. intros rr [? _]. by right.
    + eapply Forall_impl; [exact Hns|]. intros rr [_ ?]. by right.
    + eapply Forall_impl; [exact Hextra|]. intros rr [? _]. by right.
  - specialize (Hgw eq_refl). subst gw1.
    destruct (getMatchingAddressesWithCNAME gw keySets) as [[addrs raws] cnames].
    destruct (_ && Fall_Through gw _); [done|].
    destruct (processQueryResponse now gw new_reply _ _ _ raws cnames _ _)
      as [[m1 gw2]|] eqn:Hproc; [|done].
    cbn [mbind option_bind] in Hserve.
    assert (m = set_Authoritative true m1) as ->.
    { by destruct (_ =? RcodeNameError); simplify_eq. }
    apply processQueryResponse_ttl in Hproc as (Hns & Hextra & Hanswer).
    split_and!; try done.
    apply records_of_Forall. split_and!.
    + eapply Forall_impl; [exact Hanswer|]. apply index_or_apex_two_values.
    + eapply Forall_impl; [exact Hns|]. intros rr [_ ?]. by right.
    + eapply Forall_impl; [exact Hextra|]. intros rr [? _]. by right.
Qed.

End Ttl.

(** The NS query at the apex, with a low TTL of 300 and the SOA TTL of
    60: the NS record and its address extra carry 60. *)
Lemma response_ttls_witness :
  let gw := with_ttlLow 300
              (gateway [ {| res_name := "Service";
                            res_lookup := addr_lookup
                              [("dns1.kube-system", [ip4 "192.0.1.53"])] |} ]
                 "" 100 false) in
  let r := Some {| q_name := "example.com."; q_type := TypeNS |} in
  let state := {| Req := r; Zone := "example.com." |} in
  let m := {| Rcode := RcodeSuccess; Authoritative := true;
              Answer := nameservers gw state; Ns := [];
              Extra := [ {| Hdr := {| Name := "dns1.kube-system.example.com.";
                                      Rrtype := TypeA; Class_ := ClassINET;
                                      Ttl := 60 |};
                            Data := Data_A (ip4 "192.0.1.53") |} ] |} in
  ServeDNS 1700000000 gw r = Some (Returned RcodeSuccess false (Some m), gw) ∧
  Forall (nameserver_address gw (callExternalAddrFunc gw state)) (Extra m) ∧
  Forall (λ rr, index_record gw rr ∨ apex_record gw rr) (Answer m) ∧
  Forall (λ rr, Ttl (Hdr rr) = 300 ∨ Ttl (Hdr rr) = 60) (records_of m).
Proof.
  intros gw r state m.
  assert (ServeDNS 1700000000 gw r = Some (Returned RcodeSuccess false (Some m), gw))
    as Hrun by reflexivity.
  split; [exact Hrun|].
  destruct (response_ttls 1700000000 gw r RcodeSuccess false m gw Hrun)
    as (zone & Hzone & _ & Hextra & Hanswer & Htwo).
  injection Hzone as <-.
  split_and!; [exact Hextra|exact Hanswer|exact Htwo].
Defined.

(** ** The test suite and the scenarios of the specification, replayed *)

(** Existing Service IPv4 (test 0). *)
Example test_existing_service :
  query test_gateway "svc1.ns1.example.com." TypeA =
  Some (RcodeSuccess,
        [("svc1.ns1.example.com.", TypeA, 60, Data_A (ip4 "192.0.1.1"))], [], []).
Proof. reflexivity. Qed.

(** Non-existing Service (test 3). *)
Example test_missing_service :
  query test_gateway "svcX.ns1.example.com." TypeA =
  Some (RcodeNameError, [], [TypeSOA], []).
Proof. reflexivity. Qed.

(** Real service, wrong query type (test 7): a CNAME query that finds
    nothing is answered with success. *)
Example test_wrong_query_type :
  query test_gateway "svc3.ns1.example.com." TypeCNAME =
  Some (RcodeSuccess, [], [TypeSOA], []).
Proof. reflexivity. Qed.

(** "Non-existent CNAME returns NXDOMAIN" (TestCNAMEResponse): the name
    carries the marker. *)
Example test_marked_cname :
  query test_gateway "nonexistent.example.com." TypeCNAME =
  Some (RcodeNameError, [], [TypeSOA], []).
Proof. reflexivity. Qed.

(** Mixed-case query (test 9): the owner name is the lowercased name. *)
Example test_mixed_case :
  query test_gateway "dOmAiN.eXamPLe.cOm." TypeA =
  Some (RcodeSuccess,
        [("domain.example.com.", TypeA, 60, Data_A (ip4 "192.0.0.1"))], [], []).
Proof. reflexivity. Qed.

(** Gateway API lookup has priority over Ingress (test 14). *)
Example test_route_priority :
  query test_gateway "shadow.example.com." TypeA =
  Some (RcodeSuccess,
        [("shadow.example.com.", TypeA, 60, Data_A (ip4 "192.0.2.4"))], [], []).
Proof. reflexivity. Qed.

(** Lookup that relies on a wildcard (test 18). *)
Example test_wildcard :
  query test_gateway "not-explicitly-defined-label.wildcard.example.com." TypeA =
  Some (RcodeSuccess,
        [("not-explicitly-defined-label.wildcard.example.com.", TypeA, 60,
          Data_A (ip4 "192.0.0.6"))], [], []).
Proof. reflexivity. Qed.

(** Lookup with a matching wildcard but a more specific entry (test 19). *)
Example test_wildcard_specific :
  query test_gateway "specific-subdomain.wildcard.example.com." TypeA =
  Some (RcodeSuccess,
        [("specific-subdomain.wildcard.example.com.", TypeA, 60,
          Data_A (ip4 "192.0.0.7"))], [], []).
Proof. reflexivity. Qed.

(** An unknown label under the apex label (TestApex): name error. *)
Example test_below_apex_label :
  query test_gateway "foo.dns1.kube-system.example.com." TypeA =
  Some (RcodeNameError, [], [TypeSOA], []).
Proof. reflexivity. Qed.

(** The chain [www -> app -> service -> api] (TestRealCNAMEResolution):
    the first CNAME and the addresses of [api], owned by the first
    target. *)
Example test_cname_chain :
  query chain_gateway "www.example.com." TypeA =
  Some (RcodeSuccess,
        [("www.example.com.", TypeCNAME, 60, Data_CNAME "app.example.com.");
         ("app.example.com.", TypeA, 60, Data_A (ip4 "10.0.1.100"));
         ("app.example.com.", TypeA, 60, Data_A (ip4 "10.0.1.101"))], [], []).
Proof. reflexivity. Qed.

(** TestCNAMEChainResolution: a depth bound of 0 fails, a target outside
    the zone resolves to no address. *)
Example test_depth_limit :
  resolveCNAMEChain test_gateway "deep.example.com" "example.com." 0 =
  Some (Failed (ErrDepthLimit "deep.example.com")).
Proof. reflexivity. Qed.

Example test_external_target :
  resolveCNAMEChain test_gateway "external.otherdomain.com" "example.com." 10 =
  Some (Resolved []).
Proof. reflexivity. Qed.

(** A target whose canonical name is shorter than the zone: [stripDomain]
    slices out of range and the resolution panics. *)
Example short_external_target_panics :
  stripDomain "a.io." "example.com." = None ∧
  resolveCNAMEChain test_gateway "a.io" "example.com." 10 = None.
Proof. split; reflexivity. Qed.

(** A transfer with the caller's serial equal to the current one
    (TestTransfer, "ixfr fallback" when the serials meet): one SOA. *)
Example test_ixfr_fallback :
  ∃ soa_rr,
    fst (Transfer 1700000000 test_gateway "example.com." 1499347823) =
      Stream [[soa_rr]] ∧
    Rrtype (Hdr soa_rr) = TypeSOA ∧ RR_Serial soa_rr = 1499347823.
Proof. eexists. split_and!; reflexivity. Qed.

(** TestTransfer, "non-matching zone". *)
Example test_transfer_other_zone :
  fst (Transfer 1700000000 test_gateway "other.com." 0) = ErrNotAuthoritative.
Proof. reflexivity. Qed.

(** TestSOASerialDynamic: a fresh serial after [markDirty], the same
    serial without. *)
Example test_soa_serial_dynamic :
  let state := {| Req := None; Zone := "example.com." |} in
  let soa1 := soa 1700000000 (markDirty test_gateway) state in
  let soa2 := soa 1700000000 (markDirty soa1.2) state in
  let soa3 := soa 1700000007 soa2.2 state in
  RR_Serial soa1.1 = 1700000000 ∧
  RR_Serial soa2.1 = 1700000001 ∧
  RR_Serial soa3.1 = 1700000001.
Proof. split_and!; reflexivity. Qed.

(** * Further properties of the engine *)

(** ** Strings *)

Lemma str_length_app s t :
  String.length (s +:+ t) = (String.length s + String.length t)%nat.
Proof.
  induction s as [|c s IH]; [done|]. rewrite str_app_cons. simpl. by rewrite IH.
Qed.

Lemma str_take_all n s : (String.length s <= n)%nat → str_take n s = s.
Proof.
  revert s. induction n as [|n IH]; intros [|c s]; simpl; try done; try lia.
  intros ?. f_equal. apply IH. lia.
Qed.

Lemma concat_empty_cons seg segs :
  String.concat "" (seg :: segs) = seg +:+ String.concat "" segs.
Proof. destruct segs; simpl; [by rewrite str_app_nil_r|done]. Qed.

(** A joined list is at least as long as its last element. *)
Lemma length_Join_last sep l z :
  (String.length z <= String.length (Join (l ++ [z]) sep))%nat.
Proof.
  unfold Join. induction l as [|x l IH]; simpl; [done|].
  destruct (l ++ [z])%list as [|y l'] eqn:Hl.
  { by destruct l. }
  rewrite !str_length_app. lia.
Qed.

(** ** split255, on every string *)

(** The loop from cursor [p]: full segments of 255 bytes, then one
    shorter segment, which together are the string from [p] on. *)
Lemma split255_loop_segments fuel : ∀ s p sx,
  0 <= p <= len s → len s - p < 255 * Z.of_nat fuel →
  ∃ init last,
    split255_loop fuel s p (p + 255) sx = Some (sx ++ init ++ [last]) ∧
    Forall (λ seg, String.length seg = 255%nat) init ∧
    (String.length last < 255)%nat ∧
    String.concat "" (init ++ [last]) = str_drop (Z.to_nat p) s ∧
    Z.of_nat (length init) = (len s - p) / 255.
Proof.
  induction fuel as [|fuel IH]; intros s p sx Hp Hfuel; [lia|].
  simpl. destruct (Z.ltb_spec (len s) (p + 255)) as [Hlt|Hge].
  - unfold go_slice_from. rewrite go_slice_Some by lia. simpl.
    exists [], (str_take (Z.to_nat (len s - p)) (str_drop (Z.to_nat p) s)).
    split_and!; [done|constructor| | |].
    + rewrite length_str_take, length_str_drop. unfold len in *. lia.
    + simpl. apply str_take_all. rewrite length_str_drop. unfold len in *. lia.
    + simpl. symmetry. apply Z.div_small. lia.
  - rewrite go_slice_Some by lia. simpl.
    set (seg := str_take (Z.to_nat (p + 255 - p)) (str_drop (Z.to_nat p) s)).
    destruct (IH s (p + 255) (sx ++ [seg])) as (init & last & Hrun & Hall & Hlast & Hcat & Hn);
      [lia..|].
    exists (seg :: init), last. split_and!.
    + rewrite Hrun. by rewrite <- (assoc_L (++)).
    + constructor; [|done]. unfold seg.
      rewrite length_str_take, length_str_drop. unfold len in *. lia.
    + done.
    + change ((seg :: init) ++ [last])%list with (seg :: (init ++ [last]))%list.
      rewrite concat_empty_cons, Hcat. unfold seg.
      replace (p + 255 - p) with 255 by lia.
      replace (Z.to_nat (p + 255)) with (Z.to_nat p + Z.to_nat 255)%nat by lia.
      rewrite <- str_drop_drop. apply str_take_drop.
    + simpl length. rewrite Nat2Z.inj_succ, Hn.
      replace (len s - p) with (len s - (p + 255) + 1 * 255) by lia.
      rewrite Z.div_add by lia. lia.
Qed.

(** [split255] gives the string back in segments. *)
Lemma split255_concat s :
  ∃ segs, split255 s = Some segs ∧ String.concat "" segs = s.
Proof.
  unfold split255. destruct (Z.ltb_spec (len s) 255) as [Hlt|Hge].
  - by exists [s].
  - destruct (split255_loop_segments (S (String.length s)) s 0 [])
      as (init & last & Hrun & _ & _ & Hcat & _).
    + pose proof (len_nonneg s). lia.
    + unfold len. lia.
    + by exists (init ++ [last])%list.
Qed.

(** X1. [split255] returns on every string: [len(s)/255] segments of
    exactly 255 bytes followed by one last segment of fewer than 255 bytes
    (possibly empty), and the segments concatenated are [s]. *)
Theorem split255_segments s :
  ∃ init last,
    split255 s = Some (init ++ [last]) ∧
    Forall (λ seg, String.length seg = 255%nat) init ∧
    (String.length last < 255)%nat ∧
    String.concat "" (init ++ [last]) = s ∧
    Z.of_nat (length init) = len s / 255.
Proof.
  unfold split255. destruct (Z.ltb_spec (len s) 255) as [Hlt|Hge].
  - exists [], s. split_and!; [done|constructor| |done|].
    + unfold len in Hlt. lia.
    + simpl. symmetry. apply Z.div_small. pose proof (len_nonneg s). lia.
  - destruct (split255_loop_segments (S (String.length s)) s 0 [])
      as (init & last & Hrun & Hall & Hlast & Hcat & Hn).
    + pose proof (len_nonneg s). lia.
    + unfold len. lia.
    + exists init, last. split_and!; try done.
      by rewrite Z.sub_0_r in Hn.
Qed.

(** ** Index keys *)

Section Keys.
Context `{!GoLib} `{!KubeTypes}.

Lemma stripDomain_Some qname zone :
  len zone <= len qname →
  stripDomain qname zone =
    Some (stripClosingDot (str_take (Z.to_nat (len qname - len zone)) qname)).
Proof.
  intros Hle. unfold stripDomain, go_slice_to.
  pose proof (len_nonneg zone).
  rewrite go_slice_Some by lia. simpl. by rewrite Z.sub_0_r.
Qed.

Lemma stripDomain_None qname zone :
  len qname < len zone → stripDomain qname zone = None.
Proof.
  intros Hlt. unfold stripDomain, go_slice_to.
  rewrite go_slice_None; [done|]. lia.
Qed.

Lemma getQueryIndexKeys_is_Some qName zone :
  len zone <= len qName → is_Some (getQueryIndexKeys qName zone).
Proof.
  intros Hle. unfold getQueryIndexKeys. rewrite stripDomain_Some by done.
  simpl. destruct (_ && _); by eexists.
Qed.

(** The wildcard name ends with the zone: it is at least as long. *)
Lemma toWildcardQName_length qName zone w :
  toWildcardQName qName zone = Some w → len zone <= len w.
Proof.
  unfold toWildcardQName. destruct (stripDomain qName zone) as [z|]; [|done].
  simpl. destruct (Split z ".") as [|p ps] eqn:Hsplit; cbv zeta; intros Hw;
    injection Hw as <-.
  - by apply Split_nonempty in Hsplit.
  - pose proof (length_Join_last "." ("*" :: ps) zone) as Hlen.
    unfold len. simpl in *. lia.
Qed.

Lemma getQueryIndexKeySets_is_Some qName zone :
  len zone <= len qName → is_Some (getQueryIndexKeySets qName zone).
Proof.
  intros Hle. unfold getQueryIndexKeySets.
  destruct (getQueryIndexKeys_is_Some qName zone Hle) as [specific ->]. simpl.
  destruct (toWildcardQName qName zone) as [w|] eqn:Hw.
  2:{ unfold toWildcardQName in Hw. rewrite stripDomain_Some in Hw by done.
      simpl in Hw. by destruct (Split _ "."). }
  simpl. destruct (String.eqb w ""); [by eexists|].
  destruct (getQueryIndexKeys_is_Some w zone) as [wildcard ->];
    [by eapply toWildcardQName_length|].
  by eexists.
Qed.

(** X2. The key sets of a query name are defined exactly when the zone
    is not longer than the name: [getQueryIndexKeySets] panics (in the
    slice of [stripDomain]) when the zone is longer, and never in the
    derivation of the wildcard keys. *)
Theorem getQueryIndexKeySets_defined qName zone :
  is_Some (getQueryIndexKeySets qName zone) ↔ len zone <= len qName.
Proof.
  split; [|apply getQueryIndexKeySets_is_Some].
  intros [ks Hks]. destruct (Z.le_gt_cases (len zone) (len qName)) as [|Hlt]; [done|].
  unfold getQueryIndexKeySets, getQueryIndexKeys in Hks.
  by rewrite stripDomain_None in Hks by lia.
Qed.

Lemma validateQueryZone_zone gw qname zone :
  validateQueryZone gw qname = Some (zone, true) →
  zone = str_drop (Z.to_nat (len qname - len (ZonesMatches (Zones gw) qname))) qname ∧
  len (ZonesMatches (Zones gw) qname) <= len qname.
Proof.
  unfold validateQueryZone. destruct (String.eqb _ ""); [done|].
  set (z := ZonesMatches (Zones gw) qname).
  destruct (Z.le_gt_cases (len z) (len qname)) as [Hle|Hgt].
  - unfold go_slice_from. pose proof (len_nonneg z).
    rewrite go_slice_Some by lia. simpl. intros [= <-]. split; [|done].
    apply str_take_all. rewrite length_str_drop. unfold len in *. lia.
  - unfold go_slice_from. rewrite go_slice_None by lia. done.
Qed.

(** X3. The zone that [validateQueryZone] returns for a query name is
    the tail of the name that has the length of the matched zone; hence it
    is a suffix of the name, and the key sets of the name in that zone are
    always defined. *)
Theorem validateQueryZone_suffix gw qname zone :
  validateQueryZone gw qname = Some (zone, true) →
  HasSuffix qname zone = true ∧
  len zone = len (ZonesMatches (Zones gw) qname) ∧
  is_Some (getQueryIndexKeySets qname zone).
Proof.
  intros [-> Hle]%validateQueryZone_zone.
  set (z := ZonesMatches (Zones gw) qname) in *.
  pose proof (len_nonneg z) as Hz.
  assert (len (str_drop (Z.to_nat (len qname - len z)) qname) = len z) as Hlen.
  { unfold len in *. rewrite length_str_drop. lia. }
  split_and!; [|done|].
  - unfold HasSuffix. rewrite Hlen.
    rewrite (proj2 (Z.leb_le _ _) Hle). simpl. by apply bool_decide_eq_true.
  - apply getQueryIndexKeySets_is_Some. lia.
Qed.

End Keys.

Lemma validateQueryZone_suffix_witness :
  let gw := gateway [] "" 100 false in
  HasSuffix "Svc1.Ns1.Example.COM." "Example.COM." = true ∧
  len "Example.COM." = len (ZonesMatches (Zones gw) "Svc1.Ns1.Example.COM.") ∧
  is_Some (getQueryIndexKeySets "Svc1.Ns1.Example.COM." "Example.COM.").
Proof.
  intros gw.
  apply (validateQueryZone_suffix gw "Svc1.Ns1.Example.COM." "Example.COM.").
  reflexivity.
Defined.

(** ** The dispatcher, further *)

Section Serving.
Context `{!GoLib} `{!KubeTypes}.

(** An SOA read leaves the gateway as it is or as the serial computation
    leaves it. *)
Lemma soa_gateway now gw state :
  (soa now gw state).2 = (calculateSerial now gw).2.
Proof. apply soa_serial. Qed.

Lemma serveSubApex_loop_Authoritative gw state addr m :
  Authoritative (fold_left (serveSubApex_step gw state) addr m) =
  Authoritative m.
Proof. by rewrite serveSubApex_loop. Qed.

(** [serveSubApex] returns the code 0 and writes an authoritative
    message. *)
Lemma serveSubApex_written now gw state :
  (serveSubApex now gw state).1.1 = 0 ∧
  Authoritative (serveSubApex now gw state).1.2 = true ∧
  ((serveSubApex now gw state).2 = gw ∨
   (serveSubApex now gw state).2 = (calculateSerial now gw).2).
Proof.
  unfold serveSubApex, subApex_nxdomain.
  pose proof (soa_gateway now gw state) as Hsoa.
  destruct (soa now gw state) as [rr gw1]. simpl in Hsoa. subst gw1.
  destruct (CountLabel _ =? 2); [|by auto].
  destruct (negb (String.eqb _ _)); [by auto|].
  rewrite serveSubApex_loop. simpl.
  destruct (negb (nonempty _)); simpl; by auto.
Qed.

Lemma checkApexQuery_loop_written now gw state zones :
  let chk := (checkApexQuery_loop now gw state zones).1 in
  let gw' := (checkApexQuery_loop now gw state zones).2 in
  (gw' = gw ∨ gw' = (calculateSerial now gw).2) ∧
  (handled chk = true →
   code chk = 0 ∧ ∃ m, written chk = Some m ∧ Authoritative m = true).
Proof.
  induction zones as [|z zs IH]; simpl; [by split; [left|]|].
  destruct (String.eqb _ z); [by split; [left|]|].
  destruct (IsSubDomain _ _); [|done].
  destruct (serveSubApex_written now gw state) as (Hc & Ha & Hg).
  destruct (serveSubApex now gw state) as [[ret m] gw1]. simpl in *.
  split; [done|]. intros _. split; [done|]. by exists m.
Qed.

(** The response assembly changes the gateway by at most one serial
    computation. *)
Lemma processQueryResponse_gateway now gw m state v4 v6 raws cnames root nd m' gw' :
  processQueryResponse now gw m state v4 v6 raws cnames root nd = Some (m', gw') →
  gw' = gw ∨ gw' = (calculateSerial now gw).2.
Proof.
  unfold processQueryResponse, handleAddressQuery, handleDataQuery,
    handleCNAMEQuery, handleNSQuery, setNegativeResponse.
  pose proof (soa_gateway now gw state) as Hsoa.
  destruct (soa now gw state) as [rr gw1]. simpl in Hsoa. subst gw1.
  intros Hm.
  repeat (case_match; simplify_option_eq; auto).
Qed.

(** X4. While the indexer has not synced, a query for a name of a served
    zone gets the server-failure code with an error; no message is written
    and the gateway is left as it is. *)
Theorem not_synced_is_server_failure now gw q zone :
  validateQueryZone gw (q_name q) = Some (zone, true) →
  HasSynced gw = false →
  ServeDNS now gw (Some q) =
    Some (Returned RcodeServerFailure true None, gw).
Proof.
  intros Hzone Hsync. unfold ServeDNS.
  change (QName {| Req := Some q; Zone := "" |}) with (q_name q).
  rewrite Hzone. cbn [mbind option_bind negb].
  destruct (validateQueryZone_zone _ _ _ Hzone) as [Hz Hle].
  destruct (getQueryIndexKeySets_is_Some (q_name q) zone) as [ks ->].
  { rewrite Hz. unfold len in *. rewrite length_str_drop. lia. }
  cbn [mbind option_bind]. by rewrite Hsync.
Qed.

(** X5. Every message that [ServeDNS] writes is authoritative and comes
    without an error; the code returned with it is success, or name error
    and then the message carries name error too. *)
Theorem ServeDNS_writes_authoritative now gw r c e m gw' :
  ServeDNS now gw r = Some (Returned c e (Some m), gw') →
  Authoritative m = true ∧ e = false ∧
  (c = RcodeSuccess ∨ c = RcodeNameError ∧ Rcode m = RcodeNameError).
Proof.
  unfold ServeDNS.
  destruct (validateQueryZone gw _) as [[zone valid]|]; [|done]. simpl.
  destruct valid; simpl; [|done].
  destruct (getQueryIndexKeySets _ zone) as [ks|]; [|done]. simpl.
  destruct (negb (HasSynced gw)); [done|].
  unfold checkApexQuery.
  pose proof (checkApexQuery_loop_written now gw
                {| Req := r; Zone := zone |} (Zones gw)) as [_ Hchk].
  destruct (checkApexQuery_loop now gw _ (Zones gw)) as [chk gw1]. simpl in *.
  destruct (handled chk) eqn:Hh.
  { destruct Hchk as (Hc & m0 & Hw & Ha); [done|].
    intros [= <- <- Hm <-]. rewrite Hw in Hm. injection Hm as <-.
    split_and!; [done|done|]. left. by rewrite Hc. }
  destruct (getMatchingAddressesWithCNAME gw1 ks) as [[addrs raws] cnames].
  destruct (_ && Fall_Through _ _); [done|].
  destruct (processQueryResponse _ _ _ _ _ _ _ _ _ _) as [[m1 gw2]|]; [|done].
  simpl. destruct (Z.eqb_spec (Rcode m1) RcodeNameError) as [Hr|Hr].
  - intros [= <- <- <- <-]. split_and!; [done|done|]. by right.
  - intros [= <- <- <- <-]. split_and!; [done|done|]. by left.
Qed.

(** X6. [ServeDNS] changes nothing of the gateway but the serial cell,
    and that by at most one serial computation: a gateway that is not
    dirty is left as it is. *)
Theorem ServeDNS_touches_serial_only now gw r served gw' :
  ServeDNS now gw r = Some (served, gw') →
  (gw' = gw ∨ gw' = (calculateSerial now gw).2) ∧
  (dirty gw = false → gw' = gw).
Proof.
  intros Hserve.
  assert (gw' = gw ∨ gw' = (calculateSerial now gw).2) as Hg.
  { revert Hserve. unfold ServeDNS.
    destruct (validateQueryZone gw _) as [[zone valid]|]; [|done]. simpl.
    destruct valid; simpl; [|by intros [= _ <-]; left].
    destruct (getQueryIndexKeySets _ zone) as [ks|]; [|done]. simpl.
    destruct (negb (HasSynced gw)); [by intros [= _ <-]; left|].
    unfold checkApexQuery.
    pose proof (checkApexQuery_loop_written now gw
                  {| Req := r; Zone := zone |} (Zones gw)) as [Hgw _].
    pose proof (checkApexQuery_loop_unhandled now gw
                  {| Req := r; Zone := zone |} (Zones gw)) as Hun.
    destruct (checkApexQuery_loop now gw _ (Zones gw)) as [chk gw1]. simpl in *.
    destruct (handled chk) eqn:Hh; [by intros [= _ <-]|].
    rewrite Hun by done.
    destruct (getMatchingAddressesWithCNAME gw ks) as [[addrs raws] cnames].
    destruct (_ && Fall_Through _ _); [by intros [= _ <-]; left|].
    destruct (processQueryResponse _ _ _ _ _ _ _ _ _ _) as [[m1 gw2]|] eqn:Hp;
      [|done].
    apply processQueryResponse_gateway in Hp. simpl.
    by destruct (_ =? _); intros [= _ <-]. }
  split; [done|]. intros Hclean.
  destruct Hg as [->| ->]; [done|]. by rewrite calculateSerial_clean.
Qed.

(** [ServeDNS] on a question that is answered from the index and does
    not fall through. *)
Lemma ServeDNS_answered now gw q zone isRoot addrs raws cnames :
  answers_from_index now gw q zone isRoot (addrs, raws, cnames) →
  negb (has_match (addrs, raws, cnames)) && Fall_Through gw (q_name q) = false →
  ServeDNS now gw (Some q) =
    '(m, gw') ← processQueryResponse now gw new_reply
                  {| Req := Some q; Zone := zone |}
                  (List.filter Is4 addrs) (List.filter Is6 addrs)
                  raws cnames isRoot (negb (has_match (addrs, raws, cnames)));
    let m := set_Authoritative true m in
    if Rcode m =? RcodeNameError
    then Some (Returned (Rcode m) false (Some m), gw')
    else Some (Returned RcodeSuccess false (Some m), gw').
Proof.
  intros Hidx Hfall. rewrite (ServeDNS_from_index _ _ _ _ _ _ _ _ Hidx).
  cbv zeta.
  assert (negb (nonempty addrs) && negb (nonempty raws) && negb (nonempty cnames)
          = negb (has_match (addrs, raws, cnames))) as ->.
  { unfold has_match. by destruct (nonempty addrs), (nonempty raws), (nonempty cnames). }
  by rewrite Hfall.
Qed.

(** X7. A query that is answered from the index is handed to the next
    plugin exactly when no table has any data for its keys and the
    fall-through zones cover its name; the gateway is left as it is. *)
Theorem falls_through_iff now gw q zone isRoot t :
  answers_from_index now gw q zone isRoot t →
  ServeDNS now gw (Some q) = Some (NextOrFailure, gw) ↔
  has_match t = false ∧ Fall_Through gw (q_name q) = true.
Proof.
  intros Hidx. destruct t as [[addrs raws] cnames].
  destruct (negb (has_match (addrs, raws, cnames)) && Fall_Through gw (q_name q))
    eqn:Hfall.
  - apply andb_true_iff in Hfall as [Hm%negb_true_iff Hf]. split; [done|].
    intros _. rewrite (ServeDNS_from_index _ _ _ _ _ _ _ _ Hidx).
    cbv zeta. unfold has_match in Hm. rewrite Hf.
    by destruct (nonempty addrs), (nonempty raws), (nonempty cnames).
  - rewrite (ServeDNS_answered _ _ _ _ _ _ _ _ Hidx Hfall). split.
    + intros Hs.
      destruct (processQueryResponse _ _ _ _ _ _ _ _ _ _) as [[m1 gw2]|]; [|done].
      simpl in Hs. by destruct (_ =? _).
    + intros [Hm Hf]. by rewrite Hm, Hf in Hfall.
Qed.

(** X8. An A query that is answered from the index for a name without
    IPv4 address and without CNAME (a name with IPv6 addresses only, or
    with texts only) gets no answer and the SOA in authority, with name
    error unless it is a root-zone query: unlike for AAAA, the data of the
    other family does not turn the name error into success. *)
Theorem a_without_ipv4_is_name_error now gw q zone isRoot addrs raws :
  q_type q = TypeA →
  answers_from_index now gw q zone isRoot (addrs, raws, []) →
  negb (has_match (addrs, raws, [])) && Fall_Through gw (q_name q) = false →
  List.filter Is4 addrs = [] →
  let state := {| Req := Some q; Zone := zone |} in
  let rcode := if isRoot then RcodeSuccess else RcodeNameError in
  ServeDNS now gw (Some q) =
    Some (Returned rcode false
            (Some {| Rcode := rcode; Authoritative := true;
                     Answer := []; Ns := [(soa now gw state).1];
                     Extra := [] |}),
          (soa now gw state).2).
Proof.
  intros Hq Hidx Hfall H4 state rcode.
  rewrite (ServeDNS_answered _ _ _ _ _ _ _ _ Hidx Hfall). fold state.
  unfold processQueryResponse, QType. simpl. rewrite Hq. simpl.
  rewrite H4. unfold handleAddressQuery, setNegativeResponse. simpl.
  destruct (soa now gw state) as [rr gw1]. simpl. unfold rcode.
  by destruct isRoot.
Qed.

(** X9. A TXT query that is answered from the index for a name without
    text gets no answer and the SOA in authority; the code is name error
    exactly when no table has any data for the name and the query is not a
    root-zone query, and success (no data) when the name has addresses or
    a CNAME. *)
Theorem txt_without_text now gw q zone isRoot addrs cnames :
  q_type q = TypeTXT →
  answers_from_index now gw q zone isRoot (addrs, [], cnames) →
  negb (has_match (addrs, [], cnames)) && Fall_Through gw (q_name q) = false →
  let state := {| Req := Some q; Zone := zone |} in
  let rcode := if negb isRoot && negb (has_match (addrs, [], cnames))
               then RcodeNameError else RcodeSuccess in
  ServeDNS now gw (Some q) =
    Some (Returned rcode false
            (Some {| Rcode := rcode; Authoritative := true;
                     Answer := []; Ns := [(soa now gw state).1];
                     Extra := [] |}),
          (soa now gw state).2).
Proof.
  intros Hq Hidx Hfall state rcode.
  rewrite (ServeDNS_answered _ _ _ _ _ _ _ _ Hidx Hfall). fold state.
  unfold processQueryResponse, QType. simpl. rewrite Hq. simpl.
  unfold handleDataQuery, setNegativeResponse. simpl.
  destruct (soa now gw state) as [rr gw1]. simpl. unfold rcode.
  by destruct (negb isRoot && _).
Qed.

(** X10. An SOA query that is answered from the index gets the zone's
    SOA record as its answer, with success, whatever the name and whatever
    the tables hold for it. *)
Theorem soa_query_answer now gw q zone isRoot t :
  q_type q = TypeSOA →
  answers_from_index now gw q zone isRoot t →
  negb (has_match t) && Fall_Through gw (q_name q) = false →
  let state := {| Req := Some q; Zone := zone |} in
  ServeDNS now gw (Some q) =
    Some (Returned RcodeSuccess false
            (Some {| Rcode := RcodeSuccess; Authoritative := true;
                     Answer := [(soa now gw state).1]; Ns := [];
                     Extra := [] |}),
          (soa now gw state).2).
Proof.
  intros Hq Hidx Hfall state. destruct t as [[addrs raws] cnames].
  rewrite (ServeDNS_answered _ _ _ _ _ _ _ _ Hidx Hfall). fold state.
  unfold processQueryResponse, QType. simpl. rewrite Hq. simpl.
  by destruct (soa now gw state) as [rr gw1].
Qed.

(** X11. An NS query at the root of the zone that is answered from the
    index gets the nameserver records as its answer and, as additional
    records, the records of the external-address callback with the SOA
    TTL; the gateway is left as it is. *)
Theorem ns_query_at_root now gw q zone t :
  q_type q = TypeNS →
  answers_from_index now gw q zone true t →
  negb (has_match t) && Fall_Through gw (q_name q) = false →
  let state := {| Req := Some q; Zone := zone |} in
  ServeDNS now gw (Some q) =
    Some (Returned RcodeSuccess false
            (Some {| Rcode := RcodeSuccess; Authoritative := true;
                     Answer := nameservers gw state; Ns := [];
                     Extra := map (set_Ttl (ttlSOA gw))
                                (callExternalAddrFunc gw state) |}),
          gw).
Proof.
  intros Hq Hidx Hfall state. destruct t as [[addrs raws] cnames].
  rewrite (ServeDNS_answered _ _ _ _ _ _ _ _ Hidx Hfall). fold state.
  unfold processQueryResponse, QType. simpl. rewrite Hq. simpl.
  unfold handleNSQuery. by rewrite addExtraRecords_Extra.
Qed.

(** X12. A query of a type other than A, AAAA, TXT, CNAME and SOA that is
    answered from the index for a name that is not the root of the zone
    (an NS query below the root, an MX or SRV query) gets no answer and
    the SOA in authority with success, never name error, whether the name
    exists or not. *)
Theorem other_types_are_nodata now gw q zone t :
  q_type q ∉ [TypeA; TypeAAAA; TypeTXT; TypeCNAME; TypeSOA] →
  answers_from_index now gw q zone false t →
  negb (has_match t) && Fall_Through gw (q_name q) = false →
  let state := {| Req := Some q; Zone := zone |} in
  ServeDNS now gw (Some q) =
    Some (Returned RcodeSuccess false
            (Some {| Rcode := RcodeSuccess; Authoritative := true;
                     Answer := []; Ns := [(soa now gw state).1];
                     Extra := [] |}),
          (soa now gw state).2).
Proof.
  intros Hq Hidx Hfall state. destruct t as [[addrs raws] cnames].
  rewrite (ServeDNS_answered _ _ _ _ _ _ _ _ Hidx Hfall). fold state.
  unfold processQueryResponse, QType, state. cbn [Req].
  assert (∀ ty, ty ∈ [TypeA; TypeAAAA; TypeTXT; TypeCNAME; TypeSOA] →
                (q_type q =? ty) = false) as Hty.
  { intros ty Hin. apply Z.eqb_neq. by intros <-. }
  rewrite !Hty by (rewrite !elem_of_cons; tauto).
  unfold handleNSQuery, setNegativeResponse.
  destruct (soa now gw _) as [rr gw1].
  by destruct (q_type q =? TypeNS).
Qed.

End Serving.

(** A query while the indexer has not synced. *)
Lemma not_synced_is_server_failure_witness :
  let gw := with_Controller {| hasSynced := false; controllers := [] |}
              test_gateway in
  ServeDNS 1700000000 gw
    (Some {| q_name := "svc1.ns1.example.com."; q_type := TypeA |}) =
  Some (Returned RcodeServerFailure true None, gw).
Proof.
  intros gw.
  apply (not_synced_is_server_failure 1700000000 gw
           {| q_name := "svc1.ns1.example.com."; q_type := TypeA |}
           "example.com."); reflexivity.
Defined.

(** Test 2 of the suite: the message written for a name that does not
    exist. *)
Lemma ServeDNS_writes_authoritative_witness :
  let r := Some {| q_name := "svcX.ns1.example.com."; q_type := TypeA |} in
  ∃ m gw',
    ServeDNS 1700000000 test_gateway r =
      Some (Returned RcodeNameError false (Some m), gw') ∧
    Authoritative m = true ∧ false = false ∧
    (RcodeNameError = RcodeSuccess ∨
     RcodeNameError = RcodeNameError ∧ Rcode m = RcodeNameError).
Proof.
  intros r. eexists _, _. split; [reflexivity|].
  eapply (ServeDNS_writes_authoritative 1700000000 test_gateway r).
  reflexivity.
Defined.

(** A negative answer from a dirty gateway and from a clean one. *)
Lemma ServeDNS_touches_serial_only_witness :
  let r := Some {| q_name := "svcX.ns1.example.com."; q_type := TypeA |} in
  let gw := gateway [] "" 100 true in
  ∃ served gw',
    ServeDNS 1700000000 gw r = Some (served, gw') ∧
    lastSerial gw' = 1700000000 ∧
    (gw' = gw ∨ gw' = (calculateSerial 1700000000 gw).2) ∧
    (dirty gw = false → gw' = gw).
Proof.
  intros r gw. eexists _, _. split; [reflexivity|]. split; [reflexivity|].
  eapply (ServeDNS_touches_serial_only 1700000000 gw r). reflexivity.
Defined.

(** The zone with fall-through: a name without data goes to the next
    plugin. *)
Lemma falls_through_iff_witness :
  let gw := with_Fall ["example.com."] test_gateway in
  let q := {| q_name := "svcX.ns1.example.com."; q_type := TypeA |} in
  ServeDNS 1700000000 gw (Some q) = Some (NextOrFailure, gw).
Proof.
  intros gw q.
  apply (falls_through_iff 1700000000 gw q "example.com." false ([], [], [])).
  - eexists. split_and!; reflexivity.
  - split; reflexivity.
Defined.

(** A service with an IPv6 address only: the A query gets name error. *)
Lemma a_without_ipv4_is_name_error_witness :
  let gw := gateway [ {| res_name := "Service";
                         res_lookup := addr_lookup
                           [("svc6.ns1", [ip6 "fd12:3456:789a:1::"])] |} ]
              "" 100 false in
  let q := {| q_name := "svc6.ns1.example.com."; q_type := TypeA |} in
  let state := {| Req := Some q; Zone := "example.com." |} in
  ServeDNS 1700000000 gw (Some q) =
    Some (Returned RcodeNameError false
            (Some {| Rcode := RcodeNameError; Authoritative := true;
                     Answer := []; Ns := [(soa 1700000000 gw state).1];
                     Extra := [] |}),
          (soa 1700000000 gw state).2).
Proof.
  intros gw q state.
  apply (a_without_ipv4_is_name_error 1700000000 gw q "example.com." false
           [ip6 "fd12:3456:789a:1::"] []); try reflexivity.
  eexists. split_and!; reflexivity.
Defined.

(** A TXT query for a service that has addresses: no data, success. *)
Lemma txt_without_text_witness :
  let q := {| q_name := "svc2.ns1.example.com."; q_type := TypeTXT |} in
  let state := {| Req := Some q; Zone := "example.com." |} in
  ServeDNS 1700000000 test_gateway (Some q) =
    Some (Returned RcodeSuccess false
            (Some {| Rcode := RcodeSuccess; Authoritative := true;
                     Answer := [];
                     Ns := [(soa 1700000000 test_gateway state).1];
                     Extra := [] |}),
          (soa 1700000000 test_gateway state).2).
Proof.
  intros q state.
  apply (txt_without_text 1700000000 test_gateway q "example.com." false
           [ip4 "192.0.0.2"] []); try reflexivity.
  eexists. split_and!; reflexivity.
Defined.

(** An SOA query for a name that does not exist. *)
Lemma soa_query_answer_witness :
  let q := {| q_name := "svcX.ns1.example.com."; q_type := TypeSOA |} in
  let state := {| Req := Some q; Zone := "example.com." |} in
  ServeDNS 1700000000 test_gateway (Some q) =
    Some (Returned RcodeSuccess false
            (Some {| Rcode := RcodeSuccess; Authoritative := true;
                     Answer := [(soa 1700000000 test_gateway state).1];
                     Ns := []; Extra := [] |}),
          (soa 1700000000 test_gateway state).2).
Proof.
  intros q state.
  apply (soa_query_answer 1700000000 test_gateway q "example.com." false
           ([], [], [])); try reflexivity.
  eexists. split_and!; reflexivity.
Defined.

(** The apex tests of the suite: the NS query at [example.com.]. *)
Lemma ns_query_at_root_witness :
  let q := {| q_name := "example.com."; q_type := TypeNS |} in
  let state := {| Req := Some q; Zone := "example.com." |} in
  ServeDNS 1700000000 test_gateway (Some q) =
    Some (Returned RcodeSuccess false
            (Some {| Rcode := RcodeSuccess; Authoritative := true;
                     Answer := nameservers test_gateway state; Ns := [];
                     Extra := map (set_Ttl (ttlSOA test_gateway))
                                (callExternalAddrFunc test_gateway state) |}),
          test_gateway).
Proof.
  intros q state.
  apply (ns_query_at_root 1700000000 test_gateway q "example.com."
           ([ip4 "192.0.0.3"], [], [])); try reflexivity.
  eexists. split_and!; reflexivity.
Defined.

(** The apex tests of the suite, below the root: an SRV query (type 33)
    for a name that does not exist. *)
Lemma other_types_are_nodata_witness :
  let q := {| q_name := "svcX.ns1.example.com."; q_type := 33 |} in
  let state := {| Req := Some q; Zone := "example.com." |} in
  ServeDNS 1700000000 test_gateway (Some q) =
    Some (Returned RcodeSuccess false
            (Some {| Rcode := RcodeSuccess; Authoritative := true;
                     Answer := [];
                     Ns := [(soa 1700000000 test_gateway state).1];
                     Extra := [] |}),
          (soa 1700000000 test_gateway state).2).
Proof.
  intros q state.
  apply (other_types_are_nodata 1700000000 test_gateway q "example.com."
           ([], [], [])); try reflexivity.
  - by apply (bool_decide_unpack _).
  - eexists. split_and!; reflexivity.
Defined.

(** ** Record constructors: duplicates *)

Lemma first_seen_elem_of l x : x ∈ first_seen l ↔ x ∈ l.
Proof.
  induction l as [|y l IH]; simpl; [done|].
  rewrite !elem_of_cons, list_elem_of_filter, IH.
  destruct (decide (x = y)); tauto.
Qed.

Lemma first_seen_NoDup l : NoDup (first_seen l).
Proof.
  induction l as [|y l IH]; simpl; [constructor|].
  constructor; [|by apply NoDup_filter].
  rewrite list_elem_of_filter. by intros [Hne _].
Qed.

(** What a loop with the [dup] set adds for the values [l]. *)
Lemma filter_first_seen_cons (dup : gset string) x l :
  filter (λ y, y ∉ dup) (first_seen (x :: l)) =
  if decide (x ∈ dup) then filter (λ y, y ∉ dup) (first_seen l)
  else x :: filter (λ y, y ∉ {[x]} ∪ dup) (first_seen l).
Proof.
  simpl. rewrite filter_cons, list_filter_filter.
  destruct (decide (x ∈ dup)) as [Hx|Hx].
  - rewrite decide_False by (intros Hn; by apply Hn).
    apply list_filter_iff. intros y.
    split; [by intros [Hy _]|]. intros Hy. split; [done|]. by intros ->.
  - rewrite decide_True by done.
    rewrite (list_filter_iff (λ y, (y ∉ dup) ∧ y ≠ x) (λ y, y ∉ {[x]} ∪ dup));
      [done|].
    intros y. rewrite not_elem_of_union, not_elem_of_singleton. tauto.
Qed.

Lemma filter_empty_set (dup : gset string) (l : list string) :
  dup = ∅ → filter (λ y, y ∉ dup) l = l.
Proof.
  intros ->. induction l as [|x l IH]; [done|]. rewrite filter_cons.
  rewrite decide_True by apply not_elem_of_empty. by rewrite IH.
Qed.

Section Duplicates.
Context `{!KubeTypes}.

Lemma A_loop_first_seen gw name results : ∀ dup records,
  map record_value (A_loop gw name results dup records) =
  map record_value records ++
  filter (λ y, y ∉ dup) (first_seen (map Addr_String results)).
Proof.
  induction results as [|r rs IH]; intros dup records.
  { simpl. by rewrite app_nil_r. }
  change (map Addr_String (r :: rs)) with (Addr_String r :: map Addr_String rs).
  rewrite filter_first_seen_cons. simpl. case_decide; [apply IH|].
  rewrite IH, map_app. simpl. by rewrite <- (assoc_L (++)).
Qed.

Lemma AAAA_loop_first_seen gw name results : ∀ dup records,
  map record_value (AAAA_loop gw name results dup records) =
  map record_value records ++
  filter (λ y, y ∉ dup) (first_seen (map Addr_String results)).
Proof.
  induction results as [|r rs IH]; intros dup records.
  { simpl. by rewrite app_nil_r. }
  change (map Addr_String (r :: rs)) with (Addr_String r :: map Addr_String rs).
  rewrite filter_first_seen_cons. simpl. case_decide; [apply IH|].
  rewrite IH, map_app. simpl. by rewrite <- (assoc_L (++)).
Qed.

Lemma TXT_loop_first_seen gw name results : ∀ dup records out,
  TXT_loop gw name results dup records = Some out →
  map record_value out =
  map record_value records ++ filter (λ y, y ∉ dup) (first_seen results).
Proof.
  induction results as [|r rs IH]; intros dup records out.
  { simpl. intros [= <-]. by rewrite app_nil_r. }
  rewrite filter_first_seen_cons. simpl. case_decide; [apply IH|].
  destruct (split255_concat r) as (segs & -> & Hcat).
  simpl. intros Hout. rewrite (IH _ _ _ Hout), map_app. simpl.
  unfold record_value at 2. simpl. rewrite Hcat.
  by rewrite <- (assoc_L (++)).
Qed.

(** X13. [A] and [AAAA] build one record for each distinct address, in
    the order of the first occurrences: the addresses of the records, in
    their string form, are those of the input without the later
    duplicates, and every record has the given owner name, class IN and
    the low TTL. *)
Theorem address_records_first_seen gw name results :
  map record_value (A gw name results) = first_seen (map Addr_String results) ∧
  map record_value (AAAA gw name results) = first_seen (map Addr_String results) ∧
  NoDup (map record_value (A gw name results)) ∧
  Forall (λ rr, Hdr rr = {| Name := name; Rrtype := TypeA;
                            Class_ := ClassINET; Ttl := ttlLow gw |})
    (A gw name results) ∧
  Forall (λ rr, Hdr rr = {| Name := name; Rrtype := TypeAAAA;
                            Class_ := ClassINET; Ttl := ttlLow gw |})
    (AAAA gw name results).
Proof.
  assert (map record_value (A gw name results) =
          first_seen (map Addr_String results)) as HA.
  { unfold A. rewrite A_loop_first_seen. simpl. by apply filter_empty_set. }
  split_and!.
  - done.
  - unfold AAAA. rewrite AAAA_loop_first_seen. simpl. by apply filter_empty_set.
  - rewrite HA. apply first_seen_NoDup.
  - by apply A_Forall.
  - by apply AAAA_Forall.
Qed.

(** X14. [TXT] always returns: one TXT record for each distinct text, in
    the order of the first occurrences, with the given owner name, class
    IN and the low TTL; the segments of each record, concatenated, give
    the text back. *)
Theorem text_records_first_seen gw name results :
  ∃ records,
    TXT gw name results = Some records ∧
    map record_value records = first_seen results ∧
    Forall (λ rr, Hdr rr = {| Name := name; Rrtype := TypeTXT;
                              Class_ := ClassINET; Ttl := ttlLow gw |} ∧
                  ∃ txt, Data rr = Data_TXT txt)
      records.
Proof.
  destruct (TXT_Forall gw name
              (λ rr, Hdr rr = {| Name := name; Rrtype := TypeTXT;
                                 Class_ := ClassINET; Ttl := ttlLow gw |} ∧
                     ∃ txt, Data rr = Data_TXT txt) results)
    as (records & Hrun & Hall).
  { intros txt. split; [done|]. by exists txt. }
  exists records. split_and!; [done| |done].
  unfold TXT in Hrun. rewrite (TXT_loop_first_seen _ _ _ _ _ _ Hrun). simpl.
  by apply filter_empty_set.
Qed.

(** What holds of the record that [A] builds for each address of the
    input holds of all the records it returns. *)
Lemma A_loop_Forall_in gw name (P : RR → Prop) results :
  (∀ a, a ∈ results →
        P {| Hdr := {| Name := name; Rrtype := TypeA;
                       Class_ := ClassINET; Ttl := ttlLow gw |};
             Data := Data_A a |}) →
  ∀ dup records,
    Forall P records → Forall P (A_loop gw name results dup records).
Proof.
  induction results as [|r rs IH]; intros HP dup records Hrec; simpl; [done|].
  assert (∀ a, a ∈ rs →
            P {| Hdr := {| Name := name; Rrtype := TypeA;
                           Class_ := ClassINET; Ttl := ttlLow gw |};
                 Data := Data_A a |}) as HP'.
  { intros a Ha. apply HP. by right. }
  case_decide; [by apply IH|]. apply IH; [done|].
  apply Forall_app. split; [done|]. constructor; [|constructor].
  apply HP. by left.
Qed.

Lemma AAAA_loop_Forall_in gw name (P : RR → Prop) results :
  (∀ a, a ∈ results →
        P {| Hdr := {| Name := name; Rrtype := TypeAAAA;
                       Class_ := ClassINET; Ttl := ttlLow gw |};
             Data := Data_AAAA a |}) →
  ∀ dup records,
    Forall P records → Forall P (AAAA_loop gw name results dup records).
Proof.
  induction results as [|r rs IH]; intros HP dup records Hrec; simpl; [done|].
  assert (∀ a, a ∈ rs →
            P {| Hdr := {| Name := name; Rrtype := TypeAAAA;
                           Class_ := ClassINET; Ttl := ttlLow gw |};
                 Data := Data_AAAA a |}) as HP'.
  { intros a Ha. apply HP. by right. }
  case_decide; [by apply IH|]. apply IH; [done|].
  apply Forall_app. split; [done|]. constructor; [|constructor].
  apply HP. by left.
Qed.

(** The records that [A] builds from IPv4 addresses hold IPv4 addresses;
    the same for [AAAA] and IPv6. *)
Lemma A_filter_Is4 gw name addrs :
  Forall (λ rr, Rrtype (Hdr rr) = TypeA ∧ ∃ a, Data rr = Data_A a ∧ Is4 a = true)
    (A gw name (List.filter Is4 addrs)).
Proof.
  apply A_loop_Forall_in; [|constructor].
  intros a [_ Ha]%list_elem_of_In%filter_In. split; [done|]. by exists a.
Qed.

Lemma AAAA_filter_Is6 gw name addrs :
  Forall (λ rr, Rrtype (Hdr rr) = TypeAAAA ∧
                ∃ a, Data rr = Data_AAAA a ∧ Is6 a = true)
    (AAAA gw name (List.filter Is6 addrs)).
Proof.
  apply AAAA_loop_Forall_in; [|constructor].
  intros a [_ Ha]%list_elem_of_In%filter_In. split; [done|]. by exists a.
Qed.

End Duplicates.

(** ** Address queries through a CNAME *)

Section Chains.
Context `{!GoLib} `{!KubeTypes}.

Lemma addResolvedAddresses_Answer gw m cname addrs needIPv4 needIPv6 :
  addResolvedAddresses gw m cname addrs needIPv4 needIPv6 =
  set_Answer
    (Answer m ++
     (if needIPv4 then A gw (Fqdn cname) (List.filter Is4 addrs) else []) ++
     (if needIPv6 then AAAA gw (Fqdn cname) (List.filter Is6 addrs) else []))
    m.
Proof.
  unfold addResolvedAddresses.
  generalize (List.filter Is4 addrs) as l4, (List.filter Is6 addrs) as l6.
  intros l4 l6.
  destruct m, needIPv4, needIPv6, l4, l6; simpl; unfold set_Answer; simpl;
    rewrite ?app_nil_r, <- ?(assoc_L (++)); reflexivity.
Qed.

(** What [processCNAMEWithResolution] leaves in the answer: the CNAME
    record, then the addresses of the wanted family that the chain
    resolves to, owned by the target. *)
Lemma processCNAMEWithResolution_Answer gw m state cname needIPv4 needIPv6 m' :
  processCNAMEWithResolution gw m state cname needIPv4 needIPv6 = Some m' →
  ∃ res,
    resolveCNAMEChain gw cname (Zone state) (CNAMEMaxDepth gw) = Some res ∧
    let resolved := match res with Resolved l => l | Failed _ => [] end in
    m' = set_Answer
           (Answer m ++ [CNAME gw (Request_Name state) cname] ++
            (if needIPv4 then A gw (Fqdn cname) (List.filter Is4 resolved) else []) ++
            (if needIPv6 then AAAA gw (Fqdn cname) (List.filter Is6 resolved) else []))
           m.
Proof.
  unfold processCNAMEWithResolution.
  destruct (resolveCNAMEChain gw cname _ _) as [res|]; [|done]. simpl.
  intros Hm. exists res. split; [done|].
  destruct res as [resolved|err]; simpl.
  2:{ injection Hm as <-. destruct m, needIPv4, needIPv6; reflexivity. }
  destruct resolved as [|a resolved']; simpl in Hm.
  { injection Hm as <-. destruct m, needIPv4, needIPv6; reflexivity. }
  injection Hm as <-. rewrite addResolvedAddresses_Answer.
  destruct m. unfold set_Answer. simpl. by rewrite <- (assoc_L (++)).
Qed.

Lemma processCNAMEWithResolution_Resolved gw m state cname needIPv4 needIPv6
    resolved :
  resolveCNAMEChain gw cname (Zone state) (CNAMEMaxDepth gw) =
    Some (Resolved resolved) →
  processCNAMEWithResolution gw m state cname needIPv4 needIPv6 =
    Some (set_Answer
            (Answer m ++ [CNAME gw (Request_Name state) cname] ++
             (if needIPv4 then A gw (Fqdn cname) (List.filter Is4 resolved) else []) ++
             (if needIPv6 then AAAA gw (Fqdn cname) (List.filter Is6 resolved) else []))
            m).
Proof.
  intros Hres.
  destruct (processCNAMEWithResolution gw m state cname needIPv4 needIPv6)
    as [m'|] eqn:Hp.
  - apply processCNAMEWithResolution_Answer in Hp as (res & Hres' & ->).
    rewrite Hres in Hres'. by injection Hres' as <-.
  - unfold processCNAMEWithResolution in Hp. rewrite Hres in Hp. simpl in Hp.
    by destruct (negb (nonempty resolved)).
Qed.

(** The three outcomes of [handleAddressQuery] for the answer section. *)
Lemma handleAddressQuery_Answer now gw state addrs cnames root isIPv4 m' gw' :
  handleAddressQuery now gw new_reply state addrs cnames root isIPv4 =
    Some (m', gw') →
  Answer m' = [] ∨
  (∃ cname resolved,
     Answer m' =
       CNAME gw (Request_Name state) cname ::
       (if isIPv4 then A gw (Fqdn cname) (List.filter Is4 resolved)
        else AAAA gw (Fqdn cname) (List.filter Is6 resolved))) ∨
  Answer m' = (if isIPv4 then A gw (Request_Name state) addrs
               else AAAA gw (Request_Name state) addrs).
Proof.
  unfold handleAddressQuery, setNegativeResponse.
  destruct (negb (nonempty addrs) && negb (nonempty cnames)).
  { destruct (soa now gw state) as [rr gw1]. intros [= <- <-]. left.
    by destruct (negb root). }
  destruct cnames as [|cname rest].
  { destruct isIPv4; intros [= <- <-]; by right; right. }
  destruct (processCNAMEWithResolution _ _ _ _ _ _) as [m1|] eqn:Hp; [|done].
  simpl. intros [= <- <-].
  apply processCNAMEWithResolution_Answer in Hp as (res & _ & ->).
  right; left. exists cname, (match res with Resolved l => l | Failed _ => [] end).
  simpl. destruct isIPv4; simpl; by rewrite ?app_nil_r.
Qed.

(** X15. The answer of an A query that is answered from the index holds
    only CNAME records and A records with IPv4 addresses, and that of an
    AAAA query only CNAME records and AAAA records with IPv6 addresses,
    also when the addresses come from a CNAME chain. *)
Theorem address_answers_match_family now gw q zone isRoot t c m gw' :
  answers_from_index now gw q zone isRoot t →
  ServeDNS now gw (Some q) = Some (Returned c false (Some m), gw') →
  (q_type q = TypeA →
   Forall (λ rr, Rrtype (Hdr rr) = TypeCNAME ∨
                 Rrtype (Hdr rr) = TypeA ∧
                 ∃ a, Data rr = Data_A a ∧ Is4 a = true) (Answer m)) ∧
  (q_type q = TypeAAAA →
   Forall (λ rr, Rrtype (Hdr rr) = TypeCNAME ∨
                 Rrtype (Hdr rr) = TypeAAAA ∧
                 ∃ a, Data rr = Data_AAAA a ∧ Is6 a = true) (Answer m)).
Proof.
  intros Hidx Hserve. destruct t as [[addrs raws] cnames].
  rewrite (ServeDNS_from_index _ _ _ _ _ _ _ _ Hidx) in Hserve.
  cbv zeta in Hserve.
  destruct (_ && Fall_Through _ _); [done|].
  destruct (processQueryResponse _ _ _ _ _ _ _ _ _ _) as [[m1 gw1]|] eqn:Hp;
    [|done].
  simpl in Hserve.
  assert (Answer m = Answer m1) as ->.
  { by destruct (_ =? _); injection Hserve as _ <- _. }
  clear Hserve. unfold processQueryResponse, QType in Hp. simpl in Hp.
  split; intros Hq; rewrite Hq in Hp; simpl in Hp.
  - apply handleAddressQuery_Answer in Hp as [->|[(cname & resolved & ->)| ->]].
    + constructor.
    + constructor; [by left|].
      eapply Forall_impl; [apply A_filter_Is4|]. intros rr Hrr. by right.
    + eapply Forall_impl; [apply A_filter_Is4|]. intros rr Hrr. by right.
  - destruct (handleAddressQuery _ _ _ _ _ _ _ _) as [[m2 gw2]|] eqn:Hh; [|done].
    simpl in Hp.
    assert (Answer m1 = Answer m2) as ->.
    { by destruct (_ && nonempty _); injection Hp as <- _. }
    apply handleAddressQuery_Answer in Hh as [->|[(cname & resolved & ->)| ->]].
    + constructor.
    + constructor; [by left|].
      eapply Forall_impl; [apply AAAA_filter_Is6|]. intros rr Hrr. by right.
    + eapply Forall_impl; [apply AAAA_filter_Is6|]. intros rr Hrr. by right.
Qed.

(** X16. An A or AAAA query that is answered from the index for a name
    with a CNAME whose chain resolves gets the CNAME record of the first
    target followed by the addresses of the queried family that the chain
    resolves to, all owned by that first target; addresses that the lookup
    returned for the name itself are left out. *)
Theorem resolved_chain_answer now gw q zone isRoot addrs raws cname rest resolved :
  q_type q = TypeA ∨ q_type q = TypeAAAA →
  answers_from_index now gw q zone isRoot (addrs, raws, cname :: rest) →
  resolveCNAMEChain gw cname zone (CNAMEMaxDepth gw) = Some (Resolved resolved) →
  ServeDNS now gw (Some q) =
    Some (Returned RcodeSuccess false
            (Some {| Rcode := RcodeSuccess; Authoritative := true;
                     Answer :=
                       CNAME gw (ToLower (q_name q)) cname ::
                       (if q_type q =? TypeA
                        then A gw (Fqdn cname) (List.filter Is4 resolved)
                        else AAAA gw (Fqdn cname) (List.filter Is6 resolved));
                     Ns := []; Extra := [] |}),
          gw).
Proof.
  intros Hq Hidx Hres.
  rewrite (ServeDNS_from_index _ _ _ _ _ _ _ _ Hidx).
  cbv zeta. rewrite !andb_false_r. simpl.
  unfold processQueryResponse, QType. simpl.
  destruct Hq as [-> | ->]; simpl;
    unfold handleAddressQuery; rewrite ?andb_false_r; simpl;
    rewrite (processCNAMEWithResolution_Resolved gw new_reply
               {| Req := Some q; Zone := zone |} cname _ _ resolved Hres);
    simpl; rewrite ?andb_false_r, ?app_nil_r; reflexivity.
Qed.

(** A call on a name that is shorter than the zone panics in the
    derivation of the index keys. *)
Lemma resolve_short_target gw cname zone maxDepth visited :
  0 < maxDepth →
  canonicalizeDNSName cname ∉ visited →
  len (canonicalizeDNSName cname) < len (canonicalizeDNSName zone) →
  resolveCNAMEChainWithVisited gw cname zone maxDepth visited = None.
Proof.
  intros Hpos Hvis Hlen. rewrite resolveCNAMEChainWithVisited_unfold.
  destruct (Z.leb_spec maxDepth 0); [lia|].
  unfold resolve_body. rewrite decide_False by done.
  unfold getQueryIndexKeySets, getQueryIndexKeys.
  by rewrite stripDomain_None.
Qed.

(** X17. An A or AAAA query that is answered from the index for a name
    with a CNAME whose target, made canonical, is shorter than the zone
    panics: with a positive depth limit the resolver slices the target
    out of range, and no message is written. *)
Theorem short_cname_target_panics now gw q zone isRoot addrs raws cname rest :
  q_type q = TypeA ∨ q_type q = TypeAAAA →
  answers_from_index now gw q zone isRoot (addrs, raws, cname :: rest) →
  0 < CNAMEMaxDepth gw →
  len (canonicalizeDNSName cname) < len (canonicalizeDNSName zone) →
  ServeDNS now gw (Some q) = None.
Proof.
  intros Hq Hidx Hpos Hlen.
  rewrite (ServeDNS_from_index _ _ _ _ _ _ _ _ Hidx).
  cbv zeta. rewrite !andb_false_r. simpl.
  unfold processQueryResponse, QType. simpl.
  destruct Hq as [-> | ->]; simpl;
    unfold handleAddressQuery, processCNAMEWithResolution, resolveCNAMEChain;
    rewrite ?andb_false_r; simpl;
    rewrite resolve_short_target by (done || apply not_elem_of_empty);
    reflexivity.
Qed.

(** A resolution that does not end in the depth error does not depend on
    the depth that was left. *)
Lemma resolve_depth_mono gw depth : ∀ cname zone visited r visited' depth',
  resolve_depth gw depth cname zone visited = Some (r, visited') →
  (∀ name, r ≠ Failed (ErrDepthLimit name)) →
  (depth ≤ depth')%nat →
  resolve_depth gw depth' cname zone visited = Some (r, visited').
Proof.
  induction depth as [|depth IH]; intros cname zone visited r visited' depth'.
  { simpl. intros [= <- _] Hr. by destruct (Hr cname). }
  intros Hrun Hr Hle. destruct depth' as [|depth']; [lia|].
  simpl in *. unfold resolve_body in *.
  case_decide; [done|].
  destruct (getQueryIndexKeySets _ _) as [ks|]; [|done]. simpl in *.
  destruct (getMatchingAddressesWithCNAME gw ks) as [[addrs raws] nextCnames].
  destruct (nonempty addrs); [done|].
  destruct nextCnames as [|next rest]; [done|].
  destruct (resolve_depth gw depth next _ _) as [[r1 v1]|] eqn:Hrec; [|done].
  simpl in Hrun. injection Hrun as <- <-.
  rewrite (IH _ _ _ _ _ depth' Hrec Hr) by lia. done.
Qed.

(** X18. A resolution that does not fail with the depth error gives the
    same result under every larger depth limit. *)
Theorem larger_depth_same_result gw cname zone maxDepth maxDepth' r :
  resolveCNAMEChain gw cname zone maxDepth = Some r →
  (∀ name, r ≠ Failed (ErrDepthLimit name)) →
  maxDepth <= maxDepth' →
  resolveCNAMEChain gw cname zone maxDepth' = Some r.
Proof.
  unfold resolveCNAMEChain, resolveCNAMEChainWithVisited.
  intros Hrun Hr Hle.
  destruct (resolve_depth gw (Z.to_nat maxDepth) cname zone ∅)
    as [[r1 v1]|] eqn:Hrec; [|done].
  simpl in Hrun. injection Hrun as ->.
  rewrite (resolve_depth_mono _ _ _ _ _ _ _ (Z.to_nat maxDepth') Hrec Hr) by lia.
  done.
Qed.

(** X19. On return the resolver leaves the visited map as it was at the
    call, whatever the result: every mark it sets is deleted again. *)
Theorem resolver_restores_visited gw cname zone maxDepth visited r visited' :
  resolveCNAMEChainWithVisited gw cname zone maxDepth visited = Some (r, visited') →
  visited' = visited.
Proof. apply resolve_depth_restores_visited. Qed.

End Chains.

(** Test 16 of the suite: the AAAA query for a service with addresses of
    both families. *)
Lemma address_answers_match_family_witness :
  let q := {| q_name := "svc1.ns1.example.com."; q_type := TypeAAAA |} in
  ∃ m,
    ServeDNS 1700000000 test_gateway (Some q) =
      Some (Returned RcodeSuccess false (Some m), test_gateway) ∧
    Answer m = AAAA test_gateway "svc1.ns1.example.com."
                 [ip6 "fd12:3456:789a:1::"] ∧
    (q_type q = TypeA →
     Forall (λ rr, Rrtype (Hdr rr) = TypeCNAME ∨
                   Rrtype (Hdr rr) = TypeA ∧
                   ∃ a, Data rr = Data_A a ∧ Is4 a = true) (Answer m)) ∧
    (q_type q = TypeAAAA →
     Forall (λ rr, Rrtype (Hdr rr) = TypeCNAME ∨
                   Rrtype (Hdr rr) = TypeAAAA ∧
                   ∃ a, Data rr = Data_AAAA a ∧ Is6 a = true) (Answer m)).
Proof.
  intros q. eexists. split; [reflexivity|]. split; [reflexivity|].
  eapply (address_answers_match_family 1700000000 test_gateway q
            "example.com." false);
    [eexists; split_and!; reflexivity|reflexivity].
Defined.

(** The chain of the test suite: [www -> app -> service -> api]. *)
Lemma resolved_chain_answer_witness :
  let q := {| q_name := "www.example.com."; q_type := TypeA |} in
  ServeDNS 1700000000 chain_gateway (Some q) =
    Some (Returned RcodeSuccess false
            (Some {| Rcode := RcodeSuccess; Authoritative := true;
                     Answer :=
                       CNAME chain_gateway "www.example.com." "app.example.com" ::
                       A chain_gateway "app.example.com."
                         [ip4 "10.0.1.100"; ip4 "10.0.1.101"];
                     Ns := []; Extra := [] |}),
          chain_gateway).
Proof.
  intros q.
  refine (resolved_chain_answer 1700000000 chain_gateway q "example.com." false
            [] [] "app.example.com" [] [ip4 "10.0.1.100"; ip4 "10.0.1.101"]
            _ _ _).
  - by left.
  - eexists. split_and!; reflexivity.
  - reflexivity.
Defined.

(** A CNAME to the external name [a.io] in the zone [example.com.]. *)
Lemma short_cname_target_panics_witness :
  let gw := gateway [ {| res_name := "DNSEndpoint";
                         res_lookup := cname_lookup
                           [("ext.example.com", ["a.io"])] |} ]
              "" 100 false in
  ServeDNS 1700000000 gw
    (Some {| q_name := "ext.example.com."; q_type := TypeA |}) = None.
Proof.
  intros gw.
  apply (short_cname_target_panics 1700000000 gw
           {| q_name := "ext.example.com."; q_type := TypeA |}
           "example.com." false [] [] "a.io" []).
  - by left.
  - eexists. split_and!; reflexivity.
  - reflexivity.
  - reflexivity.
Defined.

(** The chain [app -> service -> api] resolves within depth 3, and so
    within the default depth 10. *)
Lemma larger_depth_same_result_witness :
  resolveCNAMEChain chain_gateway "app.example.com" "example.com." 10 =
  Some (Resolved [ip4 "10.0.1.100"; ip4 "10.0.1.101"]).
Proof.
  apply (larger_depth_same_result chain_gateway "app.example.com"
           "example.com." 3 10).
  - reflexivity.
  - intros name. discriminate.
  - lia.
Defined.

(** A resolution inside a chain: the name [www.example.com.] is marked
    at the call and still marked, alone, on return. *)
Lemma resolver_restores_visited_witness :
  ∃ r visited',
    resolveCNAMEChainWithVisited chain_gateway "app.example.com" "example.com."
      9 {["www.example.com."]} = Some (r, visited') ∧
    visited' = {["www.example.com."]}.
Proof.
  eexists _, _. split; [reflexivity|].
  eapply (resolver_restores_visited chain_gateway "app.example.com"
            "example.com." 9 {["www.example.com."]}).
  reflexivity.
Defined.

(** ** Zone transfer, further *)

Section TransferRecords.
Context `{!GoLib} `{!KubeTypes} `{!KubeLib}.

Lemma A_transfer_records gw fqdn addrs :
  Forall (λ rr, Name (Hdr rr) = fqdn ∧ transfer_record gw rr)
    (A gw fqdn (ipv4Only addrs)).
Proof.
  apply A_loop_Forall_in; [|constructor].
  intros a [_ Ha]%list_elem_of_In%filter_In.
  split; [done|]. split_and!; [done|done|]. left. split; [done|]. by exists a.
Qed.

Lemma AAAA_transfer_records gw fqdn addrs :
  Forall (λ rr, Name (Hdr rr) = fqdn ∧ transfer_record gw rr)
    (AAAA gw fqdn (ipv6Only addrs)).
Proof.
  apply AAAA_loop_Forall_in; [|constructor].
  intros a [_ Ha]%list_elem_of_In%filter_In.
  split; [done|]. split_and!; [done|done|]. right; left. split; [done|].
  by exists a.
Qed.

Lemma TXT_transfer_records gw fqdn targets :
  ∃ out, TXT gw fqdn targets = Some out ∧
         Forall (λ rr, Name (Hdr rr) = fqdn ∧ transfer_record gw rr) out.
Proof.
  apply TXT_Forall. intros txt.
  split; [done|]. split_and!; [done|done|]. right; right. split; [done|].
  by exists txt.
Qed.

Lemma addRecords_zone_groups gw zone records hostname rrs :
  zone_groups gw zone records →
  HasSuffix hostname zone = true →
  Forall (λ rr, Name (Hdr rr) = Fqdn hostname ∧ transfer_record gw rr) rrs →
  zone_groups gw zone (addRecords records (Fqdn hostname) rrs).
Proof.
  intros Hinv Hsuf Hrrs. unfold addRecords.
  destruct (nonempty rrs); [|done].
  intros k l. rewrite lookup_insert. case_decide as Hk; [|apply Hinv].
  subst k. intros [= <-]. exists hostname. split_and!; [done|done|].
  apply Forall_app. split; [|done].
  destruct (records !! Fqdn hostname) as [old|] eqn:Hold; simpl; [|done].
  by destruct (Hinv _ _ Hold) as (h & _ & _ & Hall).
Qed.

Lemma addHostRecords_zone_groups gw zone records hostname addrs :
  zone_groups gw zone records →
  HasSuffix hostname zone = true →
  zone_groups gw zone (addHostRecords gw records (Fqdn hostname) addrs).
Proof.
  intros Hinv Hsuf. unfold addHostRecords.
  apply addRecords_zone_groups; [apply addRecords_zone_groups| |]; try done.
  - apply A_transfer_records.
  - apply AAAA_transfer_records.
Qed.

(** The guarded step that closes the loops over the host names. *)
Lemma host_step_zone_groups gw zone records hostname addrs :
  zone_groups gw zone records →
  zone_groups gw zone
    (if negb (HasSuffix hostname zone) then records
     else addHostRecords gw records (Fqdn hostname) addrs).
Proof.
  intros Hinv. destruct (HasSuffix hostname zone) eqn:Hsuf; simpl; [|done].
  by apply addHostRecords_zone_groups.
Qed.

Lemma transferIngresses_zone_groups gw records zone :
  zone_groups gw zone records →
  zone_groups gw zone (transferIngresses gw records zone).
Proof.
  intros Hinv. unfold transferIngresses.
  apply fold_left_inv; [|done]. intros s ctrl Hs.
  apply fold_left_inv; [|done]. clear. intros s item Hs.
  unfold transferIngresses_item. destruct item; try done.
  repeat (case_match; try done);
    (apply fold_left_inv; [|done]; clear; intros s host Hs;
     case_match; [done|]; by apply host_step_zone_groups).
Qed.

Lemma transferServices_zone_groups gw records zone :
  zone_groups gw zone records →
  zone_groups gw zone (transferServices gw records zone).
Proof.
  intros Hinv. unfold transferServices.
  apply fold_left_inv; [|done]. intros s ctrl Hs.
  apply fold_left_inv; [|done]. clear. intros s item Hs.
  unfold transferServices_item. destruct item; try done.
  repeat (case_match; try done);
    (apply fold_left_inv; [|done]; clear; intros s host Hs;
     by apply host_step_zone_groups).
Qed.

Lemma transferRoutes_zone_groups select gw records zone :
  zone_groups gw zone records →
  zone_groups gw zone (transferRoutes select gw records zone).
Proof.
  intros Hinv. unfold transferRoutes. case_match; [|done].
  apply fold_left_inv; [|done]. intros s ctrl Hs.
  apply fold_left_inv; [|done]. clear. intros s item Hs.
  case_match; [|done]. unfold transferRouteResources.
  repeat (case_match; try done);
    (apply fold_left_inv; [|done]; clear; intros s host Hs;
     by apply host_step_zone_groups).
Qed.

Lemma transferDNSEndpoints_zone_groups gw records zone :
  zone_groups gw zone records →
  ∃ records', transferDNSEndpoints gw records zone = Some records' ∧
              zone_groups gw zone records'.
Proof.
  intros Hinv. unfold transferDNSEndpoints.
  apply foldlM_inv; [|done]. intros s ctrl Hs.
  apply foldlM_inv; [|done]. clear. intros s item Hs.
  unfold transferDNSEndpoints_item. destruct item; try by eexists.
  case_match; [by eexists|].
  apply foldlM_inv; [|done]. clear. intros s endpoint Hs.
  unfold transferDNSEndpoints_endpoint.
  destruct (HasSuffix (ToLower (DNSName endpoint)) zone) eqn:Hsuf; simpl;
    [|by eexists].
  case_match.
  - case_match; eexists; (split; [done|]); apply addRecords_zone_groups;
      try done.
    + apply A_transfer_records.
    + apply AAAA_transfer_records.
  - case_match; [|by eexists].
    destruct (TXT_transfer_records gw (Fqdn (ToLower (DNSName endpoint)))
                (Targets endpoint)) as (out & -> & Hout).
    simpl. eexists. split; [done|]. by apply addRecords_zone_groups.
Qed.

Lemma transferResource_zone_groups gw zone records resource :
  zone_groups gw zone records →
  ∃ records', transferResource gw zone records resource = Some records' ∧
              zone_groups gw zone records'.
Proof.
  intros Hinv. unfold transferResource.
  repeat (case_match; [eexists; split; [done|];
    first [by apply transferIngresses_zone_groups
          | by apply transferServices_zone_groups
          | by apply transferRoutes_zone_groups] |]).
  case_match; [by apply transferDNSEndpoints_zone_groups|by eexists].
Qed.

(** X20. The record groups that [transferResources] sends are groups of
    the zone: the records of a group are owned by the fully qualified form
    of one host name that ends with the zone, and each is an A record with
    an IPv4 address, an AAAA record with an IPv6 address or a TXT record,
    of class IN and with the low TTL. *)
Theorem transfer_groups_in_zone gw zone :
  ∃ groups,
    transferResources gw zone = Some groups ∧
    Forall (zone_group gw zone) groups.
Proof.
  unfold transferResources. destruct (negb (HasSynced gw)).
  { exists []. by split. }
  destruct (foldlM_inv (zone_groups gw zone) (transferResource gw zone)
              (Resources gw) ∅)
    as (records & -> & Hinv).
  { intros s x. apply transferResource_zone_groups. }
  { intros key rrs. by rewrite lookup_empty. }
  simpl. eexists. split; [done|].
  apply Forall_forall. intros group Hin.
  apply list_elem_of_In, in_map_iff in Hin as (key & <- & Hkey).
  apply list_elem_of_In, sorted_keys_spec in Hkey as [rrs Hrrs].
  rewrite Hrrs. simpl.
  destruct (Hinv _ _ Hrrs) as (hostname & -> & Hsuf & Hall).
  by exists hostname.
Qed.

End TransferRecords.

(** ** The serial and repeated transfers *)

Section SerialTransfer.
Context `{!GoLib} `{!KubeTypes} `{!KubeLib}.

Lemma calculateSerial_Zones now gw :
  Zones (calculateSerial now gw).2 = Zones gw.
Proof. unfold calculateSerial. by destruct (dirty gw). Qed.

(** A transfer of a served zone leaves the gateway as its SOA read leaves
    it. *)
Lemma Transfer_gateway now gw zone serial :
  ZonesMatches (Zones gw) zone ≠ "" →
  (Transfer now gw zone serial).2 =
  (soa now gw {| Req := None; Zone := zone |}).2.
Proof.
  intros Hzone%String.eqb_neq. unfold Transfer. rewrite Hzone.
  destruct (soa now gw _) as [rr gw1]. simpl.
  destruct (_ && _); [done|]. by destruct (transferResources gw1 zone).
Qed.

(** X21. A transfer of a served zone that is repeated with the serial of
    the first one (not 0), with no dirty signal in between, sends the SOA
    record alone, with that same serial, whatever the time; the gateway is
    left as it is. *)
Theorem repeated_transfer_is_short now now' gw zone serial :
  ZonesMatches (Zones gw) zone ≠ "" →
  let state := {| Req := None; Zone := zone |} in
  let gw1 := (Transfer now gw zone serial).2 in
  let current := RR_Serial (soa now gw state).1 in
  current ≠ 0 →
  Transfer now' gw1 zone current = (Stream [[(soa now' gw1 state).1]], gw1) ∧
  RR_Serial (soa now' gw1 state).1 = current.
Proof.
  intros Hzone state gw1 current Hcur.
  assert (gw1 = (soa now gw state).2) as Hgw1 by by apply Transfer_gateway.
  assert (RR_Serial (soa now' gw1 state).1 = current) as Hsame.
  { rewrite Hgw1. apply soa_twice_same_serial. }
  assert ((soa now' gw1 state).2 = gw1) as Hkeep.
  { rewrite soa_gateway, Hgw1, soa_gateway.
    destruct (calculateSerial_result now gw) as [Hd _].
    by rewrite calculateSerial_clean. }
  split; [|done]. unfold Transfer.
  assert (Zones gw1 = Zones gw) as ->.
  { rewrite Hgw1, soa_gateway. apply calculateSerial_Zones. }
  apply String.eqb_neq in Hzone. rewrite Hzone. fold state.
  destruct (soa now' gw1 state) as [rr gw2]. simpl in *. subst gw2.
  rewrite Hsame, Z.eqb_refl.
  apply Z.eqb_neq in Hcur. by rewrite Hcur.
Qed.

(** X22. After [markDirty] the next SOA read always carries a serial
    that differs from the previous one, also where the 32-bit serial
    wraps; the serial stays a 32-bit value and the dirty flag is
    cleared. *)
Theorem serial_changes_when_dirty now gw state :
  0 <= lastSerial gw < 2 ^ 32 →
  let next := soa now (markDirty gw) state in
  RR_Serial next.1 ≠ lastSerial gw ∧
  0 <= RR_Serial next.1 < 2 ^ 32 ∧
  lastSerial next.2 = RR_Serial next.1 ∧
  dirty next.2 = false.
Proof.
  intros Hrange next.
  destruct (soa_serial now (markDirty gw) state) as [Hs Hg].
  fold next in Hs, Hg.
  destruct (calculateSerial_result now (markDirty gw)) as [Hd Hl].
  pose proof (calculateSerial_dirty now (markDirty gw) eq_refl) as Hnew.
  change (lastSerial (markDirty gw)) with (lastSerial gw) in Hnew.
  rewrite Hg, Hs. split; [|split; [|done]].
  - rewrite Hnew. unfold uint32.
    pose proof (Z.mod_pos_bound now (2 ^ 32) ltac:(lia)).
    destruct (Z.leb_spec (now mod 2 ^ 32) (lastSerial gw)); [|lia].
    destruct (Z.eq_dec (lastSerial gw) (2 ^ 32 - 1)) as [Heq|Hne].
    + rewrite Heq. replace (2 ^ 32 - 1 + 1) with (2 ^ 32) by lia.
      rewrite Z.mod_same by lia. lia.
    + rewrite Z.mod_small by lia. lia.
  - rewrite Hnew. unfold uint32. destruct (_ <=? _); apply Z.mod_pos_bound; lia.
Qed.

(** ** The records map of the transfer *)

(** X23. [addHostRecords] appends the A records of the IPv4 addresses
    and then the AAAA records of the IPv6 addresses to the group of the
    host name, which it creates if need be, and leaves the other groups;
    records that the group already holds are kept, duplicates
    included. *)
Theorem addHostRecords_lookup gw records fqdn addrs key :
  let rrs := A gw fqdn (ipv4Only addrs) ++ AAAA gw fqdn (ipv6Only addrs) in
  addHostRecords gw records fqdn addrs !! key =
    if bool_decide (key = fqdn) && nonempty rrs
    then Some (default [] (records !! fqdn) ++ rrs)
    else records !! key.
Proof.
  intros rrs. unfold rrs, addHostRecords, addRecords.
  destruct (A gw fqdn (ipv4Only addrs)) as [|a l4];
    destruct (AAAA gw fqdn (ipv6Only addrs)) as [|b l6]; simpl;
    case_bool_decide as Hk; simpl; try done.
  - subst key. by rewrite lookup_insert_eq.
  - by rewrite lookup_insert_ne.
  - subst key. rewrite lookup_insert_eq. by rewrite app_nil_r.
  - by rewrite lookup_insert_ne.
  - subst key. rewrite !lookup_insert_eq. simpl.
    by rewrite <- (assoc_L (++)).
  - by rewrite !lookup_insert_ne.
Qed.

(** The cleaning loop of [getServiceHostnames]. *)
Lemma clean_hostnames hostnames : ∀ cleaned,
  fold_left
    (λ cleaned h, if negb (String.eqb (TrimSpace h) "")
                  then cleaned ++ [TrimSpace h] else cleaned)
    hostnames cleaned =
  cleaned ++ filter (λ h, h ≠ "") (map TrimSpace hostnames).
Proof.
  induction hostnames as [|h hs IH]; intros cleaned; simpl.
  { by rewrite app_nil_r. }
  rewrite IH, filter_cons.
  destruct (String.eqb_spec (TrimSpace h) "") as [Heq|Hne]; simpl.
  - by rewrite decide_False by (by intros Hn).
  - rewrite decide_True by done. by rewrite <- (assoc_L (++)).
Qed.

(** X24. The host names of a service are those of its host-name
    annotation and then those of its external-dns annotation, split at
    the commas, trimmed, the empty ones dropped; the default name
    [name.namespace.zone] is used only when the service has neither
    annotation (not when the annotations yield no name). *)
Theorem getServiceHostnames_spec service zone :
  let clean := λ hostnames, filter (λ h, h ≠ "") (map TrimSpace hostnames) in
  getServiceHostnames service zone =
    match svc_Annotations service !! hostnameAnnotationKey,
          svc_Annotations service !! externalDnsHostnameAnnotationKey with
    | None, None =>
        clean [svc_Name service +:+ "." +:+ svc_Namespace service +:+ "." +:+ zone]
    | Some h1, None => clean (Split h1 ",")
    | None, Some h2 => clean (Split h2 ",")
    | Some h1, Some h2 => clean (Split h1 "," ++ Split h2 ",")
    end.
Proof.
  intros clean. unfold getServiceHostnames, clean. cbv zeta.
  rewrite clean_hostnames. cbn [app].
  destruct (svc_Annotations service !! hostnameAnnotationKey) as [h1|];
    destruct (svc_Annotations service !! externalDnsHostnameAnnotationKey)
      as [h2|]; cbn [app]; try done.
  - pose proof (Split_nonempty h1 ",") as Hne.
    by destruct (Split h1 ",").
  - pose proof (Split_nonempty h1 ",") as Hne.
    by destruct (Split h1 ",").
  - pose proof (Split_nonempty h2 ",") as Hne.
    by destruct (Split h2 ",").
Qed.

End SerialTransfer.

(** A zone transfer at serial 100, repeated with that serial. *)
Lemma repeated_transfer_is_short_witness :
  let gw := gateway staticResources "" 100 false in
  let state := {| Req := None; Zone := "example.com." |} in
  let gw1 := (Transfer 1700000000 gw "example.com." 0).2 in
  Transfer 1700000009 gw1 "example.com." 100 =
    (Stream [[(soa 1700000009 gw1 state).1]], gw1) ∧
  RR_Serial (soa 1700000009 gw1 state).1 = 100.
Proof.
  intros gw state gw1.
  refine (repeated_transfer_is_short 1700000000 1700000009 gw "example.com." 0
            _ _).
  - by vm_compute.
  - by vm_compute.
Defined.

(** The serial at the largest 32-bit value: after a change it wraps to
    0, which differs. *)
Lemma serial_changes_when_dirty_witness :
  let gw := gateway [] "" 4294967295 false in
  let state := {| Req := None; Zone := "example.com." |} in
  let next := soa 1700000001 (markDirty gw) state in
  RR_Serial next.1 ≠ 4294967295 ∧
  0 <= RR_Serial next.1 < 2 ^ 32 ∧
  lastSerial next.2 = RR_Serial next.1 ∧
  dirty next.2 = false.
Proof.
  intros gw state.
  refine (serial_changes_when_dirty 1700000001 gw state _).
  vm_compute. split; congruence.
Defined.

(** ** The configured resources *)

Section Resources.
Context `{!GoLib} `{!KubeTypes}.

Lemma lookupResource_loop_Some resources name r :
  lookupResource_loop resources name = Some r →
  r ∈ resources ∧ res_name r = name.
Proof.
  induction resources as [|r0 rs IH]; simpl; [done|].
  destruct (String.eqb_spec (res_name r0) name) as [Heq|Hne].
  - intros [= <-]. split; [by left|done].
  - intros [Hin Hn]%IH. split; [by right|done].
Qed.

Lemma lookupResource_loop_is_Some resources name :
  is_Some (lookupResource_loop resources name) ↔ name ∈ map res_name resources.
Proof.
  induction resources as [|r0 rs IH]; simpl.
  { split; [by intros [? ?]|by intros ?%elem_of_nil]. }
  rewrite elem_of_cons.
  destruct (String.eqb_spec (res_name r0) name) as [Heq|Hne].
  - split; [by left|by eexists].
  - rewrite IH. split; [by right|]. by intros [?|?].
Qed.

(** The map that [updateResources] fills: its entries are static
    resources under their own names, one for each static name. *)
Lemma resourceLookup_fold static : ∀ (lookup : gmap string resourceWithIndex) name,
  (∀ r, fold_left (λ lookup resource, <[res_name resource := resource]> lookup)
          static lookup !! name = Some r →
        (r ∈ static ∧ res_name r = name) ∨ lookup !! name = Some r) ∧
  (is_Some (fold_left (λ lookup resource, <[res_name resource := resource]> lookup)
              static lookup !! name) ↔
   name ∈ map res_name static ∨ is_Some (lookup !! name)).
Proof.
  induction static as [|r0 rs IH]; intros lookup name; simpl.
  { split; [by right|]. split; [by right|]. by intros [?%elem_of_nil|?]. }
  destruct (IH (<[res_name r0 := r0]> lookup) name) as [IH1 IH2]. split.
  - intros r [[Hin Hn]|Hl]%IH1.
    + left. split; [by right|done].
    + rewrite lookup_insert in Hl. case_decide as Hk.
      * injection Hl as <-. left. split; [by left|done].
      * by right.
  - rewrite IH2, elem_of_cons, lookup_insert. case_decide as Hk.
    + split; [intros _; by left; left|by intros _; right; eexists].
    + split; [intros [?|?]; [by left; right|by right]|].
      intros [[?|?]|?]; [congruence|by left|by right].
Qed.

Lemma resourceLookup_Some static name r :
  resourceLookup static !! name = Some r → r ∈ static ∧ res_name r = name.
Proof.
  intros Hl. destruct (resourceLookup_fold static ∅ name) as [H1 _].
  destruct (H1 r Hl) as [?|Hempty]; [done|]. by rewrite lookup_empty in Hempty.
Qed.

Lemma resourceLookup_is_Some static name :
  is_Some (resourceLookup static !! name) ↔ name ∈ map res_name static.
Proof.
  destruct (resourceLookup_fold static ∅ name) as [_ H2].
  unfold resourceLookup. rewrite H2, lookup_empty. split; [|by left].
  intros [?|[? ?]]; done.
Qed.

(** The second loop of [updateResources]. *)
Lemma updateResources_fold static newResources : ∀ resources,
  let out :=
    fold_left
      (λ resources name,
         match resourceLookup static !! name with
         | Some resource => resources ++ [resource]
         | None => resources
         end)
      newResources resources in
  map res_name out =
    map res_name resources ++
    filter (λ name, name ∈ map res_name static) newResources ∧
  (Forall (λ r, r ∈ static) resources → Forall (λ r, r ∈ static) out).
Proof.
  induction newResources as [|name names IH]; intros resources; simpl.
  { by rewrite app_nil_r. }
  rewrite filter_cons.
  destruct (resourceLookup static !! name) as [r|] eqn:Hl.
  - destruct (resourceLookup_Some _ _ _ Hl) as [Hin Hn].
    rewrite decide_True by (apply resourceLookup_is_Some; by eexists).
    destruct (IH (resources ++ [r])) as [-> Hall]. split.
    + rewrite map_app. simpl. by rewrite Hn, <- (assoc_L (++)).
    + intros Hres. apply Hall. apply Forall_app. split; [done|].
      by constructor.
  - rewrite decide_False; [apply IH|].
    intros [r Hr]%resourceLookup_is_Some. congruence.
Qed.

(** X25. After [updateResources] the resource list of the gateway holds,
    in the order of the configuration and with its repetitions, the
    static resources whose names are configured; names that are not
    static are left out, and [lookupResource] finds a name exactly when it
    is configured and static. *)
Theorem updateResources_configured static gw newResources :
  let gw' := updateResources static gw newResources in
  map res_name (Resources gw') =
    filter (λ name, name ∈ map res_name static) newResources ∧
  Forall (λ r, r ∈ static) (Resources gw') ∧
  (∀ name, is_Some (lookupResource gw' name) ↔
           name ∈ newResources ∧ name ∈ map res_name static).
Proof.
  intros gw'. unfold gw', updateResources, lookupResource. simpl.
  destruct (updateResources_fold static newResources []) as [Hnames Hall].
  cbv zeta in Hnames, Hall. simpl in Hnames. split_and!.
  - done.
  - apply Hall. constructor.
  - intros name. rewrite lookupResource_loop_is_Some, Hnames.
    rewrite list_elem_of_filter. tauto.
Qed.

End Resources.

(** ** The nameserver names, further *)

Section ApexRest.
Context `{!GoLib} `{!KubeTypes}.

(** Every record of [SelfAddress] is an A record, whatever the family of
    the address. *)
Lemma SelfAddress_types gw state :
  Forall (λ rr, Rrtype (Hdr rr) = TypeA) (SelfAddress gw state).
Proof.
  unfold SelfAddress.
  destruct (fold_left _ (Resources gw) ([], [])) as [addrs1 addrs2].
  destruct (QType state =? TypeNS); [apply Forall_app; split|];
    by apply A_Forall.
Qed.

Lemma subApex_answer_no_AAAA gw state addr :
  QType state = TypeAAAA →
  Forall (λ rr, Rrtype (Hdr rr) = TypeA) addr →
  subApex_answer gw state addr = [].
Proof.
  intros Hq Hall. unfold subApex_answer. rewrite Hq. simpl.
  induction Hall as [|rr addr Hrr _ IH]; [done|]. simpl.
  rewrite Hrr. simpl. exact IH.
Qed.

(** X26. With the built-in [SelfAddress] as the external-address
    callback every nameserver address is an A record, also for an IPv6
    address; hence an AAAA query at the apex label gets no answer and the
    SOA in authority, whatever addresses the gateway service has. *)
Theorem self_address_has_no_aaaa now gw state :
  ExternalAddrFunc gw = ExternalSelfAddress →
  Forall (λ rr, Rrtype (Hdr rr) = TypeA) (callExternalAddrFunc gw state) ∧
  (QType state = TypeAAAA →
   TrimZone (Request_Name state) (Zone state) = apex gw →
   CountLabel (apex gw) = 2 →
   serveSubApex now gw state =
     (0, {| Rcode := RcodeSuccess; Authoritative := true;
            Answer := []; Ns := [(soa now gw state).1]; Extra := [] |},
      (soa now gw state).2)).
Proof.
  intros Hext.
  assert (Forall (λ rr, Rrtype (Hdr rr) = TypeA) (callExternalAddrFunc gw state))
    as Hall.
  { unfold callExternalAddrFunc. rewrite Hext. apply SelfAddress_types. }
  split; [done|]. intros Hq Hbase Hlabels.
  rewrite (serveSubApex_at_apex now gw state Hbase Hlabels). cbv zeta.
  by rewrite (subApex_answer_no_AAAA gw state _ Hq Hall).
Qed.

(** When the apex check delegates, it returns what [serveSubApex]
    returns. *)
Lemma checkApexQuery_loop_handled now gw state zones :
  handled (checkApexQuery_loop now gw state zones).1 = true →
  checkApexQuery_loop now gw state zones =
    ({| isRootZone := false; handled := true;
        code := (serveSubApex now gw state).1.1;
        written := Some (serveSubApex now gw state).1.2 |},
     (serveSubApex now gw state).2).
Proof.
  induction zones as [|z zs IH]; simpl; [done|].
  destruct (String.eqb _ z); [done|].
  destruct (IsSubDomain _ _); [|done].
  by destruct (serveSubApex now gw state) as [[ret m] gw1].
Qed.

(** X27. A query that the apex check delegates and whose name, without
    the zone, is not the apex label (it has not two labels, or two other
    labels) gets a message with name error, no answer and the SOA in
    authority, while the code that [ServeDNS] returns is success (0). *)
Theorem beside_apex_label_is_name_error now gw q zone :
  let state := {| Req := Some q; Zone := zone |} in
  let base := TrimZone (Request_Name state) zone in
  validateQueryZone gw (q_name q) = Some (zone, true) →
  HasSynced gw = true →
  handled (checkApexQuery now gw state).1 = true →
  CountLabel base ≠ 2 ∨ base ≠ apex gw →
  ServeDNS now gw (Some q) =
    Some (Returned RcodeSuccess false
            (Some {| Rcode := RcodeNameError; Authoritative := true;
                     Answer := []; Ns := [(soa now gw state).1];
                     Extra := [] |}),
          (soa now gw state).2).
Proof.
  intros state base Hzone Hsync Hhandled Hbase. unfold ServeDNS.
  change (QName {| Req := Some q; Zone := "" |}) with (q_name q).
  rewrite Hzone. cbn [mbind option_bind negb].
  destruct (validateQueryZone_zone _ _ _ Hzone) as [Hz Hle].
  destruct (getQueryIndexKeySets_is_Some (q_name q) zone) as [ks ->].
  { rewrite Hz. unfold len in *. rewrite length_str_drop. lia. }
  cbn [mbind option_bind]. rewrite Hsync. cbn [negb]. fold state.
  unfold checkApexQuery in *.
  rewrite (checkApexQuery_loop_handled _ _ _ _ Hhandled). cbn [handled code written].
  assert (serveSubApex now gw state =
          (0, {| Rcode := RcodeNameError; Authoritative := true;
                 Answer := []; Ns := [(soa now gw state).1]; Extra := [] |},
           (soa now gw state).2)) as ->; [|done].
  unfold serveSubApex, subApex_nxdomain. fold base.
  change (Zone state) with zone. fold base.
  destruct (soa now gw state) as [rr gw1]. simpl.
  destruct (Z.eqb_spec (CountLabel base) 2) as [Hl|Hl]; [|done].
  destruct (String.eqb_spec base (apex gw)) as [Hb|Hb]; [|done].
  by destruct Hbase.
Qed.

(** ** Stripping the zone *)

(** X28. [stripDomainCanonical] returns for all names and zones (its
    slice is guarded), while [stripDomain] panics exactly when the zone is
    longer than the name; where the canonical name ends with the
    canonical zone, the two agree on the canonical forms. *)
Theorem stripDomainCanonical_total qname zone :
  (∃ hostname,
     stripDomainCanonical qname zone = Some hostname ∧
     (HasSuffix (canonicalizeDNSName qname) (canonicalizeDNSName zone) = true →
      stripDomain (canonicalizeDNSName qname) (canonicalizeDNSName zone) =
        Some hostname)) ∧
  (stripDomain qname zone = None ↔ len qname < len zone).
Proof.
  split.
  - unfold stripDomainCanonical, stripDomain.
    set (q := canonicalizeDNSName qname). set (z := canonicalizeDNSName zone).
    destruct (Z.leb_spec (len z) (len q)) as [Hle|Hgt]; simpl.
    + pose proof (len_nonneg z).
      unfold go_slice_to. rewrite go_slice_Some by lia. simpl.
      destruct (HasSuffix q z); by eexists.
    + eexists. split; [done|]. unfold HasSuffix.
      by destruct (Z.leb_spec (len z) (len q)); [lia|].
  - split.
    + intros Hnone. destruct (Z.lt_ge_cases (len qname) (len zone)); [done|].
      by rewrite stripDomain_Some in Hnone by lia.
    + apply stripDomain_None.
Qed.

End ApexRest.

(** A gateway service with an IPv6 address only: the AAAA query for the
    nameserver name gets no answer. *)
Lemma self_address_has_no_aaaa_witness :
  let gw := gateway [ {| res_name := "Service";
                         res_lookup := addr_lookup
                           [("dns1.kube-system", [ip6 "fd12:3456:789a:1::53"])] |} ]
              "" 100 false in
  let state := {| Req := Some {| q_name := "dns1.kube-system.example.com.";
                                 q_type := TypeAAAA |};
                  Zone := "example.com." |} in
  callExternalAddrFunc gw state =
    [ {| Hdr := {| Name := "dns1.kube-system.example.com."; Rrtype := TypeA;
                   Class_ := ClassINET; Ttl := 60 |};
         Data := Data_A (ip6 "fd12:3456:789a:1::53") |} ] ∧
  serveSubApex 1700000000 gw state =
    (0, {| Rcode := RcodeSuccess; Authoritative := true;
           Answer := []; Ns := [(soa 1700000000 gw state).1]; Extra := [] |},
     (soa 1700000000 gw state).2).
Proof.
  intros gw state. split; [reflexivity|].
  destruct (self_address_has_no_aaaa 1700000000 gw state eq_refl) as [_ Hsub].
  apply Hsub; reflexivity.
Defined.

(** The apex tests of the suite: [foo.dns1.kube-system.example.com.]. *)
Lemma beside_apex_label_is_name_error_witness :
  let q := {| q_name := "foo.dns1.kube-system.example.com."; q_type := TypeA |} in
  let state := {| Req := Some q; Zone := "example.com." |} in
  ServeDNS 1700000000 test_gateway (Some q) =
    Some (Returned RcodeSuccess false
            (Some {| Rcode := RcodeNameError; Authoritative := true;
                     Answer := [];
                     Ns := [(soa 1700000000 test_gateway state).1];
                     Extra := [] |}),
          (soa 1700000000 test_gateway state).2).
Proof.
  intros q state.
  refine (beside_apex_label_is_name_error 1700000000 test_gateway q
            "example.com." _ _ _ _).
  - reflexivity.
  - reflexivity.
  - reflexivity.
  - left. by vm_compute.
Defined.

(** ** CNAME queries and the keys of the zone apex *)

Section ApexKeys.
Context `{!GoLib} `{!KubeTypes}.

(** X29. A CNAME query that is answered from the index for a name with
    CNAME targets gets the CNAME record of the first target alone, with
    success: the other targets and the addresses of the name are left
    out, and the chain is not resolved. *)
Theorem cname_query_answer now gw q zone isRoot addrs raws cname rest :
  q_type q = TypeCNAME →
  answers_from_index now gw q zone isRoot (addrs, raws, cname :: rest) →
  ServeDNS now gw (Some q) =
    Some (Returned RcodeSuccess false
            (Some {| Rcode := RcodeSuccess; Authoritative := true;
                     Answer := [CNAME gw (ToLower (q_name q)) cname];
                     Ns := []; Extra := [] |}),
          gw).
Proof.
  intros Hq Hidx.
  rewrite (ServeDNS_from_index _ _ _ _ _ _ _ _ Hidx).
  cbv zeta. rewrite !andb_false_r. simpl.
  unfold processQueryResponse, QType. simpl. by rewrite Hq.
Qed.

Lemma stripClosingDot_length s :
  (String.length s - 1 <= String.length (stripClosingDot s))%nat.
Proof.
  unfold stripClosingDot, TrimSuffix.
  destruct (1 <? len s); [|lia].
  destruct (HasSuffix s "."); [|lia].
  rewrite length_str_take. unfold len. simpl. lia.
Qed.

(** X30. The key sets of a query at the apex of a zone are the zone name
    alone and then the keys of the wildcard [*.<zone>], namely that name
    and [*]: a query at the apex for which no table has the zone name
    itself is answered from the wildcard records of the zone. *)
Theorem apex_key_sets zone :
  zone ≠ "" →
  toWildcardQName zone zone = Some ("*." +:+ zone) ∧
  getQueryIndexKeySets zone zone =
    Some [[stripClosingDot zone]; [stripClosingDot ("*." +:+ zone); "*"]].
Proof.
  intros Hzone.
  assert (stripDomain zone zone = Some "") as Hstrip.
  { rewrite stripDomain_Some by lia. by rewrite Z.sub_diag, str_take_0. }
  assert (toWildcardQName zone zone = Some ("*." +:+ zone)) as Hw.
  { unfold toWildcardQName. by rewrite Hstrip. }
  split; [done|].
  assert (stripDomain ("*." +:+ zone) zone = Some "*") as Hstrip'.
  { rewrite stripDomain_Some.
    - replace (len ("*." +:+ zone) - len zone) with 2; [done|].
      unfold len. rewrite str_length_app. simpl. lia.
    - unfold len. rewrite str_length_app. lia. }
  assert (getQueryIndexKeys zone zone = Some [stripClosingDot zone]) as Hk.
  { unfold getQueryIndexKeys. by rewrite Hstrip. }
  assert (getQueryIndexKeys ("*." +:+ zone) zone =
          Some [stripClosingDot ("*." +:+ zone); "*"]) as Hk'.
  { unfold getQueryIndexKeys. rewrite Hstrip'. cbn [mbind option_bind].
    change (len "*" =? 0) with false. cbn [negb andb].
    destruct (String.eqb_spec "*" (stripClosingDot ("*." +:+ zone))) as [Heq|Hne];
      [|done].
    pose proof (stripClosingDot_length ("*." +:+ zone)) as Hlen.
    rewrite <- Heq, str_length_app in Hlen. simpl in Hlen.
    destruct zone; [done|]. simpl in Hlen. lia. }
  unfold getQueryIndexKeySets. rewrite Hk. cbn [mbind option_bind].
  rewrite Hw. cbn [mbind option_bind]. rewrite Hk'.
  by rewrite !str_app_cons.
Qed.

End ApexKeys.

(** Test 22 of the CNAME tests: the CNAME query for [cname.example.com.]. *)
Lemma cname_query_answer_witness :
  let q := {| q_name := "cname.example.com."; q_type := TypeCNAME |} in
  ServeDNS 1700000000 test_gateway (Some q) =
    Some (Returned RcodeSuccess false
            (Some {| Rcode := RcodeSuccess; Authoritative := true;
                     Answer := [CNAME test_gateway "cname.example.com."
                                  "target.example.com"];
                     Ns := []; Extra := [] |}),
          test_gateway).
Proof.
  intros q.
  refine (cname_query_answer 1700000000 test_gateway q "example.com." false
            [] [] "target.example.com" [] _ _).
  - reflexivity.
  - eexists. split_and!; reflexivity.
Defined.

(** The apex of [example.com.]. *)
Lemma apex_key_sets_witness :
  toWildcardQName "example.com." "example.com." = Some "*.example.com." ∧
  getQueryIndexKeySets "example.com." "example.com." =
    Some [["example.com"]; ["*.example.com"; "*"]].
Proof. refine (apex_key_sets "example.com." _). discriminate. Defined.
